(** * A shallow embedding of uuwm (src/uuwm.c), a minimal XCB tiling window manager

    The development follows the C source function by function:
    - C [int] values are modelled as [Z]; all the coordinates handled by the
      manager come from 16-bit X protocol fields or 32-bit size hints, and the
      source does no deliberate wrap-around on them;
    - C [float] (the aspect ratios [mina]/[maxa]) is IEEE-754 binary32,
      modelled with the Standard Library's [SpecFloat] at precision 24 and
      maximal exponent 128, with round-to-nearest-even conversions from int
      and truncation back to int;
    - the two intrusive lists ([clients] through [next], [stack] through
      [snext]) are lists of pointers into a heap of [client_t] records;
    - the X server is a record of per-window server-side data the manager
      queries, and every request the manager sends is appended to a log;
    - the handlers run in a state monad with failure: failure stands for the
      undefined behaviour of the C code (a dangling pointer dereference, or
      unlinking a client that is not on the list). *)

From Stdlib Require Import ZArith Lia Bool List.
From Stdlib Require Import Floats.SpecFloat.
From stdpp Require Import base gmap list.
Import ListNotations.

Open Scope Z_scope.

(** ** Protocol constants (xcb/xproto.h, xcb/xcb_icccm.h) *)

Definition XCB_NONE : Z := 0.

Definition XCB_CONFIG_WINDOW_X : Z := 1.
Definition XCB_CONFIG_WINDOW_Y : Z := 2.
Definition XCB_CONFIG_WINDOW_WIDTH : Z := 4.
Definition XCB_CONFIG_WINDOW_HEIGHT : Z := 8.
Definition XCB_CONFIG_WINDOW_BORDER_WIDTH : Z := 16.
Definition XCB_CONFIG_WINDOW_SIBLING : Z := 32.
Definition XCB_CONFIG_WINDOW_STACK_MODE : Z := 64.

Definition XCB_STACK_MODE_ABOVE : Z := 0.
Definition XCB_STACK_MODE_BELOW : Z := 1.

Definition XCB_SIZE_HINT_P_SIZE : Z := 8.
Definition XCB_SIZE_HINT_P_MIN_SIZE : Z := 16.
Definition XCB_SIZE_HINT_P_MAX_SIZE : Z := 32.
Definition XCB_SIZE_HINT_P_RESIZE_INC : Z := 64.
Definition XCB_SIZE_HINT_P_ASPECT : Z := 128.
Definition XCB_SIZE_HINT_BASE_SIZE : Z := 256.

Definition XCB_WM_HINT_X_URGENCY : Z := 256.

Definition XCB_WM_STATE_WITHDRAWN : Z := 0.
Definition XCB_WM_STATE_NORMAL : Z := 1.

Definition XCB_NOTIFY_MODE_NORMAL : Z := 0.
Definition XCB_NOTIFY_DETAIL_INFERIOR : Z := 2.

Definition XCB_PROPERTY_DELETE : Z := 1.

(** Predefined atoms (xcb_atom.h). *)
Definition WM_HINTS : Z := 35.
Definition WM_NAME : Z := 39.
Definition WM_NORMAL_HINTS : Z := 40.
Definition WM_TRANSIENT_FOR : Z := 68.

(** [x & m] tested as a C condition. *)
Definition flag (v m : Z) : bool := negb (Z.eqb (Z.land v m) 0).

(** ** C [float]: IEEE-754 binary32 *)

Definition float := spec_float.

(** [(float)i]: conversion from int, rounded to nearest even. *)
Definition i2f (i : Z) : float := binary_normalize 24 128 i 0 false.

Definition fmul (a b : float) : float := SFmul 24 128 a b.
Definition fdiv (a b : float) : float := SFdiv 24 128 a b.
Definition flt (a b : float) : bool := SFltb a b.

(** [(int)f]: truncation toward zero.  Out of range or not finite, the C
    conversion is undefined; the x86-64 instruction it compiles to
    ([cvttss2si]) yields the "integer indefinite" value INT_MIN. *)
Definition f2i (f : float) : Z :=
  let indef := - 2 ^ 31 in
  match f with
  | S754_zero _ => 0
  | S754_finite s m e =>
      let v := if Z.leb 0 e then Z.pos m * 2 ^ e else Z.pos m / 2 ^ (- e) in
      let v := if s then - v else v in
      if Z.leb (- 2 ^ 31) v && Z.ltb v (2 ^ 31) then v else indef
  | _ => indef
  end.

(** ** [client_t] *)

Record client_t := mkclient {
  mina : float; maxa : float;
  x : Z; y : Z; w : Z; h : Z;
  basew : Z; baseh : Z; incw : Z; inch : Z;
  maxw : Z; maxh : Z; minw : Z; minh : Z;
  oldbw : Z;
  isfixed : bool; isfloating : bool; isurgent : bool; ispanel : bool;
  win : Z
}.

(** [calloc(1, sizeof(client_t))] followed by [c->win = w]. *)
Definition calloc_client (wn : Z) : client_t :=
  mkclient (S754_zero false) (S754_zero false) 0 0 0 0 0 0 0 0 0 0 0 0 0
           false false false false wn.

(** Screen geometry [sx, sy, sw, sh] and window area [wx, wy, ww, wh]. *)
Record screen_t := mkscreen {
  sx : Z; sy : Z; sw : Z; sh : Z;
  wx : Z; wy : Z; ww : Z; wh : Z
}.

(** ** [applysizehints] (uuwm.c:156)

    The pointer arguments [*x, *y, *w, *h] are the [px, py, pw, ph]
    arguments; the function returns their final values and its boolean
    result. *)

Record geom := mkgeom { gx : Z; gy : Z; gw : Z; gh : Z }.

(** The ICCCM constraint block, run for floating clients only
    (uuwm.c:174-212); it changes [*w] and [*h] only. *)
Definition icccm_constrain (c : client_t) (pw ph : Z) : Z * Z :=
  (* see last two sentences in ICCCM 4.1.2.3 *)
  let baseismin := Z.eqb c.(basew) c.(minw) && Z.eqb c.(baseh) c.(minh) in
  (* temporarily remove base dimensions *)
  let '(pw, ph) := if negb baseismin then (pw - c.(basew), ph - c.(baseh))
                   else (pw, ph) in
  (* adjust for aspect limits *)
  let '(pw, ph) :=
    if flt (i2f 0) c.(mina) && flt (i2f 0) c.(maxa) then
      if flt c.(maxa) (fdiv (i2f pw) (i2f ph)) then
        (f2i (fmul (i2f ph) c.(maxa)), ph)
      else if flt c.(mina) (fdiv (i2f ph) (i2f pw)) then
        (pw, f2i (fmul (i2f pw) c.(mina)))
      else (pw, ph)
    else (pw, ph) in
  (* increment calculation requires this *)
  let '(pw, ph) := if baseismin then (pw - c.(basew), ph - c.(baseh))
                   else (pw, ph) in
  (* adjust for increment value *)
  let pw := if negb (Z.eqb c.(incw) 0) then pw - Z.rem pw c.(incw) else pw in
  let ph := if negb (Z.eqb c.(inch) 0) then ph - Z.rem ph c.(inch) else ph in
  (* restore base dimensions *)
  let pw := pw + c.(basew) in
  let ph := ph + c.(baseh) in
  let pw := Z.max pw c.(minw) in
  let ph := Z.max ph c.(minh) in
  let pw := if negb (Z.eqb c.(maxw) 0) then Z.min pw c.(maxw) else pw in
  let ph := if negb (Z.eqb c.(maxh) 0) then Z.min ph c.(maxh) else ph in
  (pw, ph).

Definition applysizehints (s : screen_t) (c : client_t) (px py pw ph : Z)
  : geom * bool :=
  (* set minimum possible *)
  let pw := Z.max 1 pw in
  let ph := Z.max 1 ph in
  let px := if Z.gtb px (s.(sx) + s.(sw)) then s.(sw) - c.(w) else px in
  let py := if Z.gtb py (s.(sy) + s.(sh)) then s.(sh) - c.(h) else py in
  let px := if Z.ltb (px + pw) s.(sx) then s.(sx) else px in
  let py := if Z.ltb (py + ph) s.(sy) then s.(sy) else py in
  let '(pw, ph) := if c.(isfloating) then icccm_constrain c pw ph
                   else (pw, ph) in
  (mkgeom px py pw ph,
   negb (Z.eqb px c.(x)) || negb (Z.eqb py c.(y))
   || negb (Z.eqb pw c.(w)) || negb (Z.eqb ph c.(h))).

(** ** The X server, as seen by the manager *)

(** [xcb_size_hints_t]. *)
Record size_hints := mksizehints {
  sh_flags : Z;
  min_width : Z; min_height : Z;
  max_width : Z; max_height : Z;
  width_inc : Z; height_inc : Z;
  min_aspect_num : Z; min_aspect_den : Z;
  max_aspect_num : Z; max_aspect_den : Z;
  base_width : Z; base_height : Z
}.

(** [xcb_wm_hints_t]: the manager only reads and rewrites [flags]; the
    remaining fields are carried along unchanged. *)
Record wm_hints := mkwmhints { wmh_flags : Z; wmh_rest : list Z }.

(** Server-side data of one window, i.e. the replies the manager gets when
    it asks about it; [None] is a failed query (no reply, or a property that
    is absent or malformed). *)
Record xwin := mkxwin {
  xw_geometry : option (Z * Z * Z * Z * Z);  (* x, y, width, height, border *)
  xw_override_redirect : option bool;         (* GetWindowAttributes *)
  xw_normal_hints : option size_hints;        (* WM_NORMAL_HINTS *)
  xw_wm_hints : option wm_hints;              (* WM_HINTS *)
  xw_transient_for : option Z                 (* WM_TRANSIENT_FOR *)
}.

(** Values of an [xcb_params_configure_window_t]: [None] is a field never
    assigned (an uninitialised stack slot). *)
Record cfg_params := mkcfg {
  p_x : option Z; p_y : option Z; p_width : option Z; p_height : option Z;
  p_border_width : option Z; p_sibling : option Z; p_stack_mode : option Z
}.

Definition cfg_none : cfg_params := mkcfg None None None None None None None.

(** [pack_list] (uuwm.c:82), as used by [xcb_aux_configure_window]: the
    fields whose bit is set in the mask, in bit order. *)
Fixpoint pack_list (n : nat) (mask : Z) (src : list (option Z)) : list (option Z) :=
  match n, src with
  | O, _ | _, [] => []
  | S n, v :: src =>
      let rest := pack_list n (Z.shiftr mask 1) src in
      if Z.odd mask then v :: rest else rest
  end.

Definition cfg_fields (p : cfg_params) : list (option Z) :=
  [p.(p_x); p.(p_y); p.(p_width); p.(p_height); p.(p_border_width);
   p.(p_sibling); p.(p_stack_mode)].

Definition pack_cfg (mask : Z) (p : cfg_params) : list (option Z) :=
  pack_list 7 mask (cfg_fields p).

(** Requests sent to the server, in order.  Error replies to them are not
    modelled: [configure] and [set_focus] only tolerate [BadWindow], which
    has no effect on the manager's state, and every other error ends the
    process. *)
Inductive request :=
| RConfigureWindow (wn mask : Z) (values : list (option Z))
| RSendConfigureNotify (wn ex ey ew eh : Z)  (* border 0, above_sibling NONE *)
| RSetInputFocus (wn : Z)                     (* revert to POINTER_ROOT *)
| RSetWMHints (wn : Z) (hints : wm_hints)
| RSetClientState (wn st : Z)
| RChangeEventMask (wn : Z)
| RMapWindow (wn : Z)
| RGrabServer
| RUngrabServer.

(** ** Manager state *)

Abbreviation ptr := positive (only parsing).

(** [do_arrange] points to [monocle], or to [nothing] during [cleanup]. *)
Inductive layout := Monocle | Nothing.

Record wm := mkwm {
  scr : screen_t;
  clients : list ptr;           (* the [clients] list, through [next] *)
  stack : list ptr;             (* the [stack] list, through [snext] *)
  sel : option ptr;
  heap : gmap ptr client_t;     (* allocated [client_t] records *)
  do_arrange : layout;
  root : Z;                     (* [screen->root] *)
  srv : Z -> xwin;
  out : list request            (* requests sent so far *)
}.

Definition set_scr (v : screen_t) (s : wm) : wm :=
  mkwm v s.(clients) s.(stack) s.(sel) s.(heap) s.(do_arrange) s.(root) s.(srv) s.(out).
Definition set_clients (v : list ptr) (s : wm) : wm :=
  mkwm s.(scr) v s.(stack) s.(sel) s.(heap) s.(do_arrange) s.(root) s.(srv) s.(out).
Definition set_stack (v : list ptr) (s : wm) : wm :=
  mkwm s.(scr) s.(clients) v s.(sel) s.(heap) s.(do_arrange) s.(root) s.(srv) s.(out).
Definition set_sel (v : option ptr) (s : wm) : wm :=
  mkwm s.(scr) s.(clients) s.(stack) v s.(heap) s.(do_arrange) s.(root) s.(srv) s.(out).
Definition set_heap (v : gmap ptr client_t) (s : wm) : wm :=
  mkwm s.(scr) s.(clients) s.(stack) s.(sel) v s.(do_arrange) s.(root) s.(srv) s.(out).
Definition set_layout (v : layout) (s : wm) : wm :=
  mkwm s.(scr) s.(clients) s.(stack) s.(sel) s.(heap) v s.(root) s.(srv) s.(out).
Definition set_srv (v : Z -> xwin) (s : wm) : wm :=
  mkwm s.(scr) s.(clients) s.(stack) s.(sel) s.(heap) s.(do_arrange) s.(root) v s.(out).
Definition set_out (v : list request) (s : wm) : wm :=
  mkwm s.(scr) s.(clients) s.(stack) s.(sel) s.(heap) s.(do_arrange) s.(root) s.(srv) v.

(** ** The handler monad: state passing with failure (undefined behaviour) *)

Definition M (A : Type) : Type := wm -> option (A * wm).

Definition ret {A} (a : A) : M A := fun s => Some (a, s).
Definition bind {A B} (m : M A) (k : A -> M B) : M B :=
  fun s => match m s with Some (a, s') => k a s' | None => None end.
Definition ub {A} : M A := fun _ => None.
Definition gets {A} (f : wm -> A) : M A := fun s => Some (f s, s).
Definition modify (f : wm -> wm) : M unit := fun s => Some (tt, f s).

Notation "x <- m ;; k" := (bind m (fun x => k))
  (at level 100, m at next level, k at level 200, right associativity).
Notation "m ;; k" := (bind m (fun _ : unit => k))
  (at level 100, k at level 200, right associativity).

Definition emit (r : request) : M unit := modify (fun s => set_out (s.(out) ++ [r]) s).

(** [*c] for a client pointer: undefined when [c] is not allocated. *)
Definition deref (p : ptr) : M client_t :=
  fun s => match s.(heap) !! p with Some c => Some (c, s) | None => None end.

(** Writing the fields of [*c]. *)
Definition store (p : ptr) (c : client_t) : M unit :=
  fun s => match s.(heap) !! p with
           | Some _ => Some (tt, set_heap (<[p := c]> s.(heap)) s)
           | None => None
           end.

(** [calloc]: a block not currently allocated. *)
Definition alloc (p : ptr) (c : client_t) : M unit :=
  fun s => match s.(heap) !! p with
           | Some _ => None
           | None => Some (tt, set_heap (<[p := c]> s.(heap)) s)
           end.

Definition free (p : ptr) : M unit :=
  modify (fun s => set_heap (delete p s.(heap)) s).

(** ** Requests (uuwm.c:217-273) *)

Definition configure (wn mask : Z) (params : cfg_params) : M unit :=
  emit (RConfigureWindow wn mask (pack_cfg mask params)).

Definition configure_event (c : client_t) : M unit :=
  emit (RSendConfigureNotify c.(win) c.(x) c.(y) c.(w) c.(h)).

Definition set_focus (wn : Z) : M unit := emit (RSetInputFocus wn).

Definition setclientstate (c : client_t) (st : Z) : M unit :=
  emit (RSetClientState c.(win) st).

(** Server-side effect of [xcb_set_wm_hints]. *)
Definition srv_set_wm_hints (wn : Z) (hs : wm_hints) (f : Z -> xwin) : Z -> xwin :=
  fun v => if Z.eqb v wn then
             let o := f v in
             mkxwin o.(xw_geometry) o.(xw_override_redirect)
                    o.(xw_normal_hints) (Some hs) o.(xw_transient_for)
           else f v.

Definition xcb_set_wm_hints (wn : Z) (hs : wm_hints) : M unit :=
  emit (RSetWMHints wn hs);;
  modify (fun s => set_srv (srv_set_wm_hints wn hs s.(srv)) s).

(** ** [resize] (uuwm.c:275) *)

Definition set_geom (c : client_t) (g : geom) : client_t :=
  mkclient c.(mina) c.(maxa) g.(gx) g.(gy) g.(gw) g.(gh)
           c.(basew) c.(baseh) c.(incw) c.(inch) c.(maxw) c.(maxh) c.(minw) c.(minh)
           c.(oldbw) c.(isfixed) c.(isfloating) c.(isurgent) c.(ispanel) c.(win).

Definition XYWH_MASK : Z :=
  Z.lor (Z.lor XCB_CONFIG_WINDOW_X XCB_CONFIG_WINDOW_Y)
        (Z.lor XCB_CONFIG_WINDOW_WIDTH XCB_CONFIG_WINDOW_HEIGHT).

Definition resize (p : ptr) (nx ny nw nh : Z) : M unit :=
  c <- deref p;;
  s <- gets scr;;
  let '(g, changed) := applysizehints s c nx ny nw nh in
  if changed then
    let c' := set_geom c g in
    store p c';;
    configure c'.(win) (Z.lor XYWH_MASK XCB_CONFIG_WINDOW_BORDER_WIDTH)
      (mkcfg (Some c'.(x)) (Some c'.(y)) (Some c'.(w)) (Some c'.(h))
             (Some 0) None None);;
    configure_event c'
  else ret tt.

(** ** Layouts (uuwm.c:297, 535): [monocle] walks [clients] through
    [nexttiled], [nothing] does nothing. *)

Fixpoint monocle_loop (l : list ptr) : M unit :=
  match l with
  | [] => ret tt
  | p :: l' =>
      c <- deref p;;
      (if c.(isfloating) then ret tt
       else s <- gets scr;; resize p s.(wx) s.(wy) s.(ww) s.(wh));;
      monocle_loop l'
  end.

Definition run_layout : M unit :=
  lay <- gets do_arrange;;
  match lay with
  | Monocle => l <- gets clients;; monocle_loop l
  | Nothing => ret tt
  end.

Definition updategeom : M unit :=
  modify (fun s => let t := s.(scr) in
                   set_scr (mkscreen t.(sx) t.(sy) t.(sw) t.(sh)
                                     t.(sx) t.(sy) t.(sw) t.(sh)) s).

(** ** The two lists (uuwm.c:363-393) *)

Definition attach (p : ptr) : M unit :=
  modify (fun s => set_clients (p :: s.(clients)) s).

Definition attachstack (p : ptr) : M unit :=
  modify (fun s => set_stack (p :: s.(stack)) s).

(** Unlinking [c] from a list: the first link equal to [c] is replaced by
    [c]'s successor.  When [c] is not on the list the C loop runs to the
    terminating [NULL] link and overwrites it with [c]'s stale successor
    pointer, which is undefined behaviour in this model. *)
Fixpoint unlink (p : ptr) (l : list ptr) : option (list ptr) :=
  match l with
  | [] => None
  | q :: l' => if Pos.eqb q p then Some l'
               else match unlink p l' with
                    | Some l'' => Some (q :: l'')
                    | None => None
                    end
  end.

Definition detach (p : ptr) : M unit :=
  fun s => match unlink p s.(clients) with
           | Some l => Some (tt, set_clients l s)
           | None => None
           end.

Definition detachstack (p : ptr) : M unit :=
  fun s => match unlink p s.(stack) with
           | Some l => Some (tt, set_stack l s)
           | None => None
           end.

(** ** Focus (uuwm.c:395-434) *)

Definition set_urgent (c : client_t) (b : bool) : client_t :=
  mkclient c.(mina) c.(maxa) c.(x) c.(y) c.(w) c.(h)
           c.(basew) c.(baseh) c.(incw) c.(inch) c.(maxw) c.(maxh) c.(minw) c.(minh)
           c.(oldbw) c.(isfixed) c.(isfloating) b c.(ispanel) c.(win).

Definition clear_urgency_bit (hs : wm_hints) : wm_hints :=
  mkwmhints (Z.land hs.(wmh_flags) (Z.lnot XCB_WM_HINT_X_URGENCY)) hs.(wmh_rest).

Definition clearurgent (p : ptr) : M unit :=
  c <- deref p;;
  store p (set_urgent c false);;
  f <- gets srv;;
  match (f c.(win)).(xw_wm_hints) with
  | Some hs => xcb_set_wm_hints c.(win) (clear_urgency_bit hs)
  | None => ret tt
  end.

(** [focus(c)], with [None] for [NULL]. *)
Definition focus (oc : option ptr) : M unit :=
  st <- gets stack;;
  let oc := match oc with Some p => Some p | None => head st end in
  (match oc with
   | Some p =>
       c <- deref p;;
       (if c.(isurgent) then clearurgent p else ret tt);;
       detachstack p;;
       attachstack p;;
       set_focus c.(win)
   | None => r <- gets root;; set_focus r
   end);;
  modify (set_sel oc).

(** ** [showhide], [restack], [arrange] (uuwm.c:458-512) *)

Fixpoint showhide (l : list ptr) : M unit :=
  match l with
  | [] => ret tt
  | p :: l' =>
      c <- deref p;;
      configure c.(win) (Z.lor XCB_CONFIG_WINDOW_X XCB_CONFIG_WINDOW_Y)
        (mkcfg (Some c.(x)) (Some c.(y)) None None None None None);;
      (if c.(isfloating) then resize p c.(x) c.(y) c.(w) c.(h) else ret tt);;
      showhide l'
  end.

Definition BELOW_MASK : Z :=
  Z.lor XCB_CONFIG_WINDOW_STACK_MODE XCB_CONFIG_WINDOW_SIBLING.

(** The sibling chain over [stack]; [sib] is [params.sibling]. *)
Fixpoint restack_loop (l : list ptr) (sib : Z) : M unit :=
  match l with
  | [] => ret tt
  | p :: l' =>
      c <- deref p;;
      if c.(isfloating) then restack_loop l' sib
      else configure c.(win) BELOW_MASK
             (mkcfg None None None None None (Some sib)
                    (Some XCB_STACK_MODE_BELOW));;
           restack_loop l' c.(win)
  end.

Definition restack : M unit :=
  o <- gets sel;;
  match o with
  | None => ret tt
  | Some p =>
      c <- deref p;;
      (if c.(isfloating) then
         configure c.(win) XCB_CONFIG_WINDOW_STACK_MODE
           (mkcfg None None None None None None (Some XCB_STACK_MODE_ABOVE))
       else ret tt);;
      l <- gets stack;;
      restack_loop l XCB_NONE
  end.

Definition arrange : M unit :=
  l <- gets stack;;
  showhide l;;
  focus None;;
  run_layout;;
  restack.

(** ** [unmanage] (uuwm.c:514) *)

Definition unmanage (p : ptr) : M unit :=
  emit RGrabServer;;
  c <- deref p;;
  configure c.(win) XCB_CONFIG_WINDOW_BORDER_WIDTH
    (mkcfg None None None None (Some c.(oldbw)) None None);;
  detach p;;
  detachstack p;;
  o <- gets sel;;
  (if decide (o = Some p) then focus None else ret tt);;
  setclientstate c XCB_WM_STATE_WITHDRAWN;;
  free p;;
  emit RUngrabServer;;
  arrange.

(** [getclient] (uuwm.c:550): the first client on [clients] with window [wn]. *)
Fixpoint getclient_loop (l : list ptr) (wn : Z) : M (option ptr) :=
  match l with
  | [] => ret None
  | p :: l' => c <- deref p;;
               if Z.eqb c.(win) wn then ret (Some p) else getclient_loop l' wn
  end.

Definition getclient (wn : Z) : M (option ptr) :=
  l <- gets clients;; getclient_loop l wn.

(** ** [updatesizehints] (uuwm.c:655) *)

(** When the reply is missing the C code sets [hints.flags = P_SIZE] and
    reads no other field of [hints]; the zeros below are never used. *)
Definition hints_or_psize (r : option size_hints) : size_hints :=
  match r with
  | Some hs => hs
  | None => mksizehints XCB_SIZE_HINT_P_SIZE 0 0 0 0 0 0 0 0 0 0 0 0
  end.

Definition compute_size_hints (c : client_t) (hs : size_hints) : client_t :=
  let fl := hs.(sh_flags) in
  let '(bw, bh) :=
    if flag fl XCB_SIZE_HINT_BASE_SIZE then (hs.(base_width), hs.(base_height))
    else if flag fl XCB_SIZE_HINT_P_MIN_SIZE then (hs.(min_width), hs.(min_height))
    else (0, 0) in
  let '(iw, ih) :=
    if flag fl XCB_SIZE_HINT_P_RESIZE_INC then (hs.(width_inc), hs.(height_inc))
    else (0, 0) in
  let '(mxw, mxh) :=
    if flag fl XCB_SIZE_HINT_P_MAX_SIZE then (hs.(max_width), hs.(max_height))
    else (0, 0) in
  let '(mnw, mnh) :=
    if flag fl XCB_SIZE_HINT_P_MIN_SIZE then (hs.(min_width), hs.(min_height))
    else if flag fl XCB_SIZE_HINT_BASE_SIZE then (hs.(base_width), hs.(base_height))
    else (0, 0) in
  let '(mna, mxa) :=
    if flag fl XCB_SIZE_HINT_P_ASPECT then
      (fdiv (i2f hs.(min_aspect_num)) (i2f hs.(min_aspect_den)),
       fdiv (i2f hs.(max_aspect_num)) (i2f hs.(max_aspect_den)))
    else (i2f 0, i2f 0) in
  let fixed := negb (Z.eqb mxw 0) && negb (Z.eqb mnw 0)
               && negb (Z.eqb mxh 0) && negb (Z.eqb mnh 0)
               && Z.eqb mxw mnw && Z.eqb mxh mnh in
  mkclient mna mxa c.(x) c.(y) c.(w) c.(h) bw bh iw ih mxw mxh mnw mnh
           c.(oldbw) fixed c.(isfloating) c.(isurgent) c.(ispanel) c.(win).

Definition updatesizehints (p : ptr) : M unit :=
  c <- deref p;;
  f <- gets srv;;
  store p (compute_size_hints c (hints_or_psize (f c.(win)).(xw_normal_hints))).

(** ** [manage] (uuwm.c:703)

    [p] is the block [calloc] returns. *)

Definition set_floating (c : client_t) (b : bool) : client_t :=
  mkclient c.(mina) c.(maxa) c.(x) c.(y) c.(w) c.(h)
           c.(basew) c.(baseh) c.(incw) c.(inch) c.(maxw) c.(maxh) c.(minw) c.(minh)
           c.(oldbw) c.(isfixed) b c.(isurgent) c.(ispanel) c.(win).

(** Initial geometry from the GetGeometry reply (uuwm.c:719-739). *)
Definition initial_client (t : screen_t) (c : client_t)
    (g : Z * Z * Z * Z * Z) : client_t :=
  let '(gx0, gy0, gw0, gh0, gbw) := g in
  let '(nx, ny) :=
    if Z.eqb gw0 t.(sw) && Z.eqb gh0 t.(sh) then (t.(sx), t.(sy))
    else
      let nx := if Z.gtb (gx0 + gw0) (t.(sx) + t.(sw)) then t.(sx) + t.(sw) - gw0 else gx0 in
      let ny := if Z.gtb (gy0 + gh0) (t.(sy) + t.(sh)) then t.(sy) + t.(sh) - gh0 else gy0 in
      (Z.max nx t.(sx), Z.max ny t.(sy)) in
  mkclient c.(mina) c.(maxa) nx ny gw0 gh0
           c.(basew) c.(baseh) c.(incw) c.(inch) c.(maxw) c.(maxh) c.(minw) c.(minh)
           gbw c.(isfixed) c.(isfloating) c.(isurgent) c.(ispanel) c.(win).

Definition manage (p : ptr) (wn : Z) : M unit :=
  alloc p (calloc_client wn);;
  f <- gets srv;;
  match (f wn).(xw_geometry) with
  | None => ret tt            (* window gone: the block is leaked *)
  | Some g =>
      t <- gets scr;;
      c <- deref p;;
      store p (initial_client t c g);;
      (* the outer [params]: only [border_width] is ever assigned *)
      let params := mkcfg None None None None (Some 0) None None in
      configure wn XCB_CONFIG_WINDOW_BORDER_WIDTH params;;
      updatesizehints p;;
      emit (RChangeEventMask wn);;
      c <- deref p;;
      store p (set_floating c (c.(isfloating) || c.(isfixed)));;
      f <- gets srv;;
      (match (f wn).(xw_transient_for) with
       | Some tr => c <- deref p;;
                    store p (set_floating c (c.(isfloating) || negb (Z.eqb tr XCB_NONE)))
       | None => ret tt
       end);;
      c <- deref p;;
      (* both configure calls below pass the outer [params], not [param] *)
      (if c.(isfloating) then configure c.(win) XCB_CONFIG_WINDOW_STACK_MODE params
       else ret tt);;
      attach p;;
      attachstack p;;
      configure c.(win) XYWH_MASK params;;
      emit (RMapWindow wn);;
      setclientstate c XCB_WM_STATE_NORMAL;;
      arrange
  end.

(** ** [updatewmhints], [check_refloat] (uuwm.c:832-868)

    [indet] is the value of [!!(hints.flags & XCB_WM_HINT_X_URGENCY)] read
    from the uninitialised [hints] when no hints could be fetched. *)

Definition updatewmhints (p : ptr) (indet : bool) : M unit :=
  c <- deref p;;
  f <- gets srv;;
  match (f c.(win)).(xw_wm_hints) with
  | Some hs =>
      o <- gets sel;;
      if bool_decide (o = Some p) && flag hs.(wmh_flags) XCB_WM_HINT_X_URGENCY then
        xcb_set_wm_hints c.(win) (clear_urgency_bit hs)
      else ret tt
  | None => store p (set_urgent c indet)
  end.

Definition check_refloat (p : ptr) : M unit :=
  c <- deref p;;
  f <- gets srv;;
  match (f c.(win)).(xw_transient_for) with
  | Some tr =>
      let old := c.(isfloating) in
      g <- getclient tr;;
      let nf := match g with Some _ => true | None => false end in
      store p (set_floating c nf);;
      if Bool.eqb nf old then ret tt else arrange
  | None => ret tt
  end.

(** ** Event handlers (uuwm.c:560-907) *)

(** [xcb_configure_request_event_t]. *)
Record cfgreq := mkcfgreq {
  cr_window : Z; cr_value_mask : Z;
  cr_x : Z; cr_y : Z; cr_width : Z; cr_height : Z;
  cr_border_width : Z; cr_sibling : Z; cr_stack_mode : Z
}.

(** The geometry a floating client records for a ConfigureRequest
    (uuwm.c:575-586). *)
Definition floating_request_geom (t : screen_t) (c : client_t) (e : cfgreq) : geom :=
  let m := e.(cr_value_mask) in
  let nx := if flag m XCB_CONFIG_WINDOW_X then t.(sx) + e.(cr_x) else c.(x) in
  let ny := if flag m XCB_CONFIG_WINDOW_Y then t.(sy) + e.(cr_y) else c.(y) in
  let nw := if flag m XCB_CONFIG_WINDOW_WIDTH then e.(cr_width) else c.(w) in
  let nh := if flag m XCB_CONFIG_WINDOW_HEIGHT then e.(cr_height) else c.(h) in
  (* center in x direction *)
  let nx := if Z.gtb (nx - t.(sx) + nw) t.(sw)
            then t.(sx) + (Z.quot t.(sw) 2 - Z.quot nw 2) else nx in
  (* center in y direction *)
  let ny := if Z.gtb (ny - t.(sy) + nh) t.(sh)
            then t.(sy) + (Z.quot t.(sh) 2 - Z.quot nh 2) else ny in
  mkgeom nx ny nw nh.

(** The C condition [(m & (X | Y)) & !(m & (WIDTH | HEIGHT))]. *)
Definition synthetic_cond (m : Z) : bool :=
  negb (Z.eqb (Z.land (Z.land m (Z.lor XCB_CONFIG_WINDOW_X XCB_CONFIG_WINDOW_Y))
                      (if flag m (Z.lor XCB_CONFIG_WINDOW_WIDTH XCB_CONFIG_WINDOW_HEIGHT)
                       then 0 else 1)) 0).

Definition passthrough_params (e : cfgreq) : cfg_params :=
  mkcfg (Some e.(cr_x)) (Some e.(cr_y)) (Some e.(cr_width)) (Some e.(cr_height))
        (Some e.(cr_border_width)) (Some e.(cr_sibling)) (Some e.(cr_stack_mode)).

Definition configurerequest (e : cfgreq) : M unit :=
  g <- getclient e.(cr_window);;
  match g with
  | Some p =>
      c <- deref p;;
      if flag e.(cr_value_mask) XCB_CONFIG_WINDOW_BORDER_WIDTH then
        if negb (Z.eqb e.(cr_border_width) 0) then
          configure c.(win) XCB_CONFIG_WINDOW_BORDER_WIDTH
            (mkcfg None None None None (Some 0) None None)
        else ret tt
      else if c.(isfloating) then
        t <- gets scr;;
        let c' := set_geom c (floating_request_geom t c e) in
        store p c';;
        (if synthetic_cond e.(cr_value_mask) then configure_event c' else ret tt);;
        configure c'.(win) XYWH_MASK
          (mkcfg (Some c'.(x)) (Some c'.(y)) (Some c'.(w)) (Some c'.(h))
                 None None None)
      else configure_event c
  | None =>
      (* Not our business, just pass it through *)
      configure e.(cr_window) e.(cr_value_mask) (passthrough_params e)
  end.

Definition destroynotify (wn : Z) : M unit :=
  g <- getclient wn;;
  match g with Some p => unmanage p | None => ret tt end.

Definition unmapnotify (wn : Z) : M unit :=
  g <- getclient wn;;
  match g with Some p => unmanage p | None => ret tt end.

Definition enternotify (mode detail ev : Z) : M unit :=
  r <- gets root;;
  if (negb (Z.eqb mode XCB_NOTIFY_MODE_NORMAL)
      || Z.eqb detail XCB_NOTIFY_DETAIL_INFERIOR) && negb (Z.eqb ev r)
  then ret tt
  else g <- getclient ev;; focus g.

Definition focusin (ev : Z) : M unit :=
  o <- gets sel;;
  match o with
  | Some p => c <- deref p;;
              if negb (Z.eqb ev c.(win)) then set_focus c.(win) else ret tt
  | None => ret tt
  end.

Definition maprequest (wn : Z) (p : ptr) : M unit :=
  f <- gets srv;;
  match (f wn).(xw_override_redirect) with
  | Some false =>
      g <- getclient wn;;
      match g with None => manage p wn | Some _ => ret tt end
  | _ => ret tt
  end.

Definition propertynotify (wn atom st : Z) (indet : bool) : M unit :=
  r <- gets root;;
  if Z.eqb wn r && Z.eqb atom WM_NAME then ret tt
  else if Z.eqb st XCB_PROPERTY_DELETE then ret tt
  else
    g <- getclient wn;;
    match g with
    | Some p =>
        if Z.eqb atom WM_TRANSIENT_FOR then check_refloat p
        else if Z.eqb atom WM_NORMAL_HINTS then updatesizehints p
        else if Z.eqb atom WM_HINTS then updatewmhints p indet
        else ret tt
    | None => ret tt
    end.

Definition configurenotify (wn width height : Z) : M unit :=
  r <- gets root;;
  t <- gets scr;;
  if Z.eqb wn r && (negb (Z.eqb width t.(sw)) || negb (Z.eqb height t.(sh))) then
    modify (set_scr (mkscreen t.(sx) t.(sy) width height
                              t.(wx) t.(wy) t.(ww) t.(wh)));;
    updategeom;;
    arrange
  else ret tt.

Inductive xevent :=
| ConfigureRequest (e : cfgreq)
| ConfigureNotify (wn width height : Z)
| DestroyNotify (wn : Z)
| EnterNotify (mode detail ev : Z)
| FocusIn (ev : Z)
| MappingNotify
| MapRequest (wn : Z)
| PropertyNotify (wn atom st : Z)
| UnmapNotify (wn : Z).

(** The dispatch table of [run] (uuwm.c:916-924).  [p] is the block a
    [calloc] in [manage] would return, [indet] the uninitialised urgency bit
    of [updatewmhints]. *)
Definition handle (ev : xevent) (p : ptr) (indet : bool) : M unit :=
  match ev with
  | ConfigureRequest e => configurerequest e
  | ConfigureNotify wn wd ht => configurenotify wn wd ht
  | DestroyNotify wn => destroynotify wn
  | EnterNotify md dt e => enternotify md dt e
  | FocusIn e => focusin e
  | MappingNotify => ret tt
  | MapRequest wn => maprequest wn p
  | PropertyNotify wn a st => propertynotify wn a st indet
  | UnmapNotify wn => unmapnotify wn
  end.

Definition XCB_INPUT_FOCUS_POINTER_ROOT : Z := 1.

(** One iteration of [cleanup] (uuwm.c:539): with [do_arrange = nothing],
    [unmanage(stack)] while [stack] is non-empty, then focus PointerRoot. *)
Definition cleanup_step : M unit :=
  modify (set_layout Nothing);;
  st <- gets stack;;
  match st with
  | p :: _ => unmanage p
  | [] => set_focus XCB_INPUT_FOCUS_POINTER_ROOT
  end.

(** The whole of [cleanup] (uuwm.c:539-548).  The [while(stack)] loop is
    run with a bound on its iterations, the length of [stack] when the loop
    starts; [cleanup_empties_registry] shows that [stack] is empty when the
    bound is reached, so the bound never cuts the C loop short. *)
Fixpoint cleanup_loop (fuel : nat) : M unit :=
  match fuel with
  | O => ret tt
  | S n =>
      st <- gets stack;;
      match st with
      | p :: _ => unmanage p;; cleanup_loop n
      | [] => ret tt
      end
  end.

Definition cleanup : M unit :=
  modify (set_layout Nothing);;
  st <- gets stack;;
  cleanup_loop (length st);;
  set_focus XCB_INPUT_FOCUS_POINTER_ROOT.

(** ** [scan] (uuwm.c:933): which top-level windows are managed at start-up

    The replies [scan] reads for each child of the root window, all
    requested before the loop: the window attributes (override-redirect
    and map state), the WM_HINTS ([None] when they cannot be read; their
    initial state otherwise) and WM_TRANSIENT_FOR. *)

Definition XCB_MAP_STATE_VIEWABLE : Z := 2.
Definition XCB_WM_STATE_ICONIC : Z := 3.

Record scan_reply := mkscanreply {
  sr_attributes : option (bool * Z);   (* override_redirect, map_state *)
  sr_initial_state : option Z;
  sr_transient_for : option Z
}.

(** The first loop: the windows managed at once, in order, and the
    transient-for windows delayed to the second loop, in order. *)
Fixpoint scan_loop (children : list Z) (info : Z -> scan_reply) : list Z * list Z :=
  match children with
  | [] => ([], [])
  | wn :: rest =>
      let '(now, transients) := scan_loop rest info in
      let r := info wn in
      match r.(sr_attributes) with
      | None => (now, transients)                       (* can't be queried *)
      | Some (true, _) => (now, transients)             (* override-redirect *)
      | Some (false, map_state) =>
          (* non-viewable, no readable WM_HINTS, or iconic *)
          if negb (Z.eqb map_state XCB_MAP_STATE_VIEWABLE) then (now, transients)
          else match r.(sr_initial_state) with
               | None => (now, transients)
               | Some st =>
                   if Z.eqb st XCB_WM_STATE_ICONIC then (now, transients)
                   else match r.(sr_transient_for) with
                        | Some _ => (now, wn :: transients)  (* second loop *)
                        | None => (wn :: now, transients)
                        end
               end
      end
  end.

(** The windows [scan] passes to [manage], in order. *)
Definition scan_order (children : list Z) (info : Z -> scan_reply) : list Z :=
  let '(now, transients) := scan_loop children info in now ++ transients.

(** ** Runs of the manager *)

(** The state after [setup]: [sx = sy = 0], the screen size, the window
    area equal to the screen, no client. *)
Definition init_wm (r width height : Z) (f : Z -> xwin) : wm :=
  mkwm (mkscreen 0 0 width height 0 0 width height) [] [] None ∅ Monocle r f [].

(** Steps: an event handled by [run]; a [manage] of [scan]; an iteration of
    [cleanup]; other X clients changing the server-side data of windows. *)
Inductive step : wm -> wm -> Prop :=
| step_event ev p b s s' : handle ev p b s = Some (tt, s') -> step s s'
| step_scan p wn s s' : manage p wn s = Some (tt, s') -> step s s'
| step_cleanup s s' : cleanup_step s = Some (tt, s') -> step s s'
| step_server f s : step s (set_srv f s).

Inductive reachable : wm -> Prop :=
| reach_init r width height f : reachable (init_wm r width height f)
| reach_step s s' : reachable s -> step s s' -> reachable s'.

(** ** Relations between states used by the proofs *)

(** The registry is untouched: same lists, same Selected, same allocated blocks. *)
Definition frame (s s' : wm) : Prop :=
  s'.(clients) = s.(clients) /\ s'.(stack) = s.(stack) /\ s'.(sel) = s.(sel)
  /\ dom s'.(heap) = dom s.(heap).

(** As [frame], except that [stack] may be reordered and Selected may change. *)
Definition wframe (s s' : wm) : Prop :=
  s'.(clients) = s.(clients)
  /\ (forall q, q ∈ s'.(stack) <-> q ∈ s.(stack))
  /\ (NoDup s.(stack) -> NoDup s'.(stack))
  /\ dom s'.(heap) = dom s.(heap).

(** Every (successful) run of [m] relates its start and end states by [R]. *)
Definition kept (R : wm -> wm -> Prop) {A} (m : M A) : Prop :=
  forall s a s', m s = Some (a, s') -> R s s'.

(** The registry invariant: both lists without repetition, with the same
    members, all of them allocated. *)
Record reg_inv (s : wm) : Prop := {
  inv_nodup_clients : NoDup s.(clients);
  inv_nodup_stack : NoDup s.(stack);
  inv_same : forall q, q ∈ s.(clients) <-> q ∈ s.(stack);
  inv_alloc : forall q, q ∈ s.(clients) -> q ∈ dom s.(heap)
}.

(** Every successful run of [m] from a state satisfying [P] ends in a state
    satisfying [Q]. *)
Definition hoare {A} (P : wm -> Prop) (m : M A) (Q : wm -> Prop) : Prop :=
  forall s a s', P s -> m s = Some (a, s') -> Q s'.

(** [reg_inv] for a state from which block [p] is absent from both lists. *)
Definition reg_without (p : ptr) (s : wm) : Prop :=
  reg_inv s /\ p ∉ clients s.

(** [reg_inv], with [p] fresh on the lists but allocated. *)
Definition reg_fresh (p : ptr) (s : wm) : Prop :=
  reg_inv s /\ (p ∉ clients s) /\ p ∈ dom (heap s).

(** The lists once [p] is on [clients] but not yet on [stack]
    (resp. after [p] left [clients] but is still on [stack]). *)
Definition reg_half (p : ptr) (lc ls : list ptr) (s : wm) : Prop :=
  NoDup lc /\ NoDup ls /\ (forall q, q ∈ lc <-> q ∈ ls)
  /\ (forall q, q ∈ lc -> q ∈ dom (heap s)).

(** From a state satisfying [P], [m] does not reach undefined behaviour. *)
Definition runs {A} (P : wm -> Prop) (m : M A) : Prop :=
  forall s, P s -> exists a s', m s = Some (a, s').

(** Selected is the most recently focused client, or none if [stack] is empty. *)
Definition sel_head (s : wm) : Prop := s.(sel) = head s.(stack).

(** The window area is the whole screen. *)
Definition area_is_screen (s : wm) : Prop :=
  let t := s.(scr) in t.(wx) = t.(sx) /\ t.(wy) = t.(sy) /\ t.(ww) = t.(sw) /\ t.(wh) = t.(sh).

(** ** Example configurations *)

(** The state after running [m], or [s] itself if [m] fails. *)
Definition after (m : M unit) (s : wm) : wm :=
  match m s with Some (_, s') => s' | None => s end.

Definition plain_xwin : xwin :=
  mkxwin (Some (5, 5, 100, 100, 1)) (Some false) None None None.

Definition absent_xwin : xwin := mkxwin None None None None None.

(** Normal hints with min = max = 100x100. *)
Definition fixed_hints : size_hints :=
  mksizehints (Z.lor XCB_SIZE_HINT_P_MIN_SIZE XCB_SIZE_HINT_P_MAX_SIZE)
              100 100 100 100 0 0 0 0 0 0 0 0.

Definition urgent_hints : wm_hints := mkwmhints XCB_WM_HINT_X_URGENCY [].

(** Windows 10 and 11 are plain top-level windows, 12 declares a fixed
    size, 13 carries the urgency hint. *)
Definition ex_srv : Z -> xwin := fun v =>
  if Z.eqb v 10 || Z.eqb v 11 then plain_xwin
  else if Z.eqb v 12 then
    mkxwin (Some (5, 5, 100, 100, 1)) (Some false) (Some fixed_hints) None None
  else if Z.eqb v 13 then
    mkxwin (Some (5, 5, 100, 100, 1)) (Some false) None (Some urgent_hints) None
  else absent_xwin.

(** A 1920x1080 screen with root window 1. *)
Definition ex_s0 : wm := init_wm 1 1920 1080 ex_srv.

(** Window 10 mapped (client at block 1), then window 11 (block 2). *)
Definition ex_s1 : wm := after (handle (MapRequest 10) 1 false) ex_s0.
Definition ex_s2 : wm := after (handle (MapRequest 11) 2 false) ex_s1.

(** Window 12 (fixed size) mapped as the first client (block 1). *)
Definition ex_s3 : wm := after (handle (MapRequest 12) 1 false) ex_s0.

(** Window 13 (urgency hint) mapped (block 1), then window 10 (block 2). *)
Definition ex_s4 : wm :=
  after (handle (MapRequest 10) 2 false) (after (handle (MapRequest 13) 1 false) ex_s0).

(** Another client changes a property of window [wn] on the server. *)
Definition srv_set_transient (wn t : Z) (f : Z -> xwin) : Z -> xwin :=
  fun v => if Z.eqb v wn then
             let o := f v in
             mkxwin o.(xw_geometry) o.(xw_override_redirect)
                    o.(xw_normal_hints) o.(xw_wm_hints) (Some t)
           else f v.

(** Window 12 declares itself transient for window 99, which is not managed. *)
Definition ex_s5 : wm := set_srv (srv_set_transient 12 99 ex_s3.(srv)) ex_s3.
Definition ex_s6 : wm :=
  after (handle (PropertyNotify 12 WM_TRANSIENT_FOR 0) 2 false) ex_s5.

Definition srv_set_normal_hints (wn : Z) (hs : size_hints) (f : Z -> xwin) : Z -> xwin :=
  fun v => if Z.eqb v wn then
             let o := f v in
             mkxwin o.(xw_geometry) o.(xw_override_redirect)
                    (Some hs) o.(xw_wm_hints) o.(xw_transient_for)
           else f v.

(** Window 10, managed as a tiled client in [ex_s1], declares a fixed size. *)
Definition ex_s7 : wm := set_srv (srv_set_normal_hints 10 fixed_hints ex_s1.(srv)) ex_s1.
Definition ex_s8 : wm :=
  after (handle (PropertyNotify 10 WM_NORMAL_HINTS 0) 2 false) ex_s7.

(** The client record of window 12 in [ex_s3]. *)
Definition ex_c3 : client_t :=
  match ex_s3.(heap) !! 1%positive with Some c => c | None => calloc_client 0 end.

(** The client record of window 10 in [ex_s1]. *)
Definition ex_c1 : client_t :=
  match ex_s1.(heap) !! 1%positive with Some c => c | None => calloc_client 0 end.

(** Window 13 mapped as the only client (block 1); its urgency hint is then
    set again on the server. *)
Definition ex_s9 : wm :=
  let s := after (handle (MapRequest 13) 1 false) ex_s0 in
  set_srv (srv_set_wm_hints 13 urgent_hints s.(srv)) s.

Definition ex_c9 : client_t :=
  match ex_s9.(heap) !! 1%positive with Some c => c | None => calloc_client 0 end.

(** A request for window 12 that moves it to (7, 9). *)
Definition ex_move : cfgreq := mkcfgreq 12 3 7 9 0 0 0 0 0.

(** The same move, with the border width also named in the mask. *)
Definition ex_move_bw : cfgreq := mkcfgreq 12 19 7 9 0 0 0 0 0.

(** ** Monad and frame lemmas *)

Lemma bind_some {A B} (m : M A) (k : A -> M B) s b s' :
  bind m k s = Some (b, s') ->
  exists a s1, m s = Some (a, s1) /\ k a s1 = Some (b, s').
Proof.
  unfold bind. destruct (m s) as [[a s1]|]; [|discriminate].
  intros H. eauto.
Qed.

Lemma bind_run {A B} (m : M A) (k : A -> M B) s a s1 :
  m s = Some (a, s1) -> bind m k s = k a s1.
Proof. intros H. unfold bind. rewrite H. reflexivity. Qed.

Lemma kept_bind (R : wm -> wm -> Prop) `{!Transitive R} {A B}
    (m : M A) (k : A -> M B) :
  kept R m -> (forall a, kept R (k a)) -> kept R (bind m k).
Proof.
  intros Hm Hk s b s' H. apply bind_some in H as (a & s1 & H1 & H2).
  etrans; [eapply Hm; eauto | eapply Hk; eauto].
Qed.

Lemma kept_mono (R1 R2 : wm -> wm -> Prop) {A} (m : M A) :
  (forall s s', R1 s s' -> R2 s s') -> kept R1 m -> kept R2 m.
Proof. intros HR Hm s a s' H. eauto. Qed.

#[global] Instance frame_refl : Reflexive frame.
Proof. intros s. unfold frame. auto. Qed.

#[global] Instance frame_trans : Transitive frame.
Proof.
  intros s1 s2 s3 (?&?&?&?) (?&?&?&?). unfold frame. repeat split; congruence.
Qed.

#[global] Instance wframe_refl : Reflexive wframe.
Proof. intros s. unfold wframe. repeat split; auto. Qed.

#[global] Instance wframe_trans : Transitive wframe.
Proof.
  intros s1 s2 s3 (?&H1&H2&?) (?&H3&H4&?). unfold wframe.
  repeat split; try congruence.
  - intros Hq. apply H1, H3, Hq.
  - intros Hq. apply H3, H1, Hq.
  - auto.
Qed.

Lemma frame_wframe s s' : frame s s' -> wframe s s'.
Proof.
  intros (H1&H2&H3&H4). unfold wframe. rewrite H2. repeat split; auto.
Qed.

Lemma kept_ret {A} R `{!Reflexive R} (a : A) : kept R (ret a).
Proof. intros s b s' H. injection H as <- <-. reflexivity. Qed.

Lemma kept_gets {A} R `{!Reflexive R} (f : wm -> A) : kept R (gets f).
Proof. intros s b s' H. injection H as <- <-. reflexivity. Qed.

Lemma kept_deref R `{!Reflexive R} p : kept R (deref p).
Proof.
  intros s b s' H. unfold deref in H.
  destruct (heap s !! p); [injection H as <- <-; reflexivity | discriminate].
Qed.

Lemma kept_ub {A} R : kept R (@ub A).
Proof. intros s b s' H. discriminate. Qed.

Lemma kept_emit r : kept frame (emit r).
Proof.
  intros s b s' H. unfold emit, modify in H. injection H as <- <-.
  unfold frame; simpl; auto.
Qed.

Lemma kept_store p c : kept frame (store p c).
Proof.
  intros s b s' H. unfold store in H.
  destruct (heap s !! p) eqn:E; [|discriminate]. injection H as <- <-.
  unfold frame; simpl. repeat split; auto.
  apply dom_insert_lookup_L. eauto.
Qed.

Lemma kept_set_srv f : kept frame (modify (fun s => set_srv (f s) s)).
Proof. intros s b s' H. injection H as <- <-. unfold frame; simpl; auto. Qed.

Lemma kept_updategeom : kept frame updategeom.
Proof. intros s b s' H. injection H as <- <-. unfold frame; simpl; auto. Qed.

Create HintDb kept_db.
#[global] Hint Resolve kept_ret kept_gets kept_deref kept_ub kept_emit
  kept_store kept_set_srv kept_updategeom : kept_db.
#[global] Hint Extern 1 (Reflexive _) => exact _ : kept_db.

(** Decompose a computation along its binds and branches. *)
Ltac kept_tac :=
  repeat match goal with
  | |- kept _ (bind _ _) => apply kept_bind; [exact _ | | intro]
  | |- kept _ (match ?e with _ => _ end) => destruct e
  | |- kept _ _ => solve [eauto with kept_db]
  end.

Lemma kept_configure wn m p : kept frame (configure wn m p).
Proof. apply kept_emit. Qed.

Lemma kept_configure_event c : kept frame (configure_event c).
Proof. apply kept_emit. Qed.

Lemma kept_set_focus wn : kept frame (set_focus wn).
Proof. apply kept_emit. Qed.

Lemma kept_setclientstate c st : kept frame (setclientstate c st).
Proof. apply kept_emit. Qed.

Lemma kept_xcb_set_wm_hints wn hs : kept frame (xcb_set_wm_hints wn hs).
Proof. unfold xcb_set_wm_hints. kept_tac. Qed.

#[global] Hint Resolve kept_configure kept_configure_event kept_set_focus
  kept_setclientstate kept_xcb_set_wm_hints : kept_db.

Lemma kept_resize p nx ny nw nh : kept frame (resize p nx ny nw nh).
Proof. unfold resize. kept_tac. Qed.
#[global] Hint Resolve kept_resize : kept_db.

Lemma kept_monocle_loop l : kept frame (monocle_loop l).
Proof. induction l; simpl; kept_tac. Qed.
#[global] Hint Resolve kept_monocle_loop : kept_db.

Lemma kept_run_layout : kept frame run_layout.
Proof. unfold run_layout. kept_tac. Qed.

Lemma kept_showhide l : kept frame (showhide l).
Proof. induction l; simpl; kept_tac. Qed.

Lemma kept_restack_loop l sib : kept frame (restack_loop l sib).
Proof. revert sib; induction l; intros; simpl; kept_tac. Qed.
#[global] Hint Resolve kept_restack_loop : kept_db.

Lemma kept_restack : kept frame restack.
Proof. unfold restack. kept_tac. Qed.

Lemma kept_clearurgent p : kept frame (clearurgent p).
Proof. unfold clearurgent. kept_tac. Qed.

Lemma kept_getclient_loop l wn : kept frame (getclient_loop l wn).
Proof. induction l; simpl; kept_tac. Qed.
#[global] Hint Resolve kept_getclient_loop : kept_db.

Lemma kept_getclient wn : kept frame (getclient wn).
Proof. unfold getclient. kept_tac. Qed.

Lemma kept_updatesizehints p : kept frame (updatesizehints p).
Proof. unfold updatesizehints. kept_tac. Qed.

Lemma kept_updatewmhints p b : kept frame (updatewmhints p b).
Proof. unfold updatewmhints. kept_tac. Qed.

#[global] Hint Resolve kept_run_layout kept_showhide kept_restack
  kept_clearurgent kept_getclient kept_updatesizehints kept_updatewmhints : kept_db.

(** ** Unlinking from a list *)

Lemma unlink_perm p l l' : unlink p l = Some l' -> l ≡ₚ p :: l'.
Proof.
  revert l'; induction l as [|q l IH]; intros l' H; simpl in H; [discriminate|].
  destruct (Pos.eqb q p) eqn:E.
  - apply Pos.eqb_eq in E. subst. injection H as <-. reflexivity.
  - destruct (unlink p l) as [l''|]; [|discriminate]. injection H as <-.
    rewrite (IH l'' eq_refl). apply perm_swap.
Qed.

Lemma unlink_head p l : unlink p (p :: l) = Some l.
Proof. simpl. rewrite Pos.eqb_refl. reflexivity. Qed.

Lemma unlink_elem p l : p ∈ l -> exists l', unlink p l = Some l'.
Proof.
  induction l as [|q l IH]; intros Hp; [apply not_elem_of_nil in Hp; contradiction|].
  simpl. destruct (Pos.eqb q p) eqn:E; [eauto|].
  apply elem_of_cons in Hp as [->|Hp]; [rewrite Pos.eqb_refl in E; discriminate|].
  destruct (IH Hp) as [l' ->]. eauto.
Qed.

(** A block moved to the front keeps the members and their uniqueness. *)
Lemma unlink_wframe_stack p s l :
  unlink p s.(stack) = Some l ->
  wframe s (set_stack (p :: l) s).
Proof.
  intros Hu. apply unlink_perm in Hu. unfold wframe; simpl.
  repeat split; auto.
  - intros Hq. rewrite Hu. exact Hq.
  - intros Hq. rewrite Hu in Hq. exact Hq.
  - intros Hn. rewrite Hu in Hn. exact Hn.
Qed.

Ltac bsome H := apply bind_some in H as (?&?&?&H).

(** [focus] selects the given client, or the head of [stack] for [NULL];
    it moves the selected client to the front of [stack]. *)
Lemma focus_spec oc s a s' :
  focus oc s = Some (a, s') ->
  wframe s s'
  /\ s'.(sel) = match oc with Some p => Some p | None => head s.(stack) end
  /\ (oc = None -> s'.(stack) = s.(stack)).
Proof.
  unfold focus. intros H.
  apply bind_some in H as (st & s0 & Hst & H). injection Hst as <- <-.
  apply bind_some in H as (u & s1 & H1 & H2).
  unfold modify in H2. injection H2 as <- <-.
  destruct (match oc with Some p => Some p | None => head (stack s) end)
    as [p|] eqn:Eoc.
  - apply bind_some in H1 as (c & s2 & Hc & H1).
    unfold deref in Hc. destruct (heap s !! p) as [c0|]; [|discriminate].
    injection Hc as Ec Es2. subst c0 s2.
    apply bind_some in H1 as (u1 & s3 & Hu & H1).
    assert (F3 : frame s s3).
    { destruct (isurgent c).
      - eapply kept_clearurgent; eauto.
      - injection Hu as <- <-. reflexivity. }
    apply bind_some in H1 as (u2 & s4 & Hd & H1).
    unfold detachstack in Hd. destruct (unlink p (stack s3)) as [l|] eqn:Eu;
      [|discriminate]. injection Hd as <- <-.
    apply bind_some in H1 as (u3 & s5 & Ha & H1).
    unfold attachstack, modify in Ha. injection Ha as <- <-.
    apply kept_set_focus in H1. simpl in H1.
    destruct F3 as (Fc & Fs & Fl & Fd).
    destruct H1 as (Gc & Gs & Gl & Gd). simpl in *.
    rewrite Fs in Eu.
    pose proof (unlink_wframe_stack p s l Eu) as W.
    split; [|split].
    + destruct W as (Wc & Wm & Wn & Wd). simpl in *.
      unfold wframe; simpl. rewrite Gs, Gd, Gc, Fd, Fc. repeat split; auto.
      * apply Wm.
      * apply Wm.
    + simpl. reflexivity.
    + intros ->. simpl. rewrite Gs.
      destruct (stack s) as [|q t] eqn:Es; simpl in Eoc; [discriminate|].
      injection Eoc as ->. rewrite unlink_head in Eu. injection Eu as <-.
      reflexivity.
  - apply bind_some in H1 as (r & s2 & Hr & H1). injection Hr as <- <-.
    apply kept_set_focus in H1. destruct H1 as (Gc & Gs & Gl & Gd).
    split; [|split].
    + unfold wframe; simpl. rewrite Gc, Gs, Gd. repeat split; auto.
    + simpl. reflexivity.
    + intros _. simpl. exact Gs.
Qed.

Lemma kept_focus oc : kept wframe (focus oc).
Proof. intros s a s' H. apply (focus_spec oc s a s' H). Qed.

(** [arrange]: Selected ends up as the head of [stack], which is unchanged. *)
Lemma arrange_spec s a s' :
  arrange s = Some (a, s') ->
  wframe s s' /\ s'.(sel) = head s'.(stack) /\ s'.(stack) = s.(stack).
Proof.
  unfold arrange. intros H.
  apply bind_some in H as (l & s0 & Hl & H). injection Hl as <- <-.
  apply bind_some in H as (u1 & s1 & H1 & H).
  apply kept_showhide in H1.
  apply bind_some in H as (u2 & s2 & H2 & H).
  apply focus_spec in H2 as (W2 & Sel2 & St2). specialize (St2 eq_refl).
  apply bind_some in H as (u3 & s3 & H3 & H).
  apply kept_run_layout in H3. apply kept_restack in H.
  destruct H1 as (C1 & T1 & L1 & D1), H3 as (C3 & T3 & L3 & D3),
    H as (C4 & T4 & L4 & D4).
  split; [|split].
  - transitivity s1; [apply frame_wframe; unfold frame; auto|].
    transitivity s2; [exact W2|]. apply frame_wframe.
    transitivity s3; unfold frame; auto.
  - rewrite L4, L3, Sel2, T4, T3, St2. reflexivity.
  - rewrite T4, T3, St2, T1. reflexivity.
Qed.

Lemma kept_arrange : kept wframe arrange.
Proof. intros s a s' H. apply (arrange_spec s a s' H). Qed.

Lemma getclient_loop_found l wn s o s' :
  getclient_loop l wn s = Some (o, s') ->
  s' = s /\ match o with
            | Some p => p ∈ l /\ exists c, s.(heap) !! p = Some c /\ c.(win) = wn
            | None => True
            end.
Proof.
  revert s'; induction l as [|q l IH]; intros s' H; simpl in H.
  - injection H as <- <-. auto.
  - apply bind_some in H as (c & s1 & Hc & H).
    unfold deref in Hc. destruct (heap s !! q) as [c0|] eqn:Eq; [|discriminate].
    injection Hc as Ec Es. subst c0 s1.
    destruct (Z.eqb (win c) wn) eqn:Ew.
    + injection H as <- <-. split; auto. split; [apply list_elem_of_here|].
      exists c. split; auto. apply Z.eqb_eq. exact Ew.
    + apply IH in H as [-> Ho]. split; auto. destruct o as [p|]; auto.
      destruct Ho as [Hp Hc]. split; auto. apply list_elem_of_further. exact Hp.
Qed.

Lemma getclient_found wn s o s' :
  getclient wn s = Some (o, s') ->
  s' = s /\ match o with
            | Some p => p ∈ s.(clients)
                        /\ exists c, s.(heap) !! p = Some c /\ c.(win) = wn
            | None => True
            end.
Proof. unfold getclient. intros H. bsome H. injection H0 as <- <-. eapply getclient_loop_found; eauto. Qed.

(** No client on the list has window [wn]: the lookup misses. *)
Lemma getclient_loop_miss l wn s :
  (forall p, p ∈ l -> exists c, s.(heap) !! p = Some c /\ c.(win) <> wn) ->
  getclient_loop l wn s = Some (None, s).
Proof.
  induction l as [|q l IH]; intros Hl; simpl; [reflexivity|].
  destruct (Hl q (list_elem_of_here _ _)) as (c & Hc & Hw).
  unfold bind, deref. rewrite Hc.
  destruct (Z.eqb (win c) wn) eqn:E; [apply Z.eqb_eq in E; contradiction|].
  apply IH. intros p Hp. apply Hl. apply list_elem_of_further. exact Hp.
Qed.

(** ** C3: the focus step of [arrange] *)

Definition ex_s1_arranged : wm := after arrange ex_s1.

(** C3 (corrected).  After any run of [arrange], Selected is the head of the
    focus-history stack, and the stack itself is unchanged: the second step
    of [arrange] is [focus(NULL)], which refocuses the most recently focused
    client; Selected is none only when no client is managed. *)
Theorem arrange_selects_stack_head (s s' : wm) :
  arrange s = Some (tt, s') ->
  s'.(sel) = head s'.(stack) /\ s'.(stack) = s.(stack).
Proof. intros H. apply arrange_spec in H as (_ & H1 & H2). auto. Qed.

Lemma arrange_selects_stack_head_witness :
  arrange ex_s1 = Some (tt, ex_s1_arranged)
  /\ ex_s1_arranged.(sel) = head ex_s1_arranged.(stack)
  /\ ex_s1_arranged.(stack) = ex_s1.(stack).
Proof.
  assert (E : arrange ex_s1 = Some (tt, ex_s1_arranged)) by (vm_compute; reflexivity).
  split; [exact E|]. exact (arrange_selects_stack_head ex_s1 ex_s1_arranged E).
Defined.

Lemma ex_s1_reachable : reachable ex_s1.
Proof.
  apply (reach_step ex_s0); [apply reach_init|].
  apply (step_event (MapRequest 10) 1 false). vm_compute. reflexivity.
Qed.

(** C3 as stated fails: with one managed client, [arrange] leaves it
    Selected. *)
Lemma arrange_clears_focus_counterexample :
  ~ (forall s s', reachable s -> arrange s = Some (tt, s') -> s'.(sel) = None).
Proof.
  intros H.
  assert (E : arrange ex_s1 = Some (tt, ex_s1_arranged)) by (vm_compute; reflexivity).
  specialize (H ex_s1 ex_s1_arranged ex_s1_reachable E).
  vm_compute in H. discriminate H.
Qed.

(** ** C10: [restack] without a Selected client *)

(** C10.  When Selected is empty, [restack] returns at once: the state is
    unchanged and no request at all is sent, whatever the stack holds. *)
Theorem restack_without_sel (s : wm) :
  s.(sel) = None -> restack s = Some (tt, s).
Proof. intros H. unfold restack, bind, gets. rewrite H. reflexivity. Qed.

Lemma restack_without_sel_witness :
  (set_sel None ex_s2).(stack) = [2%positive; 1%positive]
  /\ restack (set_sel None ex_s2) = Some (tt, set_sel None ex_s2).
Proof.
  split; [vm_compute; reflexivity|].
  apply restack_without_sel. reflexivity.
Defined.

(** ** C9: ConfigureRequest for a window that is not managed *)

(** C9.  A ConfigureRequest whose window is not any client's window is
    forwarded as one ConfigureWindow request carrying the event's own value
    mask and, packed under that mask, the event's x, y, width, height,
    border width, sibling and stack mode; nothing else changes. *)
Theorem configurerequest_passthrough (s : wm) (e : cfgreq) :
  (forall p, p ∈ s.(clients) ->
     exists c, s.(heap) !! p = Some c /\ c.(win) <> e.(cr_window)) ->
  configurerequest e s =
  Some (tt, set_out (s.(out) ++
         [RConfigureWindow e.(cr_window) e.(cr_value_mask)
            (pack_list 7 e.(cr_value_mask)
               [Some e.(cr_x); Some e.(cr_y); Some e.(cr_width);
                Some e.(cr_height); Some e.(cr_border_width);
                Some e.(cr_sibling); Some e.(cr_stack_mode)])]) s).
Proof.
  intros Hmiss. unfold configurerequest.
  rewrite (bind_run _ _ s None s); [reflexivity|].
  unfold getclient. rewrite (bind_run _ _ s (clients s) s); [|reflexivity].
  apply getclient_loop_miss. exact Hmiss.
Qed.

Definition ex_request : cfgreq := mkcfgreq 50 127 3 4 200 100 2 0 1.

Lemma configurerequest_passthrough_witness :
  configurerequest ex_request ex_s2 =
  Some (tt, set_out (ex_s2.(out) ++
         [RConfigureWindow 50 127
            [Some 3; Some 4; Some 200; Some 100; Some 2; Some 0; Some 1]]) ex_s2).
Proof.
  apply (configurerequest_passthrough ex_s2 ex_request).
  vm_compute. intros p Hp.
  repeat (apply elem_of_cons in Hp as [->|Hp]; [eexists; split; [reflexivity|discriminate]|]).
  apply not_elem_of_nil in Hp. contradiction.
Defined.

(** ** C4, C6, C7: [applysizehints] *)

Definition ex_screen : screen_t := mkscreen 0 0 100 100 0 0 100 100.

(** A tiled client recorded at 0,0 10x10. *)
Definition ex_client : client_t :=
  set_geom (calloc_client 10) (mkgeom 0 0 10 10).

(** C4 as stated fails: the position is clamped with the client's recorded
    width (10), not the returned width (50). *)
Lemma applysizehints_offscreen_counterexample :
  ~ (forall s c px py pw ph,
       px > s.(sx) + s.(sw) ->
       (fst (applysizehints s c px py pw ph)).(gx)
       = s.(sw) - (fst (applysizehints s c px py pw ph)).(gw)).
Proof.
  intros H. specialize (H ex_screen ex_client 200 0 50 50).
  vm_compute in H. specialize (H eq_refl). discriminate H.
Qed.

(** C4 (corrected).  When the requested x exceeds [sx + sw], the returned x
    is [sw - c.w], computed from the width recorded in the client before the
    call (not the width being returned), unless that position would leave
    the window entirely left of the screen ([sw - c.w + max(1, w) < sx]), in
    which case it is [sx]; symmetrically for y with [sh], [c.h] and [sy]. *)
Theorem applysizehints_offscreen (s : screen_t) (c : client_t) (px py pw ph : Z) :
  let g := fst (applysizehints s c px py pw ph) in
  (px > s.(sx) + s.(sw) ->
     g.(gx) = if Z.ltb (s.(sw) - c.(w) + Z.max 1 pw) s.(sx)
              then s.(sx) else s.(sw) - c.(w))
  /\ (py > s.(sy) + s.(sh) ->
     g.(gy) = if Z.ltb (s.(sh) - c.(h) + Z.max 1 ph) s.(sy)
              then s.(sy) else s.(sh) - c.(h)).
Proof.
  cbv zeta. unfold applysizehints.
  destruct (if isfloating c then _ else _) as [pw' ph'].
  simpl. split; intros Hp.
  - assert (E : Z.gtb px (sx s + sw s) = true) by (apply Z.gtb_lt; lia).
    rewrite E. reflexivity.
  - assert (E : Z.gtb py (sy s + sh s) = true) by (apply Z.gtb_lt; lia).
    rewrite E. reflexivity.
Qed.

Lemma applysizehints_offscreen_witness :
  (fst (applysizehints ex_screen ex_client 200 300 50 50)).(gx) = 90
  /\ (fst (applysizehints ex_screen ex_client 200 300 50 50)).(gy) = 90.
Proof.
  destruct (applysizehints_offscreen ex_screen ex_client 200 300 50 50) as [H1 H2].
  split; [rewrite H1 | rewrite H2]; vm_compute; reflexivity.
Defined.

(** Case analysis on the integer comparisons of a goal. *)
Ltac zcase :=
  repeat match goal with
  | |- context[Z.gtb ?a ?b] => rewrite (Z.gtb_ltb a b)
  | |- context[Z.ltb ?a ?b] =>
      lazymatch a with context[if _ then _ else _] => fail | _ =>
      lazymatch b with context[if _ then _ else _] => fail | _ =>
        destruct (Z.ltb_spec a b) end end
  | |- context[Z.eqb ?a ?b] =>
      lazymatch a with context[if _ then _ else _] => fail | _ =>
      lazymatch b with context[if _ then _ else _] => fail | _ =>
        destruct (Z.eqb_spec a b) end end
  end.

(** C7.  For a tiled client no ICCCM constraint is applied: the returned
    width and height are [max(1, w)] and [max(1, h)], and x (resp. y) is
    returned unchanged unless one of the off-screen clamps applies to it. *)
Theorem applysizehints_tiled (s : screen_t) (c : client_t) (px py pw ph : Z) :
  c.(isfloating) = false ->
  let g := fst (applysizehints s c px py pw ph) in
  g.(gw) = Z.max 1 pw /\ g.(gh) = Z.max 1 ph
  /\ (px <= s.(sx) + s.(sw) -> s.(sx) <= px + Z.max 1 pw -> g.(gx) = px)
  /\ (py <= s.(sy) + s.(sh) -> s.(sy) <= py + Z.max 1 ph -> g.(gy) = py).
Proof.
  intros Hf. cbv zeta. unfold applysizehints. rewrite Hf. simpl.
  split; [reflexivity|]. split; [reflexivity|].
  split; intros H1 H2; zcase; lia.
Qed.

Lemma applysizehints_tiled_witness :
  ex_client.(isfloating) = false
  /\ fst (applysizehints ex_screen ex_client 30 40 (-5) 70) = mkgeom 30 40 1 70.
Proof.
  split; [reflexivity|].
  destruct (applysizehints_tiled ex_screen ex_client 30 40 (-5) 70 eq_refl)
    as (Hw & Hh & Hx & Hy).
  destruct (fst (applysizehints ex_screen ex_client 30 40 (-5) 70)) as [a b c d].
  simpl in *. rewrite Hw, Hh, Hx, Hy; vm_compute; try reflexivity; discriminate.
Defined.

(** A floating client with width increment 10 and maximal width 15. *)
Definition ex_inc_client : client_t :=
  mkclient (S754_zero false) (S754_zero false) 0 0 10 10
           0 0 10 0 15 0 0 0 0 false true false false 10.

(** C6 as stated fails: the requested width 20 gives 15 (increments leave
    20, the maximum then cuts it to 15), and 15 gives 10. *)
Lemma applysizehints_fixpoint_counterexample :
  ~ (forall s c px py pw ph,
       let g1 := fst (applysizehints s c px py pw ph) in
       applysizehints s (set_geom c g1) g1.(gx) g1.(gy) g1.(gw) g1.(gh)
       = (g1, false)).
Proof.
  intros H. specialize (H ex_screen ex_inc_client 0 0 20 20).
  vm_compute in H. discriminate H.
Qed.

(** One axis of the off-screen clamp keeps the position on the screen side. *)
Lemma offscreen_bounds (p s0 sz cw wv : Z) :
  1 <= wv -> 0 <= s0 -> 0 <= sz -> 0 <= cw ->
  let q := if Z.gtb p (s0 + sz) then sz - cw else p in
  let r := if Z.ltb (q + wv) s0 then s0 else q in
  r <= s0 + sz /\ s0 <= r + wv.
Proof.
  intros H1 H2 H3 H4. cbv zeta. rewrite Z.gtb_ltb.
  destruct (Z.ltb_spec (s0 + sz) p).
  - destruct (Z.ltb_spec (sz - cw + wv) s0); lia.
  - destruct (Z.ltb_spec (p + wv) s0); lia.
Qed.

(** C6 (corrected).  For a tiled client, re-applying [applysizehints] to
    the geometry it returned, once that geometry is recorded in the client,
    returns the same geometry and reports no change (the screen origin and
    size, and the client's previously recorded size, being non-negative, as
    they are in this program). *)
Theorem applysizehints_tiled_fixpoint (s : screen_t) (c : client_t) (px py pw ph : Z) :
  c.(isfloating) = false ->
  0 <= s.(sx) -> 0 <= s.(sy) -> 0 <= s.(sw) -> 0 <= s.(sh) ->
  0 <= c.(w) -> 0 <= c.(h) ->
  let g1 := fst (applysizehints s c px py pw ph) in
  applysizehints s (set_geom c g1) g1.(gx) g1.(gy) g1.(gw) g1.(gh) = (g1, false).
Proof.
  intros Hf Hsx Hsy Hsw Hsh Hw Hh. cbv zeta.
  assert (E : exists x1 y1,
             fst (applysizehints s c px py pw ph) = mkgeom x1 y1 (Z.max 1 pw) (Z.max 1 ph)
             /\ (x1 <= sx s + sw s /\ sx s <= x1 + Z.max 1 pw)
             /\ (y1 <= sy s + sh s /\ sy s <= y1 + Z.max 1 ph)).
  { eexists _, _. split; [unfold applysizehints; rewrite Hf; reflexivity|].
    split; apply offscreen_bounds; lia. }
  destruct E as (x1 & y1 & -> & [Bx1 Bx2] & [By1 By2]).
  unfold applysizehints. simpl. rewrite Hf.
  rewrite (Z.max_r 1 (Z.max 1 pw)) by lia. rewrite (Z.max_r 1 (Z.max 1 ph)) by lia.
  rewrite !Z.gtb_ltb.
  destruct (Z.ltb_spec (sx s + sw s) x1); [lia|].
  destruct (Z.ltb_spec (sy s + sh s) y1); [lia|].
  destruct (Z.ltb_spec (x1 + Z.max 1 pw) (sx s)); [lia|].
  destruct (Z.ltb_spec (y1 + Z.max 1 ph) (sy s)); [lia|].
  rewrite !Z.eqb_refl. reflexivity.
Qed.

Lemma applysizehints_tiled_fixpoint_witness :
  let g1 := fst (applysizehints ex_screen ex_client 200 (-300) 50 0) in
  applysizehints ex_screen (set_geom ex_client g1) g1.(gx) g1.(gy) g1.(gw) g1.(gh)
  = (g1, false).
Proof.
  apply applysizehints_tiled_fixpoint; try reflexivity; cbn; lia.
Defined.

(** ** C5: ConfigureRequest for a managed floating client *)

(** C5 (corrected).  For a managed floating client [c]: when the value
    mask names the border width, the geometry fields are ignored and only a
    non-zero border width is reset to 0.  Otherwise the requested
    x (offset by [sx]), y (offset by [sy]), width and height are recorded,
    an axis that overflows the screen is re-centred, a ConfigureWindow with
    the resulting x, y, width and height is sent, and it is preceded by a
    synthetic ConfigureNotify exactly when [synthetic_cond] holds: always
    when x is requested without width or height, never when width or height
    is requested. *)
Theorem configurerequest_floating (s : wm) (e : cfgreq) (p : ptr) (c : client_t) :
  getclient e.(cr_window) s = Some (Some p, s) ->
  s.(heap) !! p = Some c ->
  c.(isfloating) = true ->
  let m := e.(cr_value_mask) in
  let t := s.(scr) in
  let g := floating_request_geom t c e in
  (flag m XCB_CONFIG_WINDOW_BORDER_WIDTH = true ->
   configurerequest e s =
   Some (tt, if Z.eqb e.(cr_border_width) 0 then s
             else set_out (s.(out) ++ [RConfigureWindow c.(win)
                                         XCB_CONFIG_WINDOW_BORDER_WIDTH [Some 0]]) s))
  /\ (flag m XCB_CONFIG_WINDOW_BORDER_WIDTH = false ->
   configurerequest e s =
   Some (tt, set_out (s.(out)
                      ++ (if synthetic_cond m
                          then [RSendConfigureNotify c.(win) g.(gx) g.(gy) g.(gw) g.(gh)]
                          else [])
                      ++ [RConfigureWindow c.(win) XYWH_MASK
                            [Some g.(gx); Some g.(gy); Some g.(gw); Some g.(gh)]])
                (set_heap (<[p := set_geom c g]> s.(heap)) s)))
  /\ (flag m XCB_CONFIG_WINDOW_WIDTH = true -> g.(gw) = e.(cr_width))
  /\ (flag m XCB_CONFIG_WINDOW_HEIGHT = true -> g.(gh) = e.(cr_height))
  /\ (flag m XCB_CONFIG_WINDOW_X = true ->
      g.(gx) = if Z.gtb (e.(cr_x) + g.(gw)) t.(sw)
               then t.(sx) + (Z.quot t.(sw) 2 - Z.quot g.(gw) 2)
               else t.(sx) + e.(cr_x))
  /\ (flag m XCB_CONFIG_WINDOW_Y = true ->
      g.(gy) = if Z.gtb (e.(cr_y) + g.(gh)) t.(sh)
               then t.(sy) + (Z.quot t.(sh) 2 - Z.quot g.(gh) 2)
               else t.(sy) + e.(cr_y))
  /\ (flag m XCB_CONFIG_WINDOW_X = true ->
      flag m (Z.lor XCB_CONFIG_WINDOW_WIDTH XCB_CONFIG_WINDOW_HEIGHT) = false ->
      synthetic_cond m = true)
  /\ (flag m (Z.lor XCB_CONFIG_WINDOW_WIDTH XCB_CONFIG_WINDOW_HEIGHT) = true ->
      synthetic_cond m = false).
Proof.
  intros Hg Hc Hf. cbv zeta.
  assert (Run : forall k : option ptr -> M unit,
             bind (getclient (cr_window e)) k s = k (Some p) s)
    by (intros k; apply bind_run; exact Hg).
  split; [|split; [|split; [|split; [|split; [|split; [|split]]]]]].
  - intros Hb. unfold configurerequest. rewrite Run.
    unfold bind at 1, deref. rewrite Hc. rewrite Hb.
    destruct (Z.eqb (cr_border_width e) 0); simpl; [reflexivity|].
    unfold configure, emit, modify. reflexivity.
  - intros Hb. unfold configurerequest. rewrite Run.
    unfold bind at 1, deref. rewrite Hc. rewrite Hb, Hf.
    unfold bind, gets, store. simpl. rewrite Hc.
    destruct (synthetic_cond (cr_value_mask e));
      unfold configure_event, configure, emit, modify, ret; simpl;
      [rewrite <- app_assoc|]; reflexivity.
  - intros Hw. unfold floating_request_geom. simpl. rewrite Hw. reflexivity.
  - intros Hh. unfold floating_request_geom. simpl. rewrite Hh. reflexivity.
  - intros Hx. unfold floating_request_geom. simpl. rewrite Hx.
    replace (sx (scr s) + cr_x e - sx (scr s)) with (cr_x e) by lia. reflexivity.
  - intros Hy. unfold floating_request_geom. simpl. rewrite Hy.
    replace (sy (scr s) + cr_y e - sy (scr s)) with (cr_y e) by lia. reflexivity.
  - intros Hx Hwh. unfold synthetic_cond. rewrite Hwh.
    rewrite <- Z.land_assoc. exact Hx.
  - intros Hwh. unfold synthetic_cond. rewrite Hwh. rewrite Z.land_0_r. reflexivity.
Qed.

(** The request of [ex_move] applied to the floating client of window 12:
    its x becomes [sx + 7]. *)
Lemma configurerequest_floating_witness :
  getclient 12 ex_s3 = Some (Some 1%positive, ex_s3)
  /\ ex_s3.(heap) !! 1%positive = Some ex_c3
  /\ ex_c3.(isfloating) = true
  /\ (floating_request_geom ex_s3.(scr) ex_c3 ex_move).(gx) = ex_s3.(scr).(sx) + 7.
Proof.
  assert (H1 : getclient 12 ex_s3 = Some (Some 1%positive, ex_s3))
    by (vm_compute; reflexivity).
  assert (H2 : ex_s3.(heap) !! 1%positive = Some ex_c3) by (vm_compute; reflexivity).
  assert (H3 : ex_c3.(isfloating) = true) by (vm_compute; reflexivity).
  split; [exact H1|]. split; [exact H2|]. split; [exact H3|].
  destruct (configurerequest_floating ex_s3 ex_move 1%positive ex_c3 H1 H2 H3)
    as (_ & _ & _ & _ & Hx & _).
  rewrite Hx by (vm_compute; reflexivity).
  vm_compute. reflexivity.
Defined.

(** The C condition uses a bitwise [&] between a mask and the 0/1 value of
    the negation: a request naming y alone yields no synthetic
    ConfigureNotify, while one naming x alone does. *)
Lemma synthetic_cond_y_only :
  synthetic_cond XCB_CONFIG_WINDOW_Y = false /\ synthetic_cond XCB_CONFIG_WINDOW_X = true.
Proof. split; reflexivity. Qed.

Lemma ex_s3_reachable : reachable ex_s3.
Proof.
  apply (reach_step ex_s0); [apply reach_init|].
  apply (step_event (MapRequest 12) 1 false). vm_compute. reflexivity.
Qed.

(** C5 as stated fails: a request that names x together with the border
    width leaves the recorded x of a floating client unchanged. *)
Lemma configurerequest_floating_counterexample :
  ~ (forall s e p c, reachable s ->
       getclient e.(cr_window) s = Some (Some p, s) ->
       s.(heap) !! p = Some c -> c.(isfloating) = true ->
       flag e.(cr_value_mask) XCB_CONFIG_WINDOW_X = true ->
       exists s' c', configurerequest e s = Some (tt, s')
         /\ s'.(heap) !! p = Some c'
         /\ (c'.(x) = s.(scr).(sx) + e.(cr_x)
             \/ c'.(x) = s.(scr).(sx) + (Z.quot s.(scr).(sw) 2 - Z.quot c'.(w) 2))).
Proof.
  intros H.
  destruct (H ex_s3 ex_move_bw 1%positive ex_c3 ex_s3_reachable)
    as (s' & c' & E & Hc & Hx);
    try (vm_compute; reflexivity).
  vm_compute in E. injection E as <-.
  vm_compute in Hc. injection Hc as <-.
  vm_compute in Hx. destruct Hx as [Hx|Hx]; discriminate.
Qed.

(** ** C8: WM_HINTS property changes *)

Lemma ex_s4_reachable : reachable ex_s4.
Proof.
  apply (reach_step (after (handle (MapRequest 13) 1 false) ex_s0)).
  - apply (reach_step ex_s0); [apply reach_init|].
    apply (step_event (MapRequest 13) 1 false). vm_compute. reflexivity.
  - apply (step_event (MapRequest 10) 2 false). vm_compute. reflexivity.
Qed.

(** C8 (code bug).  In [ex_s4] window 13 is managed (block 1) but not
    Selected, and its WM_HINTS carry the urgency bit.  After a PropertyNotify
    for WM_HINTS of window 13, the hints read back successfully and still
    carry the urgency bit, but the client's [isurgent] flag is false: the
    flag is only written when the hints cannot be read. *)
Theorem updatewmhints_urgency_not_recorded (b : bool) :
  reachable ex_s4
  /\ exists s' c,
       handle (PropertyNotify 13 WM_HINTS 0) 3 b ex_s4 = Some (tt, s')
       /\ s'.(sel) <> Some 1%positive
       /\ s'.(heap) !! 1%positive = Some c
       /\ c.(win) = 13
       /\ option_map (fun hs => flag hs.(wmh_flags) XCB_WM_HINT_X_URGENCY)
                     (s'.(srv) 13).(xw_wm_hints) = Some true
       /\ c.(isurgent) = false.
Proof.
  split; [exact ex_s4_reachable|].
  destruct b; vm_compute; do 2 eexists;
    (split; [reflexivity|]); (split; [discriminate|]);
    (split; [reflexivity|]); repeat split.
Qed.

(** ** C2: fixed-size clients and the floating flag *)

Lemma ex_s6_reachable : reachable ex_s6.
Proof.
  apply (reach_step ex_s5).
  - apply (reach_step ex_s3); [exact ex_s3_reachable|]. apply step_server.
  - apply (step_event (PropertyNotify 12 WM_TRANSIENT_FOR 0) 2 false).
    vm_compute. reflexivity.
Qed.

Lemma ex_s8_reachable : reachable ex_s8.
Proof.
  apply (reach_step ex_s7).
  - apply (reach_step ex_s1); [exact ex_s1_reachable|]. apply step_server.
  - apply (step_event (PropertyNotify 10 WM_NORMAL_HINTS 0) 2 false).
    vm_compute. reflexivity.
Qed.

(** C2 (code bug).  Two reachable states hold a managed client (block 1)
    with [isfixed] true and [isfloating] false: in [ex_s6] the fixed-size
    window 12 became transient for an unmanaged window and [check_refloat]
    set [isfloating] to false; in [ex_s8] the tiled window 10 declared a
    fixed size and [updatesizehints] set [isfixed] without refloating it. *)
Theorem fixed_client_not_floating :
  ~ (forall s, reachable s -> forall p c, p ∈ s.(clients) ->
       s.(heap) !! p = Some c -> c.(isfixed) = true -> c.(isfloating) = true)
  /\ (exists c, ex_s6.(heap) !! 1%positive = Some c /\ 1%positive ∈ ex_s6.(clients)
        /\ c.(win) = 12 /\ c.(isfixed) = true /\ c.(isfloating) = false)
  /\ (exists c, ex_s8.(heap) !! 1%positive = Some c /\ 1%positive ∈ ex_s8.(clients)
        /\ c.(win) = 10 /\ c.(isfixed) = true /\ c.(isfloating) = false).
Proof.
  assert (E6 : exists c, ex_s6.(heap) !! 1%positive = Some c
                 /\ 1%positive ∈ ex_s6.(clients)
                 /\ c.(win) = 12 /\ c.(isfixed) = true /\ c.(isfloating) = false).
  { vm_compute. eexists. split; [reflexivity|].
    split; [apply list_elem_of_here|]. repeat split. }
  assert (E8 : exists c, ex_s8.(heap) !! 1%positive = Some c
                 /\ 1%positive ∈ ex_s8.(clients)
                 /\ c.(win) = 10 /\ c.(isfixed) = true /\ c.(isfloating) = false).
  { vm_compute. eexists. split; [reflexivity|].
    split; [apply list_elem_of_here|]. repeat split. }
  split; [|split; assumption].
  intros H. destruct E6 as (c & Hc & Hm & _ & Hfx & Hfl).
  rewrite (H ex_s6 ex_s6_reachable 1%positive c Hm Hc Hfx) in Hfl. discriminate.
Qed.

(** ** C1: the two lists hold the same clients *)

Lemma hoare_bind {A B} (P Q R : wm -> Prop) (m : M A) (k : A -> M B) :
  hoare P m Q -> (forall a, hoare Q (k a) R) -> hoare P (bind m k) R.
Proof.
  intros Hm Hk s b s' HP H. apply bind_some in H as (a & s1 & H1 & H2).
  eapply Hk; [eapply Hm|]; eauto.
Qed.

Lemma hoare_kept {A} (Rel : wm -> wm -> Prop) (P : wm -> Prop) (m : M A) :
  kept Rel m -> (forall s s', Rel s s' -> P s -> P s') -> hoare P m P.
Proof. intros Hm HP s a s' Hs H. eapply HP; [eapply Hm; eauto | exact Hs]. Qed.

Lemma hoare_ret {A} (P Q : wm -> Prop) (a : A) :
  (forall s, P s -> Q s) -> hoare P (ret a) Q.
Proof. intros HPQ s b s' Hs H. injection H as <- <-. auto. Qed.

Lemma hoare_weaken {A} (P P' Q : wm -> Prop) (m : M A) :
  (forall s, P s -> P' s) -> hoare P' m Q -> hoare P m Q.
Proof. intros HP Hm s a s' Hs H. eapply Hm; eauto. Qed.

Lemma reg_inv_wframe s s' : wframe s s' -> reg_inv s -> reg_inv s'.
Proof.
  intros (Hc & Hm & Hn & Hd) [N1 N2 S A]. constructor.
  - rewrite Hc. exact N1.
  - auto.
  - intros q. rewrite Hc, Hm. apply S.
  - intros q Hq. rewrite Hd. apply A. rewrite <- Hc. exact Hq.
Qed.

Lemma reg_without_wframe p s s' : wframe s s' -> reg_without p s -> reg_without p s'.
Proof.
  intros W [I Hp]. split; [eapply reg_inv_wframe; eauto|].
  destruct W as (Hc & _). rewrite Hc. exact Hp.
Qed.

Lemma reg_fresh_frame p s s' : frame s s' -> reg_fresh p s -> reg_fresh p s'.
Proof.
  intros F (I & Hp & Hd). pose proof (frame_wframe _ _ F) as W.
  destruct F as (Hc & _ & _ & Hd'). split; [eapply reg_inv_wframe; eauto|].
  rewrite Hc, Hd'. auto.
Qed.

(** The steps of the handlers that leave the lists alone. *)
Lemma kept_set_layout v : kept frame (modify (set_layout v)).
Proof. intros s a s' H. injection H as <- <-. unfold frame; simpl; auto. Qed.

Lemma kept_set_scr v : kept frame (modify (set_scr v)).
Proof. intros s a s' H. injection H as <- <-. unfold frame; simpl; auto. Qed.

#[global] Hint Resolve kept_set_layout kept_set_scr kept_focus kept_arrange : kept_db.
#[global] Hint Resolve frame_wframe : kept_db.

Lemma kept_wframe_of_frame {A} (m : M A) : kept frame m -> kept wframe m.
Proof. apply kept_mono. apply frame_wframe. Qed.
#[global] Hint Resolve kept_wframe_of_frame : kept_db.

Lemma kept_check_refloat p : kept wframe (check_refloat p).
Proof. unfold check_refloat. kept_tac. Qed.

Lemma kept_configurerequest e : kept frame (configurerequest e).
Proof. unfold configurerequest. kept_tac. Qed.

Lemma kept_configurenotify wn wd ht : kept wframe (configurenotify wn wd ht).
Proof. unfold configurenotify. kept_tac. Qed.

Lemma kept_enternotify md dt ev : kept wframe (enternotify md dt ev).
Proof. unfold enternotify. kept_tac. Qed.

Lemma kept_focusin ev : kept frame (focusin ev).
Proof. unfold focusin. kept_tac. Qed.

Create HintDb reg_db.

(** Decompose a computation that keeps a predicate stable under [frame]
    or [wframe]. *)
Ltac hoare_tac Stab :=
  repeat match goal with
  | |- hoare ?Q _ ?Q => solve [eauto with reg_db]
  | |- hoare ?Q (bind _ _) ?Q => apply (hoare_bind Q Q); [|intro]
  | |- hoare ?Q (match ?e with _ => _ end) ?Q => destruct e
  | |- hoare ?Q _ ?Q =>
      solve [refine (hoare_kept _ Q _ _ Stab); eauto with kept_db]
  end.

Lemma unmanage_reg p : hoare reg_inv (unmanage p) reg_inv.
Proof.
  unfold unmanage.
  assert (SI : forall s s', wframe s s' -> reg_inv s -> reg_inv s')
    by exact reg_inv_wframe.
  assert (SF : forall s s', frame s s' -> reg_inv s -> reg_inv s')
    by (intros; eapply reg_inv_wframe; [apply frame_wframe|]; eauto).
  apply (hoare_bind _ reg_inv); [hoare_tac SF|intros _].
  apply (hoare_bind _ reg_inv); [hoare_tac SF|intros c].
  apply (hoare_bind _ reg_inv); [hoare_tac SF|intros _].
  (* detach: [p] leaves [clients] *)
  apply (hoare_bind _ (fun s => reg_half p (p :: s.(clients)) s.(stack) s)); [|intros _].
  { intros s a s' [N1 N2 S A] H. unfold detach in H.
    destruct (unlink p (clients s)) as [l|] eqn:Eu; [|discriminate].
    injection H as <- <-. apply unlink_perm in Eu. simpl.
    split; [|split; [|split]].
    - rewrite <- Eu. exact N1.
    - exact N2.
    - intros q. rewrite <- Eu. apply S.
    - intros q Hq. apply A. rewrite Eu. exact Hq. }
  (* detachstack: [p] leaves [stack] *)
  apply (hoare_bind _ (reg_without p)); [|intros _].
  { intros s a s' (N1 & N2 & S & A) H. unfold detachstack in H.
    destruct (unlink p (stack s)) as [l|] eqn:Eu; [|discriminate].
    injection H as <- <-. apply unlink_perm in Eu. simpl.
    apply NoDup_cons in N1 as [Hp N1].
    rewrite Eu in N2. apply NoDup_cons in N2 as [Hp2 N2].
    split; [constructor; simpl|exact Hp]; auto.
    - intros q. split; intros Hq.
      + assert (Hs : q ∈ p :: l) by (rewrite <- Eu; apply S, elem_of_cons; auto).
        apply elem_of_cons in Hs as [->|Hs]; [contradiction|exact Hs].
      + assert (Hs : q ∈ p :: clients s) by (apply S; rewrite Eu; apply elem_of_cons; auto).
        apply elem_of_cons in Hs as [->|Hs]; [contradiction|exact Hs].
    - intros q Hq. apply A. apply elem_of_cons. auto. }
  assert (SW : forall s s', wframe s s' -> reg_without p s -> reg_without p s')
    by exact (reg_without_wframe p).
  apply (hoare_bind _ (reg_without p)); [hoare_tac SW|intros o].
  apply (hoare_bind _ (reg_without p)); [hoare_tac SW|intros _].
  apply (hoare_bind _ (reg_without p)); [hoare_tac SW|intros _].
  (* free: [p] is on neither list *)
  apply (hoare_bind _ reg_inv); [|intros _].
  { intros s a s' [[N1 N2 S A] Hp] H. unfold free, modify in H.
    injection H as <- <-. constructor; simpl; auto.
    intros q Hq. rewrite dom_delete_L. apply elem_of_difference. split; [auto|].
    rewrite elem_of_singleton. intros ->. contradiction. }
  apply (hoare_bind _ reg_inv); [hoare_tac SF|intros _].
  hoare_tac SI.
Qed.

Lemma manage_reg p wn : hoare reg_inv (manage p wn) reg_inv.
Proof.
  unfold manage.
  assert (SI : forall s s', wframe s s' -> reg_inv s -> reg_inv s')
    by exact reg_inv_wframe.
  assert (SF : forall s s', frame s s' -> reg_inv s -> reg_inv s')
    by (intros; eapply reg_inv_wframe; [apply frame_wframe|]; eauto).
  assert (SP : forall s s', frame s s' -> reg_fresh p s -> reg_fresh p s')
    by exact (reg_fresh_frame p).
  (* alloc: [p] was not allocated, hence on no list *)
  apply (hoare_bind _ (reg_fresh p)); [|intros _].
  { intros s a s' [N1 N2 S A] H. unfold alloc in H.
    destruct (heap s !! p) eqn:Ep; [discriminate|]. injection H as <- <-.
    split; [constructor; simpl; auto|split; simpl].
    - intros q Hq. rewrite dom_insert_L. apply elem_of_union. right. auto.
    - intros Hp. apply A in Hp. apply elem_of_dom in Hp as [c Hc]. congruence.
    - rewrite dom_insert_L. apply elem_of_union. left. apply elem_of_singleton. auto. }
  apply (hoare_bind _ (reg_fresh p)); [hoare_tac SP|intros f].
  destruct ((f wn).(xw_geometry)) as [g|].
  2:{ apply hoare_ret. intros s [I _]. exact I. }
  cbv zeta.
  repeat (apply (hoare_bind _ (reg_fresh p)); [solve [hoare_tac SP]|intro]).
  (* attach: [p] joins [clients] *)
  apply (hoare_bind _ (fun s => reg_half p s.(clients) (p :: s.(stack)) s)); [|intros _].
  { intros s0 u0 s1 ([N1 N2 S A] & Hp & Hd) H. unfold attach, modify in H.
    injection H as <- <-. simpl. split; [|split; [|split]].
    - apply NoDup_cons. auto.
    - apply NoDup_cons. split; auto. rewrite <- S. exact Hp.
    - intros q. rewrite !elem_of_cons, S. tauto.
    - intros q Hq. apply elem_of_cons in Hq as [->|Hq]; auto. }
  (* attachstack: [p] joins [stack] *)
  apply (hoare_bind _ reg_inv); [|intros _].
  { intros s0 u0 s1 (N1 & N2 & S & A) H. unfold attachstack, modify in H.
    injection H as <- <-. constructor; simpl; auto. }
  apply (hoare_bind _ reg_inv); [hoare_tac SF|intros _].
  apply (hoare_bind _ reg_inv); [hoare_tac SF|intros _].
  apply (hoare_bind _ reg_inv); [hoare_tac SF|intros _].
  hoare_tac SI.
Qed.

#[global] Hint Resolve kept_check_refloat kept_configurerequest
  kept_configurenotify kept_enternotify kept_focusin : kept_db.
#[global] Hint Resolve unmanage_reg manage_reg : reg_db.

Lemma handle_reg ev p b : hoare reg_inv (handle ev p b) reg_inv.
Proof.
  assert (SI : forall s s', wframe s s' -> reg_inv s -> reg_inv s')
    by exact reg_inv_wframe.
  destruct ev; simpl;
    unfold destroynotify, unmapnotify, maprequest, propertynotify; hoare_tac SI.
Qed.

Lemma cleanup_step_reg : hoare reg_inv cleanup_step reg_inv.
Proof.
  assert (SI : forall s s', wframe s s' -> reg_inv s -> reg_inv s')
    by exact reg_inv_wframe.
  unfold cleanup_step. hoare_tac SI.
Qed.

Lemma step_reg s s' : step s s' -> reg_inv s -> reg_inv s'.
Proof.
  intros St I. destruct St as [ev p b s s' H|p wn s s' H|s s' H|f s].
  - eapply handle_reg; eauto.
  - eapply manage_reg; eauto.
  - eapply cleanup_step_reg; eauto.
  - destruct I as [N1 N2 S A]. constructor; simpl; auto.
Qed.

Lemma reachable_reg s : reachable s -> reg_inv s.
Proof.
  induction 1 as [r width height f|s s' _ IH St].
  - constructor; simpl.
    + constructor.
    + constructor.
    + reflexivity.
    + intros q Hq. apply not_elem_of_nil in Hq. contradiction.
  - eapply step_reg; eauto.
Qed.

(** C1 (confirmed).  In every reachable state the z-order list [clients]
    and the focus-history [stack] have the same members; moreover each of
    them holds every client at most once. *)
Theorem clients_stack_same_members (s : wm) :
  reachable s ->
  (forall q, q ∈ s.(clients) <-> q ∈ s.(stack))
  /\ NoDup s.(clients) /\ NoDup s.(stack).
Proof.
  intros R. destruct (reachable_reg s R) as [N1 N2 S A]. auto.
Qed.

(** Two windows mapped one after the other. *)
Lemma clients_stack_same_members_witness :
  reachable ex_s2
  /\ ((forall q, q ∈ ex_s2.(clients) <-> q ∈ ex_s2.(stack))
      /\ NoDup ex_s2.(clients) /\ NoDup ex_s2.(stack)).
Proof.
  assert (R : reachable ex_s2).
  { apply (reach_step ex_s1).
    - apply (reach_step ex_s0); [apply reach_init|].
      apply (step_event (MapRequest 10) 1 false). vm_compute. reflexivity.
    - apply (step_event (MapRequest 11) 2 false). vm_compute. reflexivity. }
  split; [exact R|]. exact (clients_stack_same_members ex_s2 R).
Defined.

(** * Further properties of the code *)

(** ** Runs without undefined behaviour *)

Lemma runs_bind_h {A B} (P Q : wm -> Prop) (m : M A) (k : A -> M B) :
  runs P m -> hoare P m Q -> (forall a, runs Q (k a)) -> runs P (bind m k).
Proof.
  intros Hm Hh Hk s Hs. destruct (Hm s Hs) as (a & s1 & E).
  destruct (Hk a s1 (Hh s a s1 Hs E)) as (b & s2 & E2).
  exists b, s2. unfold bind. rewrite E. exact E2.
Qed.

(** As [runs_bind_h], when the continuation needs the value computed. *)
Lemma runs_bind_v {A B} (P : wm -> Prop) (Q : A -> wm -> Prop) (m : M A) (k : A -> M B) :
  runs P m -> (forall s a s', P s -> m s = Some (a, s') -> Q a s') ->
  (forall a, runs (Q a) (k a)) -> runs P (bind m k).
Proof.
  intros Hm Hh Hk s Hs. destruct (Hm s Hs) as (a & s1 & E).
  destruct (Hk a s1 (Hh s a s1 Hs E)) as (b & s2 & E2).
  exists b, s2. unfold bind. rewrite E. exact E2.
Qed.

Lemma runs_weaken {A} (P P' : wm -> Prop) (m : M A) :
  (forall s, P s -> P' s) -> runs P' m -> runs P m.
Proof. intros HP Hm s Hs. apply Hm, HP, Hs. Qed.

Lemma runs_ret {A} P (a : A) : runs P (ret a).
Proof. intros s _. eexists _, _. reflexivity. Qed.

Lemma runs_gets {A} P (f : wm -> A) : runs P (gets f).
Proof. intros s _. eexists _, _. reflexivity. Qed.

Lemma runs_modify P f : runs P (modify f).
Proof. intros s _. eexists _, _. reflexivity. Qed.

Lemma runs_emit P r : runs P (emit r).
Proof. intros s _. eexists _, _. reflexivity. Qed.

Lemma runs_configure P wn m prm : runs P (configure wn m prm).
Proof. apply runs_emit. Qed.

Lemma runs_configure_event P c : runs P (configure_event c).
Proof. apply runs_emit. Qed.

Lemma runs_set_focus P wn : runs P (set_focus wn).
Proof. apply runs_emit. Qed.

Lemma runs_setclientstate P c st : runs P (setclientstate c st).
Proof. apply runs_emit. Qed.

Lemma runs_xcb_set_wm_hints P wn hs : runs P (xcb_set_wm_hints wn hs).
Proof. intros s _. eexists _, _. reflexivity. Qed.

Lemma runs_deref (P : wm -> Prop) p :
  (forall s, P s -> p ∈ dom (heap s)) -> runs P (deref p).
Proof.
  intros Hp s Hs. apply Hp, elem_of_dom in Hs as [c Hc].
  exists c, s. unfold deref. rewrite Hc. reflexivity.
Qed.

Lemma runs_store (P : wm -> Prop) p c :
  (forall s, P s -> p ∈ dom (heap s)) -> runs P (store p c).
Proof.
  intros Hp s Hs. apply Hp, elem_of_dom in Hs as [c0 Hc].
  eexists _, _. unfold store. rewrite Hc. reflexivity.
Qed.

Lemma runs_free P p : runs P (free p).
Proof. apply runs_modify. Qed.

Create HintDb runs_db.
#[global] Hint Resolve runs_ret runs_gets runs_modify runs_emit runs_configure
  runs_configure_event runs_set_focus runs_setclientstate runs_xcb_set_wm_hints
  runs_free : runs_db.

(** All blocks of [l] are allocated. *)
Definition allocd (l : list ptr) (s : wm) : Prop := forall q, q ∈ l -> q ∈ dom (heap s).

Lemma allocd_frame l s s' : frame s s' -> allocd l s -> allocd l s'.
Proof. intros (_ & _ & _ & Hd) H q Hq. rewrite Hd. auto. Qed.

Lemma allocd_wframe l s s' : wframe s s' -> allocd l s -> allocd l s'.
Proof. intros (_ & _ & _ & Hd) H q Hq. rewrite Hd. auto. Qed.

Lemma reg_allocd_stack s : reg_inv s -> allocd s.(stack) s.
Proof. intros [_ _ S A] q Hq. apply A, S, Hq. Qed.

Lemma reg_allocd_clients s : reg_inv s -> allocd s.(clients) s.
Proof. intros [_ _ S A] q Hq. apply A, Hq. Qed.

(** A chain step whose predicate is kept by [frame]. *)
Ltac runs_frame_step Q :=
  apply (runs_bind_h _ Q);
  [ try solve [eauto with runs_db]
  | try solve [refine (hoare_kept frame _ _ _ _); [solve [kept_tac] |
                 intros ? ? ?F ?H; solve [eauto using allocd_frame]]]
  | intros ? ].

Lemma runs_resize p nx ny nw nh : runs (allocd [p]) (resize p nx ny nw nh).
Proof.
  intros s Hs. assert (Hp : p ∈ dom (heap s)) by (apply Hs, list_elem_of_here).
  apply elem_of_dom in Hp as [c Hc].
  unfold resize, bind at 1, deref. rewrite Hc. unfold bind at 1, gets.
  destruct (applysizehints (scr s) c nx ny nw nh) as [g changed].
  destruct changed; [|eexists _, _; reflexivity].
  unfold bind at 1, store. rewrite Hc. eexists _, _. reflexivity.
Qed.

(** [showhide], [monocle] and the restack chain walk allocated clients. *)
Lemma runs_showhide l : runs (allocd l) (showhide l).
Proof.
  induction l as [|p l IH]; simpl; [apply runs_ret|].
  assert (Hsub : forall s, allocd (p :: l) s -> allocd l s)
    by (intros s H q Hq; apply H, list_elem_of_further, Hq).
  assert (Hp : forall s, allocd (p :: l) s -> p ∈ dom (heap s))
    by (intros s H; apply H, list_elem_of_here).
  apply (runs_bind_v _ (fun c s => allocd (p :: l) s)).
  { apply runs_deref. exact Hp. }
  { intros s a s' Hs E. unfold deref in E. destruct (heap s !! p); [|discriminate].
    injection E as _ <-. exact Hs. }
  intros c. runs_frame_step (allocd (p :: l)).
  runs_frame_step (allocd (p :: l)).
  - destruct (isfloating c); [|apply runs_ret].
    eapply runs_weaken; [|apply runs_resize].
    intros s H q Hq. apply list_elem_of_singleton in Hq as ->. auto.
  - eapply runs_weaken; [exact Hsub|exact IH].
Qed.

Lemma runs_monocle_loop l : runs (allocd l) (monocle_loop l).
Proof.
  induction l as [|p l IH]; simpl; [apply runs_ret|].
  assert (Hsub : forall s, allocd (p :: l) s -> allocd l s)
    by (intros s H q Hq; apply H, list_elem_of_further, Hq).
  assert (Hp : forall s, allocd (p :: l) s -> p ∈ dom (heap s))
    by (intros s H; apply H, list_elem_of_here).
  apply (runs_bind_v _ (fun c s => allocd (p :: l) s)).
  { apply runs_deref. exact Hp. }
  { intros s a s' Hs E. unfold deref in E. destruct (heap s !! p); [|discriminate].
    injection E as _ <-. exact Hs. }
  intros c. runs_frame_step (allocd (p :: l)).
  - destruct (isfloating c); [apply runs_ret|].
    runs_frame_step (allocd (p :: l)).
    eapply runs_weaken; [|apply runs_resize].
    intros s H q Hq. apply list_elem_of_singleton in Hq as ->. auto.
  - eapply runs_weaken; [exact Hsub|exact IH].
Qed.

Lemma runs_restack_loop l sib : runs (allocd l) (restack_loop l sib).
Proof.
  revert sib. induction l as [|p l IH]; intros sib; simpl; [apply runs_ret|].
  assert (Hsub : forall s, allocd (p :: l) s -> allocd l s)
    by (intros s H q Hq; apply H, list_elem_of_further, Hq).
  assert (Hp : forall s, allocd (p :: l) s -> p ∈ dom (heap s))
    by (intros s H; apply H, list_elem_of_here).
  apply (runs_bind_v _ (fun c s => allocd (p :: l) s)).
  { apply runs_deref. exact Hp. }
  { intros s a s' Hs E. unfold deref in E. destruct (heap s !! p); [|discriminate].
    injection E as _ <-. exact Hs. }
  intros c. destruct (isfloating c).
  - eapply runs_weaken; [exact Hsub|apply IH].
  - runs_frame_step (allocd (p :: l)).
    eapply runs_weaken; [exact Hsub|apply IH].
Qed.

Lemma runs_run_layout : runs (fun s => allocd s.(clients) s) run_layout.
Proof.
  unfold run_layout.
  apply (runs_bind_v _ (fun _ s => allocd s.(clients) s)); [apply runs_gets| |].
  { intros s a s' Hs E. injection E as _ <-. exact Hs. }
  intros [|]; [|apply runs_ret].
  apply (runs_bind_v _ (fun l s => allocd l s)); [apply runs_gets| |].
  { intros s a s' Hs E. injection E as <- <-. exact Hs. }
  intros l. apply runs_monocle_loop.
Qed.

Lemma runs_clearurgent p : runs (allocd [p]) (clearurgent p).
Proof.
  assert (Hp : forall s, allocd [p] s -> p ∈ dom (heap s))
    by (intros s H; apply H, list_elem_of_here).
  unfold clearurgent.
  apply (runs_bind_v _ (fun c s => allocd [p] s)); [apply runs_deref, Hp| |].
  { intros s a s' Hs E. unfold deref in E. destruct (heap s !! p); [|discriminate].
    injection E as _ <-. exact Hs. }
  intros c. runs_frame_step (allocd [p]); [apply runs_store, Hp|].
  runs_frame_step (allocd [p]). destruct ((a0 (win c)).(xw_wm_hints));
    eauto with runs_db.
Qed.

(** [focus] needs the client it focuses (the given one or the head of
    [stack]) to be allocated and on [stack]. *)
Lemma runs_focus oc :
  runs (fun s => allocd s.(stack) s
                 /\ match oc with Some p => p ∈ s.(stack) | None => True end)
       (focus oc).
Proof.
  intros s [Ha Ho]. unfold focus, bind at 1, gets.
  destruct (match oc with Some p => Some p | None => head (stack s) end)
    as [p|] eqn:Eoc.
  - assert (Hin : p ∈ stack s).
    { destruct oc as [q|]; [injection Eoc as ->; exact Ho|].
      destruct (stack s) as [|q t]; simpl in Eoc; [discriminate|].
      injection Eoc as ->. apply list_elem_of_here. }
    pose proof (Ha p Hin) as Hd. apply elem_of_dom in Hd as [c Hc].
    assert (E1 : exists s1, (if isurgent c then clearurgent p else ret tt) s
                            = Some (tt, s1) /\ frame s s1).
    { destruct (isurgent c).
      - destruct (runs_clearurgent p s) as ([] & s1 & E).
        { intros q Hq. apply list_elem_of_singleton in Hq as ->. apply Ha, Hin. }
        exists s1. split; [exact E|]. eapply kept_clearurgent; eauto.
      - exists s. split; reflexivity. }
    destruct E1 as (s1 & E1 & (_ & Fs & _)).
    destruct (unlink_elem p (stack s) Hin) as [l Hl].
    assert (Inner : exists s5,
      (c0 <- deref p;;
       (if isurgent c0 then clearurgent p else ret tt);;
       detachstack p;; attachstack p;; set_focus (win c0)) s = Some (tt, s5)).
    { rewrite (bind_run (deref p) _ s c s) by (unfold deref; rewrite Hc; reflexivity).
      rewrite (bind_run _ _ s tt s1 E1).
      rewrite (bind_run (detachstack p) _ s1 tt (set_stack l s1))
        by (unfold detachstack; rewrite Fs, Hl; reflexivity).
      eexists. reflexivity. }
    destruct Inner as (s5 & E5). rewrite (bind_run _ _ s tt s5 E5).
    eexists _, _. reflexivity.
  - eexists _, _. reflexivity.
Qed.

Lemma runs_restack :
  runs (fun s => allocd s.(stack) s /\ forall p, s.(sel) = Some p -> p ∈ dom (heap s))
       restack.
Proof.
  unfold restack.
  apply (runs_bind_v _ (fun o s => allocd s.(stack) s
                                   /\ forall p, o = Some p -> p ∈ dom (heap s)));
    [apply runs_gets| |].
  { intros s a s' Hs E. injection E as <- <-. exact Hs. }
  intros [p|]; [|apply runs_ret].
  assert (Hp : forall s, (allocd s.(stack) s /\ forall q, Some p = Some q -> q ∈ dom (heap s))
                         -> p ∈ dom (heap s)) by (intros s [_ H]; auto).
  apply (runs_bind_v _ (fun c s => allocd s.(stack) s)); [apply runs_deref, Hp| |].
  { intros s a s' Hs E. unfold deref in E. destruct (heap s !! p); [|discriminate].
    injection E as _ <-. apply Hs. }
  intros c.
  apply (runs_bind_h _ (fun s => allocd s.(stack) s)).
  { destruct (isfloating c); eauto with runs_db. }
  { refine (hoare_kept frame _ _ _ _); [kept_tac|].
    intros s s' F H. destruct F as (Fc & Fs & Fl & Fd). intros q Hq.
    rewrite Fd. rewrite Fs in Hq. auto. }
  intros _.
  apply (runs_bind_v _ (fun l s => allocd l s)); [apply runs_gets| |].
  { intros s a s' Hs E. injection E as <- <-. exact Hs. }
  intros l. apply runs_restack_loop.
Qed.

Lemma runs_arrange : runs reg_inv arrange.
Proof.
  intros s I. unfold arrange, bind at 1, gets.
  destruct (runs_showhide (stack s) s (reg_allocd_stack s I)) as ([] & s1 & E1).
  pose proof (kept_showhide _ _ _ _ E1) as F1.
  assert (I1 : reg_inv s1) by (eapply reg_inv_wframe; [apply frame_wframe, F1|exact I]).
  unfold bind at 1. rewrite E1.
  destruct (runs_focus None s1) as ([] & s2 & E2).
  { split; [apply reg_allocd_stack, I1|exact Logic.I]. }
  destruct (focus_spec None s1 tt s2 E2) as (W2 & Sel2 & St2).
  specialize (St2 eq_refl).
  assert (I2 : reg_inv s2) by (eapply reg_inv_wframe; eauto).
  unfold bind at 1. rewrite E2.
  destruct (runs_run_layout s2 (reg_allocd_clients s2 I2)) as ([] & s3 & E3).
  pose proof (kept_run_layout _ _ _ E3) as F3.
  assert (I3 : reg_inv s3) by (eapply reg_inv_wframe; [apply frame_wframe, F3|exact I2]).
  unfold bind at 1. rewrite E3.
  apply runs_restack. split; [apply reg_allocd_stack, I3|].
  intros p Hp. destruct F3 as (_ & Fs & Fl & _). simpl in Sel2.
  rewrite Fl, Sel2 in Hp.
  apply (reg_allocd_stack s3 I3). rewrite Fs, St2.
  (* the head of [stack] is on [stack] *)
  destruct (stack s1) as [|q t]; [discriminate|]. injection Hp as ->.
  apply list_elem_of_here.
Qed.

Lemma runs_getclient_loop l wn : runs (allocd l) (getclient_loop l wn).
Proof.
  induction l as [|p l IH]; simpl; [apply runs_ret|].
  apply (runs_bind_v _ (fun c s => allocd (p :: l) s)).
  { apply runs_deref. intros s H. apply H, list_elem_of_here. }
  { intros s a s' Hs E. unfold deref in E. destruct (heap s !! p); [|discriminate].
    injection E as _ <-. exact Hs. }
  intros c. destruct (Z.eqb (win c) wn); [apply runs_ret|].
  eapply runs_weaken; [|exact IH]. intros s H q Hq. apply H, list_elem_of_further, Hq.
Qed.

Lemma runs_getclient wn : runs (fun s => allocd s.(clients) s) (getclient wn).
Proof.
  unfold getclient.
  apply (runs_bind_v _ (fun l s => allocd l s)); [apply runs_gets| |].
  { intros s a s' Hs E. injection E as <- <-. exact Hs. }
  intros l. apply runs_getclient_loop.
Qed.

Lemma runs_updatesizehints (P : wm -> Prop) p :
  (forall s, P s -> p ∈ dom (heap s)) -> runs P (updatesizehints p).
Proof.
  intros Hp. unfold updatesizehints.
  apply (runs_bind_v _ (fun _ s => P s)); [apply runs_deref, Hp| |].
  { intros s a s' Hs E. unfold deref in E. destruct (heap s !! p); [|discriminate].
    injection E as _ <-. exact Hs. }
  intros c. apply (runs_bind_v _ (fun _ s => P s)); [apply runs_gets| |].
  { intros s a s' Hs E. injection E as _ <-. exact Hs. }
  intros f. apply runs_store, Hp.
Qed.

(** The list operations of [unmanage] and [manage], one at a time. *)
Lemma detach_half p :
  hoare reg_inv (detach p) (fun s => reg_half p (p :: s.(clients)) s.(stack) s).
Proof.
  intros s a s' [N1 N2 S A] H. unfold detach in H.
  destruct (unlink p (clients s)) as [l|] eqn:Eu; [|discriminate].
  injection H as <- <-. apply unlink_perm in Eu. simpl.
  split; [|split; [|split]].
  - rewrite <- Eu. exact N1.
  - exact N2.
  - intros q. rewrite <- Eu. apply S.
  - intros q Hq. apply A. rewrite Eu. exact Hq.
Qed.

Lemma detachstack_without p :
  hoare (fun s => reg_half p (p :: s.(clients)) s.(stack) s) (detachstack p) (reg_without p).
Proof.
  intros s a s' (N1 & N2 & S & A) H. unfold detachstack in H.
  destruct (unlink p (stack s)) as [l|] eqn:Eu; [|discriminate].
  injection H as <- <-. apply unlink_perm in Eu. simpl.
  apply NoDup_cons in N1 as [Hp N1].
  rewrite Eu in N2. apply NoDup_cons in N2 as [Hp2 N2].
  split; [constructor; simpl|exact Hp]; auto.
  - intros q. split; intros Hq.
    + assert (Hs : q ∈ p :: l) by (rewrite <- Eu; apply S, elem_of_cons; auto).
      apply elem_of_cons in Hs as [->|Hs]; [contradiction|exact Hs].
    + assert (Hs : q ∈ p :: clients s) by (apply S; rewrite Eu; apply elem_of_cons; auto).
      apply elem_of_cons in Hs as [->|Hs]; [contradiction|exact Hs].
  - intros q Hq. apply A. apply elem_of_cons. auto.
Qed.

Lemma free_reg p : hoare (reg_without p) (free p) reg_inv.
Proof.
  intros s a s' [[N1 N2 S A] Hp] H. unfold free, modify in H.
  injection H as <- <-. constructor; simpl; auto.
  intros q Hq. rewrite dom_delete_L. apply elem_of_difference. split; [auto|].
  rewrite elem_of_singleton. intros ->. contradiction.
Qed.

Lemma alloc_fresh p c : hoare reg_inv (alloc p c) (reg_fresh p).
Proof.
  intros s a s' [N1 N2 S A] H. unfold alloc in H.
  destruct (heap s !! p) eqn:Ep; [discriminate|]. injection H as <- <-.
  split; [constructor; simpl; auto|split; simpl].
  - intros q Hq. rewrite dom_insert_L. apply elem_of_union. right. auto.
  - intros Hp. apply A in Hp. apply elem_of_dom in Hp as [c0 Hc]. congruence.
  - rewrite dom_insert_L. apply elem_of_union. left. apply elem_of_singleton. auto.
Qed.

Lemma attach_half p :
  hoare (reg_fresh p) (attach p) (fun s => reg_half p s.(clients) (p :: s.(stack)) s).
Proof.
  intros s0 u0 s1 ([N1 N2 S A] & Hp & Hd) H. unfold attach, modify in H.
  injection H as <- <-. simpl. split; [|split; [|split]].
  - apply NoDup_cons. auto.
  - apply NoDup_cons. split; auto. rewrite <- S. exact Hp.
  - intros q. rewrite !elem_of_cons, S. tauto.
  - intros q Hq. apply elem_of_cons in Hq as [->|Hq]; auto.
Qed.

Lemma attachstack_reg p :
  hoare (fun s => reg_half p s.(clients) (p :: s.(stack)) s) (attachstack p) reg_inv.
Proof.
  intros s0 u0 s1 (N1 & N2 & S & A) H. unfold attachstack, modify in H.
  injection H as <- <-. constructor; simpl; auto.
Qed.

(** A chain of steps that keep [Q] ([Stab]: [Q] is kept by [frame]) and
    only dereference allocated blocks ([Hp]). *)
Ltac runs_tac Q Stab Hp HQ :=
  repeat match goal with
  | |- runs Q (getclient _) =>
      eapply runs_weaken; [|apply runs_getclient];
      intros ? ?HH; apply reg_allocd_clients, HQ, HH
  | |- runs Q arrange => eapply runs_weaken; [|apply runs_arrange]; exact HQ
  | |- runs Q (bind _ _) =>
      apply (runs_bind_h Q Q);
      [ | solve [refine (hoare_kept frame Q _ _ Stab); kept_tac] | intros ? ]
  | |- runs Q (match ?e with _ => _ end) => destruct e
  | |- runs Q (deref _) => apply runs_deref; exact Hp
  | |- runs Q (store _ _) => apply runs_store; exact Hp
  | |- runs Q (updatesizehints _) => apply runs_updatesizehints; exact Hp
  | |- runs Q _ => solve [eauto with runs_db]
  end.

Lemma runs_unmanage p : runs (fun s => reg_inv s /\ p ∈ s.(clients)) (unmanage p).
Proof.
  set (Q := fun s => reg_inv s /\ p ∈ s.(clients)).
  assert (Stab : forall s s', frame s s' -> Q s -> Q s').
  { intros s s' F [I Hp]. split; [eapply reg_inv_wframe; [apply frame_wframe, F|exact I]|].
    destruct F as (Fc & _). rewrite Fc. exact Hp. }
  assert (Hp : forall s, Q s -> p ∈ dom (heap s)) by (intros s [I H]; apply (inv_alloc s I), H).
  assert (HQ : forall s, Q s -> reg_inv s) by (intros s [I _]; exact I).
  unfold unmanage.
  do 3 (apply (runs_bind_h Q Q);
        [runs_tac Q Stab Hp HQ | refine (hoare_kept frame Q _ _ Stab); kept_tac | intros ?]).
  apply (runs_bind_h _ (fun s => reg_half p (p :: s.(clients)) s.(stack) s)).
  { intros s [I Hc]. destruct (unlink_elem p (clients s) Hc) as [l Hl].
    eexists _, _. unfold detach. rewrite Hl. reflexivity. }
  { eapply hoare_weaken; [|apply detach_half]. intros s [I _]. exact I. }
  intros _.
  apply (runs_bind_h _ (reg_without p)).
  { intros s (N1 & N2 & S & A).
    assert (Hs : p ∈ stack s) by (apply S, list_elem_of_here).
    destruct (unlink_elem p (stack s) Hs) as [l Hl].
    eexists _, _. unfold detachstack. rewrite Hl. reflexivity. }
  { apply detachstack_without. }
  intros _.
  assert (SW : forall s s', wframe s s' -> reg_without p s -> reg_without p s')
    by exact (reg_without_wframe p).
  apply (runs_bind_h _ (reg_without p)); [apply runs_gets|
    refine (hoare_kept wframe _ _ _ SW); kept_tac|intros o].
  apply (runs_bind_h _ (reg_without p)).
  { destruct (decide (o = Some p)); [|apply runs_ret].
    eapply runs_weaken; [|apply runs_focus].
    intros s [I _]. split; [apply reg_allocd_stack, I|exact Logic.I]. }
  { refine (hoare_kept wframe _ _ _ SW). kept_tac. }
  intros _.
  apply (runs_bind_h _ (reg_without p)); [apply runs_setclientstate|
    refine (hoare_kept wframe _ _ _ SW); kept_tac|intros _].
  apply (runs_bind_h _ reg_inv); [apply runs_free|apply free_reg|intros _].
  apply (runs_bind_h _ reg_inv); [apply runs_emit|
    refine (hoare_kept wframe _ _ _ reg_inv_wframe); kept_tac|intros _].
  apply runs_arrange.
Qed.

Lemma runs_manage p wn :
  runs (fun s => reg_inv s /\ s.(heap) !! p = None) (manage p wn).
Proof.
  unfold manage.
  apply (runs_bind_h _ (reg_fresh p)).
  { intros s [_ Hn]. eexists _, _. unfold alloc. rewrite Hn. reflexivity. }
  { eapply hoare_weaken; [|apply alloc_fresh]. intros s [I _]. exact I. }
  intros _.
  set (Q := reg_fresh p).
  assert (Stab : forall s s', frame s s' -> Q s -> Q s') by exact (reg_fresh_frame p).
  assert (Hp : forall s, Q s -> p ∈ dom (heap s)) by (intros s (_ & _ & H); exact H).
  assert (HQ : forall s, Q s -> reg_inv s) by (intros s [I _]; exact I).
  apply (runs_bind_h Q Q); [apply runs_gets|
    refine (hoare_kept frame Q _ _ Stab); kept_tac|intros f].
  destruct ((f wn).(xw_geometry)) as [g|]; [|apply runs_ret].
  cbv zeta.
  do 12 (apply (runs_bind_h Q Q);
         [runs_tac Q Stab Hp HQ | refine (hoare_kept frame Q _ _ Stab); kept_tac | intros ?]).
  apply (runs_bind_h _ (fun s => reg_half p s.(clients) (p :: s.(stack)) s));
    [apply runs_modify|apply attach_half|intros _].
  apply (runs_bind_h _ reg_inv); [apply runs_modify|apply attachstack_reg|intros _].
  do 3 (apply (runs_bind_h _ reg_inv);
        [eauto with runs_db|refine (hoare_kept wframe _ _ _ reg_inv_wframe); kept_tac|intros _]).
  apply runs_arrange.
Qed.

(** ** Selected is the head of [stack] *)

Lemma frame_sel_head s s' : frame s s' -> sel_head s -> sel_head s'.
Proof. intros (_ & Ft & Fl & _) H. unfold sel_head in *. rewrite Fl, Ft. exact H. Qed.

(** Whatever [focus] is given, it leaves Selected at the head of [stack]:
    [focus(c)] moves [c] to the front, [focus(NULL)] takes the front. *)
Lemma focus_sel_head oc s a s' : focus oc s = Some (a, s') -> sel_head s'.
Proof.
  unfold focus. intros H.
  apply bind_some in H as (st & s0 & Hst & H). injection Hst as <- <-.
  apply bind_some in H as (u & s1 & H1 & H2).
  unfold modify in H2. injection H2 as <- <-. unfold sel_head; simpl.
  destruct (match oc with Some p => Some p | None => head (stack s) end)
    as [p|] eqn:Eoc.
  - apply bind_some in H1 as (c & s2 & Hc & H1).
    unfold deref in Hc. destruct (heap s !! p) as [c0|]; [|discriminate].
    injection Hc as Ec Es2. subst c0 s2.
    apply bind_some in H1 as (u1 & s3 & Hu & H1).
    apply bind_some in H1 as (u2 & s4 & Hd & H1).
    unfold detachstack in Hd. destruct (unlink p (stack s3)) as [l|];
      [|discriminate]. injection Hd as <- <-.
    apply bind_some in H1 as (u3 & s5 & Ha & H1).
    unfold attachstack, modify in Ha. injection Ha as <- <-.
    apply kept_set_focus in H1. destruct H1 as (_ & Gs & _). rewrite Gs. reflexivity.
  - apply bind_some in H1 as (r & s2 & Hr & H1). injection Hr as <- <-.
    apply kept_set_focus in H1. destruct H1 as (_ & Gs & _). rewrite Gs.
    destruct oc; [discriminate|]. symmetry; exact Eoc.
Qed.

Lemma hoare_focus_sel_head (P : wm -> Prop) oc : hoare P (focus oc) sel_head.
Proof. intros s a s' _ H. eapply focus_sel_head; eauto. Qed.

Lemma hoare_arrange_sel_head (P : wm -> Prop) : hoare P arrange sel_head.
Proof. intros s a s' _ H. apply arrange_spec in H as (_ & H & _). exact H. Qed.

(** The result of a sequence is the result of its last part. *)
Lemma hoare_seq_last {A B} (P R : wm -> Prop) (m : M A) (k : A -> M B) :
  (forall a, hoare (fun _ => True) (k a) R) -> hoare P (bind m k) R.
Proof.
  intros Hk s b s' _ H. apply bind_some in H as (a & s1 & _ & H2).
  eapply Hk; [exact Logic.I|exact H2].
Qed.

Ltac sel_head_tac :=
  repeat match goal with
  | |- hoare _ arrange sel_head => apply hoare_arrange_sel_head
  | |- hoare _ (focus _) sel_head => apply hoare_focus_sel_head
  | |- hoare sel_head (bind _ _) sel_head =>
      apply (hoare_bind sel_head sel_head);
      [solve [refine (hoare_kept frame sel_head _ _ frame_sel_head); kept_tac] | intros ?]
  | |- hoare _ (bind _ _) sel_head => apply hoare_seq_last; intros ?
  | |- hoare _ (match ?e with _ => _ end) sel_head => destruct e
  | |- hoare sel_head ?m sel_head =>
      solve [refine (hoare_kept frame sel_head _ _ frame_sel_head); kept_tac]
  end.

Lemma unmanage_sel_head (P : wm -> Prop) p : hoare P (unmanage p) sel_head.
Proof. unfold unmanage. sel_head_tac. Qed.

Lemma manage_sel_head p wn : hoare sel_head (manage p wn) sel_head.
Proof.
  unfold manage. apply (hoare_bind sel_head sel_head).
  { intros s a s' H E. unfold alloc in E. destruct (heap s !! p); [discriminate|].
    injection E as _ <-. exact H. }
  intros _. sel_head_tac.
Qed.

Lemma check_refloat_sel_head p : hoare sel_head (check_refloat p) sel_head.
Proof. unfold check_refloat. sel_head_tac. Qed.

Lemma handle_sel_head ev p b : hoare sel_head (handle ev p b) sel_head.
Proof.
  destruct ev; simpl;
    unfold configurenotify, destroynotify, unmapnotify, enternotify, maprequest,
      propertynotify; sel_head_tac;
    first [apply unmanage_sel_head | apply manage_sel_head
          | apply check_refloat_sel_head].
Qed.

Lemma cleanup_step_sel_head : hoare sel_head cleanup_step sel_head.
Proof. unfold cleanup_step. sel_head_tac. apply unmanage_sel_head. Qed.

Lemma reachable_sel_head s : reachable s -> sel_head s.
Proof.
  induction 1 as [r width height f|s s' _ IH St].
  - reflexivity.
  - destruct St as [ev p b s s' H|p wn s s' H|s s' H|f s].
    + eapply handle_sel_head; eauto.
    + eapply manage_sel_head; eauto.
    + eapply cleanup_step_sel_head; eauto.
    + exact IH.
Qed.

(** ** The handlers do not reach undefined behaviour *)

Lemma runs_getclient_then {B} (P : wm -> Prop) wn (k : option ptr -> M B) :
  (forall s, P s -> reg_inv s) ->
  (forall o, runs (fun s => P s /\ match o with Some p => p ∈ s.(clients) | None => True end)
                  (k o)) ->
  runs P (bind (getclient wn) k).
Proof.
  intros HP Hk.
  apply (runs_bind_v _ (fun o s => P s /\ match o with Some p => p ∈ s.(clients)
                                                     | None => True end)).
  - eapply runs_weaken; [|apply runs_getclient]. intros s Hs. apply reg_allocd_clients, HP, Hs.
  - intros s o s' Hs E. apply getclient_found in E as [-> Ho]. split; [exact Hs|].
    destruct o as [q|]; [apply Ho|exact Logic.I].
  - exact Hk.
Qed.

(** The predicate [reg_inv /\ p ∈ clients], kept by [frame]. *)
Lemma managed_frame p s s' :
  frame s s' -> reg_inv s /\ p ∈ s.(clients) -> reg_inv s' /\ p ∈ s'.(clients).
Proof.
  intros F [I Hp]. split; [eapply reg_inv_wframe; [apply frame_wframe, F|exact I]|].
  destruct F as (Fc & _). rewrite Fc. exact Hp.
Qed.

Ltac managed_runs p :=
  let Q := constr:(fun s => reg_inv s /\ p ∈ s.(clients)) in
  let Stab := fresh "Stab" in let Hp := fresh "Hp" in let HQ := fresh "HQ" in
  assert (Stab : forall s s', frame s s' -> Q s -> Q s') by exact (managed_frame p);
  assert (Hp : forall s, Q s -> p ∈ dom (heap s))
    by (intros ? [?I ?H]; apply (inv_alloc _ I), H);
  assert (HQ : forall s, Q s -> reg_inv s) by (intros ? [?I _]; exact I);
  runs_tac Q Stab Hp HQ.

Lemma runs_check_refloat p :
  runs (fun s => reg_inv s /\ p ∈ s.(clients)) (check_refloat p).
Proof. unfold check_refloat. cbv zeta. managed_runs p. Qed.

Lemma runs_updatewmhints p b :
  runs (fun s => reg_inv s /\ p ∈ s.(clients)) (updatewmhints p b).
Proof. unfold updatewmhints. managed_runs p. Qed.

Lemma runs_configurerequest e : runs reg_inv (configurerequest e).
Proof.
  unfold configurerequest. apply runs_getclient_then; [auto|]. intros [p|].
  - cbv zeta. managed_runs p.
  - apply runs_configure.
Qed.

Lemma reg_frame s s' : frame s s' -> reg_inv s -> reg_inv s'.
Proof. intros F. apply reg_inv_wframe, frame_wframe, F. Qed.

Lemma runs_configurenotify wn wd ht : runs reg_inv (configurenotify wn wd ht).
Proof.
  unfold configurenotify.
  assert (HQ : forall s, reg_inv s -> reg_inv s) by auto.
  assert (Hp : forall s, reg_inv s -> 1%positive ∈ dom (heap s) -> 1%positive ∈ dom (heap s))
    by auto.
  runs_tac reg_inv reg_frame Hp HQ.
  all: eauto with runs_db.
Qed.

Lemma runs_unmanage_found (P : wm -> Prop) p :
  (forall s, P s -> reg_inv s) ->
  runs (fun s => P s /\ p ∈ s.(clients)) (unmanage p).
Proof.
  intros HP. eapply runs_weaken; [|apply runs_unmanage]. intros s [Hs Hc]. auto.
Qed.

Lemma runs_destroynotify wn : runs reg_inv (destroynotify wn).
Proof.
  unfold destroynotify. apply runs_getclient_then; [auto|]. intros [p|].
  - apply runs_unmanage_found. auto.
  - apply runs_ret.
Qed.

Lemma runs_unmapnotify wn : runs reg_inv (unmapnotify wn).
Proof.
  unfold unmapnotify. apply runs_getclient_then; [auto|]. intros [p|].
  - apply runs_unmanage_found. auto.
  - apply runs_ret.
Qed.

Lemma runs_enternotify md dt ev : runs reg_inv (enternotify md dt ev).
Proof.
  unfold enternotify.
  apply (runs_bind_h _ reg_inv); [apply runs_gets|
    refine (hoare_kept frame _ _ _ reg_frame); kept_tac|intros r].
  destruct (_ && _); [apply runs_ret|].
  apply runs_getclient_then; [auto|]. intros o.
  eapply runs_weaken; [|apply runs_focus]. intros s [I Ho].
  split; [apply reg_allocd_stack, I|].
  destruct o as [p|]; [apply (inv_same s I), Ho|exact Logic.I].
Qed.

Lemma sel_head_allocd s p : reg_inv s -> sel_head s -> s.(sel) = Some p -> p ∈ dom (heap s).
Proof.
  intros I H E. unfold sel_head in H. rewrite H in E.
  apply (reg_allocd_stack s I). destruct (stack s) as [|q t]; [discriminate|].
  injection E as ->. apply list_elem_of_here.
Qed.

Lemma runs_focusin ev : runs (fun s => reg_inv s /\ sel_head s) (focusin ev).
Proof.
  unfold focusin.
  apply (runs_bind_v _ (fun o s => reg_inv s /\ sel_head s /\ o = s.(sel)));
    [apply runs_gets| |].
  { intros s a s' [I H] E. injection E as <- <-. auto. }
  intros [p|]; [|apply runs_ret].
  apply (runs_bind_h _ (fun _ => True)); [|intros ? ? ? ? ?; exact Logic.I|].
  - apply runs_deref. intros s (I & H & E). apply (sel_head_allocd s p I H). auto.
  - intros c. destruct (negb _); eauto with runs_db.
Qed.

Lemma runs_maprequest wn p :
  runs (fun s => reg_inv s /\ s.(heap) !! p = None) (maprequest wn p).
Proof.
  unfold maprequest.
  assert (Stab : forall s s', frame s s' -> reg_inv s /\ heap s !! p = None ->
                              reg_inv s' /\ heap s' !! p = None).
  { intros s s' F [I H]. split; [eapply reg_frame; eauto|].
    destruct F as (_ & _ & _ & Fd). apply not_elem_of_dom. rewrite Fd.
    apply not_elem_of_dom, H. }
  apply (runs_bind_h _ (fun s => reg_inv s /\ heap s !! p = None)); [apply runs_gets|
    refine (hoare_kept frame _ _ _ Stab); kept_tac|intros f].
  destruct (xw_override_redirect (f wn)) as [[]|]; [apply runs_ret| |apply runs_ret].
  apply runs_getclient_then; [intros s [I _]; exact I|]. intros [q|]; [apply runs_ret|].
  eapply runs_weaken; [|apply runs_manage]. intros s [H _]. exact H.
Qed.

Lemma runs_propertynotify wn a st b : runs reg_inv (propertynotify wn a st b).
Proof.
  unfold propertynotify.
  apply (runs_bind_h _ reg_inv); [apply runs_gets|
    refine (hoare_kept frame _ _ _ reg_frame); kept_tac|intros r].
  destruct (_ && _); [apply runs_ret|]. destruct (Z.eqb st _); [apply runs_ret|].
  apply runs_getclient_then; [auto|]. intros [p|]; [|apply runs_ret].
  destruct (Z.eqb a WM_TRANSIENT_FOR); [apply runs_check_refloat|].
  destruct (Z.eqb a WM_NORMAL_HINTS).
  - apply runs_updatesizehints. intros s [I H]. apply (inv_alloc s I), H.
  - destruct (Z.eqb a WM_HINTS); [apply runs_updatewmhints|apply runs_ret].
Qed.

Lemma runs_handle ev p b :
  runs (fun s => reg_inv s /\ sel_head s /\ s.(heap) !! p = None) (handle ev p b).
Proof.
  destruct ev; simpl.
  all: try (eapply runs_weaken; [|first [apply runs_configurerequest
    | apply runs_configurenotify | apply runs_destroynotify | apply runs_enternotify
    | apply runs_propertynotify | apply runs_unmapnotify]];
    intros s (I & _); exact I).
  - eapply runs_weaken; [|apply runs_focusin]. intros s (I & H & _). auto.
  - apply runs_ret.
  - eapply runs_weaken; [|apply runs_maprequest]. intros s (I & _ & H). auto.
Qed.

Lemma runs_cleanup_step : runs reg_inv cleanup_step.
Proof.
  unfold cleanup_step.
  apply (runs_bind_h _ reg_inv); [apply runs_modify|
    refine (hoare_kept frame _ _ _ reg_frame); kept_tac|intros _].
  apply (runs_bind_v _ (fun l s => reg_inv s /\ l = s.(stack))); [apply runs_gets| |].
  { intros s a s' I E. injection E as <- <-. auto. }
  intros [|p l]; [apply runs_set_focus|].
  eapply runs_weaken; [|apply runs_unmanage]. intros s [I E]. split; [exact I|].
  apply (inv_same s I). rewrite <- E. apply list_elem_of_here.
Qed.

(** ** What [unmanage] does to the registry *)

Lemma filter_absent (p : ptr) (l : list ptr) : p ∉ l -> filter (fun q => q <> p) l = l.
Proof.
  induction l as [|q l IH]; intros Hp; [reflexivity|].
  apply not_elem_of_cons in Hp as [Hq Hl].
  rewrite filter_cons_True by (intros ->; contradiction). f_equal. auto.
Qed.

(** On a list without repetition, unlinking is filtering. *)
Lemma unlink_filter p (l l' : list ptr) :
  NoDup l -> unlink p l = Some l' -> l' = filter (fun q => q <> p) l.
Proof.
  revert l'; induction l as [|q l IH]; intros l' N H; simpl in H; [discriminate|].
  apply NoDup_cons in N as [Hq N].
  destruct (Pos.eqb q p) eqn:E.
  - apply Pos.eqb_eq in E. subst. injection H as <-.
    rewrite filter_cons_False by auto. symmetry. apply filter_absent, Hq.
  - destruct (unlink p l) as [l''|]; [|discriminate]. injection H as <-.
    apply Pos.eqb_neq in E. rewrite filter_cons_True by auto. f_equal. auto.
Qed.

Ltac frame_of H :=
  first [ apply kept_emit in H | apply kept_configure in H
        | apply kept_setclientstate in H ].

Lemma unmanage_spec p s a s' :
  reg_inv s -> unmanage p s = Some (a, s') ->
  s'.(clients) = filter (fun q => q <> p) s.(clients)
  /\ s'.(stack) = filter (fun q => q <> p) s.(stack)
  /\ dom s'.(heap) = dom s.(heap) ∖ {[p]}
  /\ sel_head s'.
Proof.
  intros [N1 N2 S A] H. unfold unmanage in H.
  apply bind_some in H as (u1 & s1 & E1 & H).
  apply kept_emit in E1 as (C1 & T1 & _ & D1).
  apply bind_some in H as (c & s2 & E2 & H).
  unfold deref in E2. destruct (heap s1 !! p); [|discriminate].
  injection E2 as <- <-.
  apply bind_some in H as (u3 & s3 & E3 & H).
  apply kept_configure in E3 as (C3 & T3 & _ & D3).
  apply bind_some in H as (u4 & s4 & E4 & H).
  unfold detach in E4. destruct (unlink p (clients s3)) as [l|] eqn:El;
    [|discriminate]. injection E4 as <- <-.
  apply bind_some in H as (u5 & s5 & E5 & H).
  unfold detachstack in E5. simpl in E5.
  destruct (unlink p (stack s3)) as [l2|] eqn:El2; [|discriminate].
  injection E5 as <- <-.
  apply bind_some in H as (o & s6 & E6 & H). injection E6 as <- <-.
  apply bind_some in H as (u7 & s7 & E7 & H).
  assert (F7 : clients s7 = l /\ stack s7 = l2 /\ dom (heap s7) = dom (heap s3)).
  { destruct (decide _).
    - apply focus_spec in E7 as ((Wc & _ & _ & Wd) & _ & Ws).
      simpl in *. rewrite Wc, Wd, (Ws eq_refl). auto.
    - injection E7 as <- <-. auto. }
  clear E7. destruct F7 as (C7 & T7 & D7).
  apply bind_some in H as (u8 & s8 & E8 & H).
  apply kept_setclientstate in E8 as (C8 & T8 & _ & D8).
  apply bind_some in H as (u9 & s9 & E9 & H).
  unfold free, modify in E9. injection E9 as <- <-.
  apply bind_some in H as (u10 & s10 & E10 & H).
  apply kept_emit in E10 as (C10 & T10 & _ & D10). simpl in *.
  apply arrange_spec in H as ((Ac & _ & _ & Ad) & Sel & At).
  rewrite C3, C1 in El. rewrite T3, T1 in El2.
  apply unlink_filter in El; [|exact N1]. apply unlink_filter in El2; [|exact N2].
  split; [|split; [|split]].
  - rewrite Ac, C10, C8, C7. exact El.
  - rewrite At, T10, T8, T7. exact El2.
  - rewrite Ad, D10, dom_delete_L, D8, D7, D3, D1. reflexivity.
  - exact Sel.
Qed.

(** ** [cleanup] *)

Lemma dom_after_unmanage (D : gset ptr) p (l : list ptr) :
  p ∈ l ->
  (D ∖ {[p]}) ∖ list_to_set (filter (fun q => q <> p) l) = D ∖ list_to_set l.
Proof.
  intros Hp. apply set_eq. intros x.
  rewrite !elem_of_difference, !elem_of_list_to_set, list_elem_of_filter,
    elem_of_singleton.
  destruct (decide (x = p)) as [->|Hx]; tauto.
Qed.

Lemma reg_empty s : reg_inv s -> s.(stack) = [] -> s.(clients) = [].
Proof.
  intros I E. destruct (clients s) as [|q t] eqn:Ec; [reflexivity|].
  exfalso. assert (Hq : q ∈ stack s) by (apply (inv_same s I); rewrite Ec; apply list_elem_of_here).
  rewrite E in Hq. apply not_elem_of_nil in Hq. exact Hq.
Qed.

Lemma cleanup_loop_spec (n : nat) s :
  reg_inv s -> sel_head s -> (length s.(stack) <= n)%nat ->
  exists s', cleanup_loop n s = Some (tt, s')
             /\ s'.(clients) = [] /\ s'.(stack) = [] /\ s'.(sel) = None
             /\ dom s'.(heap) = dom s.(heap) ∖ list_to_set s.(clients).
Proof.
  revert s; induction n as [|n IH]; intros s I Hs Hl.
  - destruct (stack s) eqn:Es; [|simpl in Hl; lia].
    exists s. rewrite (reg_empty s I Es). unfold sel_head in Hs. rewrite Es in Hs.
    repeat split; auto. simpl. symmetry. apply difference_empty_L.
  - destruct (stack s) as [|p t] eqn:Es.
    + exists s. simpl. unfold bind, gets. rewrite Es.
      rewrite (reg_empty s I Es). unfold sel_head in Hs. rewrite Es in Hs.
      repeat split; auto. simpl. symmetry. apply difference_empty_L.
    + assert (Hp : p ∈ clients s) by (apply (inv_same s I); rewrite Es; apply list_elem_of_here).
      destruct (runs_unmanage p s (conj I Hp)) as ([] & s1 & E1).
      pose proof (unmanage_reg p s tt s1 I E1) as I1.
      destruct (unmanage_spec p s tt s1 I E1) as (C1 & T1 & D1 & H1).
      assert (T1' : stack s1 = t).
      { rewrite T1, Es. pose proof (inv_nodup_stack s I) as N. rewrite Es in N.
        apply NoDup_cons in N as [Hn _].
        rewrite filter_cons_False by auto. apply filter_absent, Hn. }
      destruct (IH s1 I1 H1) as (s' & E' & C' & T' & S' & D').
      { rewrite T1'. simpl in Hl. lia. }
      exists s'. simpl. unfold bind at 1, gets. rewrite Es.
      rewrite (bind_run _ _ s tt s1 E1). split; [exact E'|].
      repeat split; auto. rewrite D', D1, C1. apply dom_after_unmanage, Hp.
Qed.

(** X3.  [cleanup] from any reachable state runs without undefined
    behaviour and empties the registry: no client is left on [clients] or
    [stack], nothing is selected, every client's block has been freed and
    no other block, and the last request is the focus reset to
    PointerRoot.  In particular the [while(stack)] loop ends within as
    many iterations as [stack] had clients. *)
Theorem cleanup_empties_registry (s : wm) :
  reachable s ->
  exists s', cleanup s = Some (tt, s')
             /\ s'.(clients) = [] /\ s'.(stack) = [] /\ s'.(sel) = None
             /\ dom s'.(heap) = dom s.(heap) ∖ list_to_set s.(clients)
             /\ last s'.(out) = Some (RSetInputFocus XCB_INPUT_FOCUS_POINTER_ROOT).
Proof.
  intros R. pose proof (reachable_reg s R) as I. pose proof (reachable_sel_head s R) as Hs.
  set (s0 := set_layout Nothing s).
  assert (I0 : reg_inv s0) by (destruct I; constructor; auto).
  assert (H0 : sel_head s0) by exact Hs.
  destruct (cleanup_loop_spec (length (stack s0)) s0 I0 H0 (le_n _))
    as (s1 & E1 & C1 & T1 & S1 & D1).
  unfold cleanup. unfold bind at 1, modify. fold s0. unfold bind at 1, gets.
  rewrite (bind_run _ _ s0 tt s1 E1).
  eexists. split; [reflexivity|]. simpl.
  repeat split; auto. rewrite last_app. reflexivity.
Qed.

(** ** [arrange] keeps what a client record says about its window *)

(** Every allocated block stays allocated, with the same window and the
    same [isfloating] and [isfixed]. *)
Definition recs (s s' : wm) : Prop :=
  forall q c, s.(heap) !! q = Some c ->
    exists c', s'.(heap) !! q = Some c' /\ c'.(win) = c.(win)
               /\ c'.(isfloating) = c.(isfloating) /\ c'.(isfixed) = c.(isfixed).

#[global] Instance recs_refl : Reflexive recs.
Proof. intros s q c H. exists c. auto. Qed.

#[global] Instance recs_trans : Transitive recs.
Proof.
  intros s1 s2 s3 H12 H23 q c H. destruct (H12 q c H) as (c2 & H2 & W2 & F2 & X2).
  destruct (H23 q c2 H2) as (c3 & H3 & W3 & F3 & X3). exists c3.
  rewrite W3, F3, X3. auto.
Qed.

Lemma recs_heap_eq s s' : s'.(heap) = s.(heap) -> recs s s'.
Proof. intros E q c H. exists c. rewrite E. auto. Qed.

Lemma recs_insert s s' p c c' :
  s.(heap) !! p = Some c -> s'.(heap) = <[p := c']> s.(heap) ->
  c'.(win) = c.(win) -> c'.(isfloating) = c.(isfloating) -> c'.(isfixed) = c.(isfixed) ->
  recs s s'.
Proof.
  intros Hp E W F X q d Hq. rewrite E. destruct (decide (q = p)) as [->|Hne].
  - rewrite lookup_insert_eq. rewrite Hp in Hq. injection Hq as <-. eauto.
  - rewrite lookup_insert_ne by auto. exists d. auto.
Qed.

Lemma kept_recs_emit r : kept recs (emit r).
Proof. intros s a s' H. injection H as <- <-. apply recs_heap_eq. reflexivity. Qed.

Lemma kept_recs_configure wn m prm : kept recs (configure wn m prm).
Proof. apply kept_recs_emit. Qed.

Lemma kept_recs_configure_event c : kept recs (configure_event c).
Proof. apply kept_recs_emit. Qed.

Lemma kept_recs_set_focus wn : kept recs (set_focus wn).
Proof. apply kept_recs_emit. Qed.

Lemma kept_recs_setclientstate c st : kept recs (setclientstate c st).
Proof. apply kept_recs_emit. Qed.

Lemma kept_recs_xcb_set_wm_hints wn hs : kept recs (xcb_set_wm_hints wn hs).
Proof.
  intros s a s' H. unfold xcb_set_wm_hints in H.
  apply bind_some in H as (u & s1 & H1 & H2). injection H1 as <- <-.
  injection H2 as <- <-. apply recs_heap_eq. reflexivity.
Qed.

Lemma kept_recs_detachstack p : kept recs (detachstack p).
Proof.
  intros s a s' H. unfold detachstack in H. destruct (unlink p (stack s)); [|discriminate].
  injection H as <- <-. apply recs_heap_eq. reflexivity.
Qed.

Lemma kept_recs_attachstack p : kept recs (attachstack p).
Proof. intros s a s' H. injection H as <- <-. apply recs_heap_eq. reflexivity. Qed.

Lemma kept_recs_set_sel o : kept recs (modify (set_sel o)).
Proof. intros s a s' H. injection H as <- <-. apply recs_heap_eq. reflexivity. Qed.

Lemma kept_recs_resize p nx ny nw nh : kept recs (resize p nx ny nw nh).
Proof.
  intros s a s' H. unfold resize in H.
  apply bind_some in H as (c & s1 & H1 & H). unfold deref in H1.
  destruct (heap s !! p) as [c0|] eqn:Hp; [|discriminate]. injection H1 as <- <-.
  apply bind_some in H as (t & s2 & H2 & H). injection H2 as <- <-.
  destruct (applysizehints _ _ nx ny nw nh) as [g ch]. destruct ch.
  - apply bind_some in H as (u & s3 & H3 & H). unfold store in H3. rewrite Hp in H3.
    injection H3 as <- <-.
    apply bind_some in H as (u4 & s4 & H4 & H). injection H4 as <- <-.
    injection H as <- <-.
    eapply recs_insert; [exact Hp|reflexivity|reflexivity|reflexivity|reflexivity].
  - injection H as <- <-. reflexivity.
Qed.

Lemma kept_recs_clearurgent p : kept recs (clearurgent p).
Proof.
  intros s a s' H. unfold clearurgent in H.
  apply bind_some in H as (c & s1 & H1 & H). unfold deref in H1.
  destruct (heap s !! p) as [c0|] eqn:Hp; [|discriminate]. injection H1 as <- <-.
  apply bind_some in H as (u & s2 & H2 & H). unfold store in H2. rewrite Hp in H2.
  injection H2 as <- <-.
  transitivity (set_heap (<[p:=set_urgent c0 false]> (heap s)) s).
  { eapply recs_insert; [exact Hp|reflexivity|reflexivity|reflexivity|reflexivity]. }
  apply bind_some in H as (f & s3 & H3 & H). injection H3 as <- <-.
  destruct (xw_wm_hints _); [eapply kept_recs_xcb_set_wm_hints; eauto|].
  injection H as <- <-. reflexivity.
Qed.

Create HintDb recs_db.
#[global] Hint Resolve kept_ret kept_gets kept_deref kept_ub kept_recs_emit
  kept_recs_configure kept_recs_configure_event kept_recs_set_focus
  kept_recs_setclientstate kept_recs_xcb_set_wm_hints kept_recs_detachstack
  kept_recs_attachstack kept_recs_set_sel kept_recs_resize kept_recs_clearurgent
  : recs_db.
#[global] Hint Extern 1 (Reflexive _) => exact _ : recs_db.

Ltac recs_tac :=
  repeat match goal with
  | |- kept _ (bind _ _) => apply kept_bind; [exact _ | | intro]
  | |- kept _ (match ?e with _ => _ end) => destruct e
  | |- kept _ _ => solve [eauto with recs_db]
  end.

Lemma kept_recs_showhide l : kept recs (showhide l).
Proof. induction l; simpl; recs_tac. Qed.

Lemma kept_recs_monocle_loop l : kept recs (monocle_loop l).
Proof. induction l; simpl; recs_tac. Qed.

Lemma kept_recs_restack_loop l sib : kept recs (restack_loop l sib).
Proof. revert sib; induction l; intros; simpl; recs_tac. Qed.

#[global] Hint Resolve kept_recs_showhide kept_recs_monocle_loop kept_recs_restack_loop
  : recs_db.

Lemma kept_recs_focus oc : kept recs (focus oc).
Proof. unfold focus. cbv zeta. recs_tac. Qed.

Lemma kept_recs_arrange : kept recs arrange.
Proof.
  unfold arrange. pose proof (kept_recs_focus None).
  unfold run_layout, restack. recs_tac.
Qed.

Lemma compute_size_hints_keeps c hs :
  (compute_size_hints c hs).(win) = c.(win)
  /\ (compute_size_hints c hs).(isfloating) = c.(isfloating).
Proof.
  unfold compute_size_hints.
  destruct (flag _ XCB_SIZE_HINT_BASE_SIZE), (flag _ XCB_SIZE_HINT_P_MIN_SIZE),
    (flag _ XCB_SIZE_HINT_P_RESIZE_INC), (flag _ XCB_SIZE_HINT_P_MAX_SIZE),
    (flag _ XCB_SIZE_HINT_P_ASPECT); split; reflexivity.
Qed.

Lemma initial_client_keeps t c g :
  (initial_client t c g).(win) = c.(win)
  /\ (initial_client t c g).(isfloating) = c.(isfloating).
Proof.
  destruct g as [[[[gx0 gy0] gw0] gh0] gbw]. unfold initial_client.
  destruct (_ && _); split; reflexivity.
Qed.

Lemma manage_spec p wn s a s' g :
  manage p wn s = Some (a, s') -> (s.(srv) wn).(xw_geometry) = Some g ->
  s'.(clients) = p :: s.(clients) /\ s'.(stack) = p :: s.(stack) /\ s'.(sel) = Some p
  /\ exists c, s'.(heap) !! p = Some c /\ c.(win) = wn
     /\ c.(isfloating) = c.(isfixed) || match (s.(srv) wn).(xw_transient_for) with
                                        | Some tr => negb (Z.eqb tr XCB_NONE)
                                        | None => false end.
Proof.
  intros H Hg. unfold manage in H.
  apply bind_some in H as (u1 & s1 & E1 & H). unfold alloc in E1.
  destruct (heap s !! p) eqn:Hp; [discriminate|]. injection E1 as <- <-.
  apply bind_some in H as (f & s2 & E2 & H). injection E2 as <- <-.
  simpl in H. rewrite Hg in H. cbv zeta in H.
  apply bind_some in H as (t & s3 & E3 & H). injection E3 as <- <-.
  apply bind_some in H as (c3 & s4 & E4 & H). unfold deref in E4. simpl in E4.
  rewrite lookup_insert_eq in E4. injection E4 as <- <-.
  set (I0 := initial_client _ _ _) in H.
  assert (HI : win I0 = wn /\ isfloating I0 = false) by apply initial_client_keeps.
  clearbody I0.
  apply bind_some in H as (u5 & s5 & E5 & H). unfold store in E5. simpl in E5.
  rewrite lookup_insert_eq in E5. injection E5 as <- <-.
  apply bind_some in H as (u6 & s6 & E6 & H). injection E6 as <- <-.
  apply bind_some in H as (u7 & s7 & E7 & H). unfold updatesizehints in E7.
  apply bind_some in E7 as (c7 & s7a & E7a & E7).
  unfold deref in E7a. simpl in E7a. rewrite lookup_insert_eq in E7a. injection E7a as <- <-.
  apply bind_some in E7 as (f7 & s7b & E7b & E7). injection E7b as <- <-.
  unfold store in E7. simpl in E7. rewrite lookup_insert_eq in E7. injection E7 as <- <-.
  set (C := compute_size_hints _ _) in H.
  assert (HC : win C = wn /\ isfloating C = false).
  { subst C. rewrite (proj1 (compute_size_hints_keeps _ _)),
      (proj2 (compute_size_hints_keeps _ _)). exact HI. }
  clearbody C.
  apply bind_some in H as (u8 & s8 & E8 & H). injection E8 as <- <-.
  apply bind_some in H as (c9 & s9 & E9 & H). unfold deref in E9. simpl in E9.
  rewrite !insert_insert_eq, lookup_insert_eq in E9. injection E9 as <- <-.
  match type of H with ?F ?st = _ => set (S0 := st) in H end.
  assert (F0 : heap S0 !! p = Some C /\ clients S0 = clients s /\ stack S0 = stack s
               /\ srv S0 = srv s) by (subst S0; simpl; rewrite lookup_insert_eq; auto).
  clearbody S0. destruct F0 as (P0 & L0 & T0 & V0). destruct HC as [WC FC].
  apply bind_some in H as (u10 & s10 & E10 & H). unfold store in E10. rewrite P0 in E10.
  injection E10 as <- <-.
  set (C1 := set_floating C (isfloating C || isfixed C)) in H.
  assert (HC1 : win C1 = wn /\ isfloating C1 = isfixed C1) by (subst C1; simpl; rewrite FC; auto).
  clearbody C1.
  apply bind_some in H as (f11 & s11 & E11 & H). injection E11 as <- <-. simpl in H.
  rewrite V0 in H.
  apply bind_some in H as (u12 & S2 & E12 & H).
  assert (F2 : exists C2, heap S2 !! p = Some C2 /\ clients S2 = clients s
                 /\ stack S2 = stack s /\ win C2 = wn
                 /\ isfloating C2 = isfixed C2
                    || match xw_transient_for (srv s wn) with
                       | Some tr => negb (Z.eqb tr XCB_NONE) | None => false end).
  { destruct (xw_transient_for (srv s wn)) as [tr|].
    - apply bind_some in E12 as (c12 & s12 & E12a & E12). unfold deref in E12a.
      simpl in E12a. rewrite lookup_insert_eq in E12a. injection E12a as <- <-.
      unfold store in E12. simpl in E12. rewrite lookup_insert_eq in E12.
      injection E12 as <- <-. simpl. rewrite insert_insert_eq, lookup_insert_eq.
      eexists. split; [reflexivity|]. destruct HC1 as [W1 F1].
      repeat split; auto. rewrite F1. reflexivity.
    - injection E12 as <- <-. simpl. rewrite lookup_insert_eq. eexists.
      split; [reflexivity|]. destruct HC1 as [W1 F1]. rewrite F1, orb_false_r. auto. }
  clear E12. destruct F2 as (C2 & P2 & L2 & T2 & W2 & Fl2).
  apply bind_some in H as (c13 & s13 & E13 & H). unfold deref in E13. rewrite P2 in E13.
  injection E13 as <- <-.
  apply bind_some in H as (u14 & s14 & E14 & H).
  assert (F14 : heap s14 = heap S2 /\ clients s14 = clients S2 /\ stack s14 = stack S2).
  { destruct (isfloating C2); injection E14 as <- <-; auto. }
  clear E14. destruct F14 as (P14 & L14 & T14).
  apply bind_some in H as (u15 & s15 & E15 & H). injection E15 as <- <-.
  apply bind_some in H as (u16 & s16 & E16 & H). injection E16 as <- <-.
  apply bind_some in H as (u17 & s17 & E17 & H). injection E17 as <- <-.
  apply bind_some in H as (u18 & s18 & E18 & H). injection E18 as <- <-.
  apply bind_some in H as (u19 & s19 & E19 & H). injection E19 as <- <-.
  simpl in H.
  pose proof (kept_recs_arrange _ _ _ H) as R.
  apply arrange_spec in H as ((Ac & _ & _ & _) & Sel & At).
  rewrite Ac, At in *. simpl in *. rewrite L14, L2, T14, T2 in *.
  split; [reflexivity|]. split; [reflexivity|]. split; [exact Sel|].
  destruct (R p C2) as (c' & Hc' & Wc & Fc & Xc); [simpl; rewrite P14; exact P2|].
  exists c'. split; [exact Hc'|]. rewrite Wc, Fc, Xc. auto.
Qed.

(** * Extra properties *)

(** X1.  In every reachable state Selected is the head of the focus
    [stack] (none exactly when no client is managed); hence a selected
    client is managed and its block is allocated. *)
Theorem selected_is_stack_head (s : wm) :
  reachable s ->
  s.(sel) = head s.(stack)
  /\ forall p, s.(sel) = Some p -> p ∈ s.(clients) /\ p ∈ dom s.(heap).
Proof.
  intros R. pose proof (reachable_sel_head s R) as H. pose proof (reachable_reg s R) as I.
  split; [exact H|]. intros p Hp. split; [|exact (sel_head_allocd s p I H Hp)].
  apply (inv_same s I). unfold sel_head in H. rewrite H in Hp.
  destruct (stack s) as [|q t]; [discriminate|]. injection Hp as ->.
  apply list_elem_of_here.
Qed.

Lemma selected_is_stack_head_witness :
  reachable ex_s2
  /\ (ex_s2.(sel) = head ex_s2.(stack)
      /\ forall p, ex_s2.(sel) = Some p -> p ∈ ex_s2.(clients) /\ p ∈ dom ex_s2.(heap)).
Proof.
  assert (R : reachable ex_s2).
  { apply (reach_step ex_s1); [exact ex_s1_reachable|].
    apply (step_event (MapRequest 11) 2 false). vm_compute. reflexivity. }
  split; [exact R|]. exact (selected_is_stack_head ex_s2 R).
Defined.

(** X2.  From a reachable state, with [calloc] returning a block not in
    use, no event handler of [run], no [manage] of [scan] and no iteration
    of [cleanup] reaches undefined behaviour: every pointer dereferenced is
    allocated and every client unlinked is on its list. *)
Theorem handlers_defined (s : wm) (ev : xevent) (p : ptr) (b : bool) (wn : Z) :
  reachable s -> s.(heap) !! p = None ->
  (exists s', handle ev p b s = Some (tt, s'))
  /\ (exists s', manage p wn s = Some (tt, s'))
  /\ (exists s', cleanup_step s = Some (tt, s')).
Proof.
  intros R Hp. pose proof (reachable_reg s R) as I.
  pose proof (reachable_sel_head s R) as H.
  split; [|split].
  - destruct (runs_handle ev p b s (conj I (conj H Hp))) as ([] & s' & E). eauto.
  - destruct (runs_manage p wn s (conj I Hp)) as ([] & s' & E). eauto.
  - destruct (runs_cleanup_step s I) as ([] & s' & E). eauto.
Qed.

Lemma handlers_defined_witness :
  reachable ex_s1 /\ ex_s1.(heap) !! 2%positive = None
  /\ ((exists s', handle (MapRequest 11) 2 false ex_s1 = Some (tt, s'))
      /\ (exists s', manage 2 11 ex_s1 = Some (tt, s'))
      /\ (exists s', cleanup_step ex_s1 = Some (tt, s'))).
Proof.
  assert (Hp : ex_s1.(heap) !! 2%positive = None) by (vm_compute; reflexivity).
  split; [exact ex_s1_reachable|]. split; [exact Hp|].
  exact (handlers_defined ex_s1 (MapRequest 11) 2 false 11 ex_s1_reachable Hp).
Defined.

(** X3 is [cleanup_empties_registry] above. *)
Lemma cleanup_empties_registry_witness :
  reachable ex_s4
  /\ exists s', cleanup ex_s4 = Some (tt, s')
             /\ s'.(clients) = [] /\ s'.(stack) = [] /\ s'.(sel) = None
             /\ dom s'.(heap) = dom ex_s4.(heap) ∖ list_to_set ex_s4.(clients)
             /\ last s'.(out) = Some (RSetInputFocus XCB_INPUT_FOCUS_POINTER_ROOT).
Proof. split; [exact ex_s4_reachable|]. exact (cleanup_empties_registry ex_s4 ex_s4_reachable). Defined.

(** X4.  [unmanage] of a managed client runs without undefined behaviour:
    it removes the client from [clients] and from [stack], keeping the
    order of the others, frees its block and no other, keeps the registry
    invariant, and leaves Selected at the head of [stack]. *)
Theorem unmanage_removes_client (s : wm) (p : ptr) :
  reg_inv s -> p ∈ s.(clients) ->
  exists s', unmanage p s = Some (tt, s')
    /\ s'.(clients) = filter (fun q => q <> p) s.(clients)
    /\ s'.(stack) = filter (fun q => q <> p) s.(stack)
    /\ dom s'.(heap) = dom s.(heap) ∖ {[p]}
    /\ reg_inv s' /\ s'.(sel) = head s'.(stack).
Proof.
  intros I Hp. destruct (runs_unmanage p s (conj I Hp)) as ([] & s' & E).
  destruct (unmanage_spec p s tt s' I E) as (C & T & D & H).
  exists s'. split; [exact E|]. split; [exact C|]. split; [exact T|]. split; [exact D|].
  split; [eapply unmanage_reg; eauto|exact H].
Qed.

Lemma unmanage_removes_client_witness :
  reg_inv ex_s2 /\ 1%positive ∈ ex_s2.(clients)
  /\ exists s', unmanage 1 ex_s2 = Some (tt, s')
    /\ s'.(clients) = filter (fun q => q <> 1%positive) ex_s2.(clients)
    /\ s'.(stack) = filter (fun q => q <> 1%positive) ex_s2.(stack)
    /\ dom s'.(heap) = dom ex_s2.(heap) ∖ {[1%positive]}
    /\ reg_inv s' /\ s'.(sel) = head s'.(stack).
Proof.
  assert (I : reg_inv ex_s2).
  { apply reachable_reg. apply (reach_step ex_s1); [exact ex_s1_reachable|].
    apply (step_event (MapRequest 11) 2 false). vm_compute. reflexivity. }
  assert (Hp : 1%positive ∈ ex_s2.(clients))
    by (vm_compute; apply list_elem_of_further, list_elem_of_here).
  split; [exact I|]. split; [exact Hp|]. exact (unmanage_removes_client ex_s2 1 I Hp).
Defined.

(** X5.  [manage] of a window whose geometry can be read runs without
    undefined behaviour; the new client is put at the head of [clients]
    and of [stack] and becomes Selected; its record holds the window, and
    it floats exactly when it has a fixed size or is transient for a
    window other than NONE. *)
Theorem manage_registers_client (s : wm) (p : ptr) (wn : Z) g :
  reg_inv s -> s.(heap) !! p = None -> (s.(srv) wn).(xw_geometry) = Some g ->
  exists s', manage p wn s = Some (tt, s')
    /\ s'.(clients) = p :: s.(clients) /\ s'.(stack) = p :: s.(stack)
    /\ s'.(sel) = Some p
    /\ exists c, s'.(heap) !! p = Some c /\ c.(win) = wn
       /\ c.(isfloating) = c.(isfixed) || match (s.(srv) wn).(xw_transient_for) with
                                          | Some tr => negb (Z.eqb tr XCB_NONE)
                                          | None => false end.
Proof.
  intros I Hp Hg. destruct (runs_manage p wn s (conj I Hp)) as ([] & s' & E).
  exists s'. split; [exact E|]. eapply manage_spec; eauto.
Qed.

Lemma manage_registers_client_witness :
  reg_inv ex_s1 /\ ex_s1.(heap) !! 2%positive = None
  /\ (ex_s1.(srv) 12).(xw_geometry) = Some (5, 5, 100, 100, 1)
  /\ exists s', manage 2 12 ex_s1 = Some (tt, s')
    /\ s'.(clients) = 2%positive :: ex_s1.(clients) /\ s'.(stack) = 2%positive :: ex_s1.(stack)
    /\ s'.(sel) = Some 2%positive
    /\ exists c, s'.(heap) !! 2%positive = Some c /\ c.(win) = 12
       /\ c.(isfloating) = c.(isfixed) || match (ex_s1.(srv) 12).(xw_transient_for) with
                                          | Some tr => negb (Z.eqb tr XCB_NONE)
                                          | None => false end.
Proof.
  assert (I : reg_inv ex_s1) by exact (reachable_reg ex_s1 ex_s1_reachable).
  assert (Hp : ex_s1.(heap) !! 2%positive = None) by (vm_compute; reflexivity).
  assert (Hg : (ex_s1.(srv) 12).(xw_geometry) = Some (5, 5, 100, 100, 1))
    by (vm_compute; reflexivity).
  split; [exact I|]. split; [exact Hp|]. split; [exact Hg|].
  exact (manage_registers_client ex_s1 2 12 _ I Hp Hg).
Defined.

(** X6.  When the window's geometry cannot be read (it is already gone),
    [manage] returns right after [calloc]: the block stays allocated but is
    put on neither list and nothing else changes, so it is leaked. *)
Theorem manage_gone_window_leaks (s : wm) (p : ptr) (wn : Z) :
  s.(heap) !! p = None -> (s.(srv) wn).(xw_geometry) = None ->
  manage p wn s = Some (tt, set_heap (<[p := calloc_client wn]> s.(heap)) s).
Proof.
  intros Hp Hg. unfold manage, bind at 1, alloc. rewrite Hp.
  unfold bind, gets. simpl. rewrite Hg. reflexivity.
Qed.

Lemma manage_gone_window_leaks_witness :
  ex_s1.(heap) !! 2%positive = None /\ (ex_s1.(srv) 99).(xw_geometry) = None
  /\ manage 2 99 ex_s1 = Some (tt, set_heap (<[2%positive := calloc_client 99]> ex_s1.(heap)) ex_s1).
Proof.
  assert (Hp : ex_s1.(heap) !! 2%positive = None) by (vm_compute; reflexivity).
  assert (Hg : (ex_s1.(srv) 99).(xw_geometry) = None) by (vm_compute; reflexivity).
  split; [exact Hp|]. split; [exact Hg|]. exact (manage_gone_window_leaks ex_s1 2 99 Hp Hg).
Defined.

(** ** [resize] and the [monocle] layout *)

Lemma set_geom_same c : set_geom c (mkgeom c.(x) c.(y) c.(w) c.(h)) = c.
Proof. destruct c; reflexivity. Qed.

Lemma applysizehints_unchanged t c px py pw ph g :
  applysizehints t c px py pw ph = (g, false) -> g = mkgeom c.(x) c.(y) c.(w) c.(h).
Proof.
  unfold applysizehints. cbv zeta.
  destruct (if isfloating c then _ else _) as [a b]. intros E.
  injection E as <- E. apply orb_false_iff in E as [E E4].
  apply orb_false_iff in E as [E E3]. apply orb_false_iff in E as [E1 E2].
  apply negb_false_iff, Z.eqb_eq in E1, E2, E3, E4. rewrite E1, E2, E3, E4. reflexivity.
Qed.

(** [resize] writes the geometry [applysizehints] computes into the record
    of [p] (when nothing changes that geometry is the recorded one), and
    touches no other block, nor the screen, nor the layout. *)
Lemma resize_spec p nx ny nw nh s a s' :
  resize p nx ny nw nh s = Some (a, s') ->
  s'.(scr) = s.(scr) /\ s'.(do_arrange) = s.(do_arrange)
  /\ exists c, s.(heap) !! p = Some c
     /\ s'.(heap) = <[p := set_geom c (fst (applysizehints s.(scr) c nx ny nw nh))]> s.(heap).
Proof.
  intros H. unfold resize in H.
  apply bind_some in H as (c & s1 & H1 & H). unfold deref in H1.
  destruct (heap s !! p) as [c0|] eqn:Hp; [|discriminate]. injection H1 as <- <-.
  apply bind_some in H as (t & s2 & H2 & H). injection H2 as <- <-.
  destruct (applysizehints (scr s) c0 nx ny nw nh) as [g ch] eqn:E. destruct ch.
  - apply bind_some in H as (u & s3 & H3 & H). unfold store in H3. rewrite Hp in H3.
    injection H3 as <- <-.
    apply bind_some in H as (u4 & s4 & H4 & H). injection H4 as <- <-.
    injection H as <- <-. simpl. split; [reflexivity|]. split; [reflexivity|].
    exists c0. split; [rewrite ?Hp; reflexivity|]. rewrite E. reflexivity.
  - injection H as <- <-. split; [reflexivity|]. split; [reflexivity|].
    exists c0. split; [rewrite ?Hp; reflexivity|]. rewrite E. simpl.
    rewrite (applysizehints_unchanged _ _ _ _ _ _ _ E), set_geom_same.
    symmetry. apply insert_id, Hp.
Qed.

(** For a tiled client and the whole window area as the request,
    [applysizehints] returns that area (widths at least 1). *)
Lemma applysizehints_full t c :
  c.(isfloating) = false -> 0 <= t.(sw) -> 0 <= t.(sh) ->
  t.(wx) = t.(sx) -> t.(wy) = t.(sy) -> t.(ww) = t.(sw) -> t.(wh) = t.(sh) ->
  fst (applysizehints t c t.(wx) t.(wy) t.(ww) t.(wh))
  = mkgeom t.(sx) t.(sy) (Z.max 1 t.(sw)) (Z.max 1 t.(sh)).
Proof.
  intros Hf Hw Hh Ex Ey Ew Eh. unfold applysizehints. rewrite Hf, Ex, Ey, Ew, Eh. simpl.
  destruct (Z.gtb_spec (sx t) (sx t + sw t)); [lia|].
  destruct (Z.gtb_spec (sy t) (sy t + sh t)); [lia|].
  destruct (Z.ltb_spec (sx t + Z.max 1 (sw t)) (sx t)); [lia|].
  destruct (Z.ltb_spec (sy t + Z.max 1 (sh t)) (sy t)); [lia|].
  reflexivity.
Qed.

(** A client whose record, if tiled, has the whole screen. *)
Definition fills (t : screen_t) (q : ptr) (s : wm) : Prop :=
  exists c, s.(heap) !! q = Some c
    /\ (c.(isfloating) = false ->
        c.(x) = t.(sx) /\ c.(y) = t.(sy) /\ c.(w) = Z.max 1 t.(sw) /\ c.(h) = Z.max 1 t.(sh)).

Lemma monocle_loop_spec l s a s' :
  area_is_screen s -> 0 <= s.(scr).(sw) -> 0 <= s.(scr).(sh) ->
  monocle_loop l s = Some (a, s') ->
  s'.(scr) = s.(scr) /\ s'.(do_arrange) = s.(do_arrange)
  /\ (forall q, q ∈ l -> fills s.(scr) q s')
  /\ (forall q, fills s.(scr) q s -> fills s.(scr) q s').
Proof.
  revert s a s'. induction l as [|p l IH]; intros s a s' A Hw Hh H; simpl in H.
  - injection H as <- <-. split; [reflexivity|]. split; [reflexivity|].
    split; [|auto]. intros q Hq. apply not_elem_of_nil in Hq. contradiction.
  - apply bind_some in H as (c & s1 & H1 & H). unfold deref in H1.
    destruct (heap s !! p) as [c0|] eqn:Hp; [|discriminate]. injection H1 as <- <-.
    apply bind_some in H as (u & s2 & H2 & H).
    assert (F2 : s2.(scr) = s.(scr) /\ s2.(do_arrange) = s.(do_arrange) /\ fills s.(scr) p s2
                 /\ forall q, fills s.(scr) q s -> fills s.(scr) q s2).
    { destruct (isfloating c0) eqn:Ef.
      - injection H2 as <- <-. split; [reflexivity|]. split; [reflexivity|].
        split; [|auto]. exists c0. split; [exact Hp|]. congruence.
      - apply bind_some in H2 as (t & s3 & H3 & H2). injection H3 as <- <-.
        apply resize_spec in H2 as (S2 & L2 & c1 & Hc1 & E2).
        rewrite Hp in Hc1. injection Hc1 as <-.
        destruct A as (Ax & Ay & Aw & Ah).
        rewrite (applysizehints_full (scr s) c0 Ef Hw Hh Ax Ay Aw Ah) in E2.
        split; [exact S2|]. split; [exact L2|]. split.
        + exists (set_geom c0 (mkgeom (sx (scr s)) (sy (scr s)) (Z.max 1 (sw (scr s)))
                                  (Z.max 1 (sh (scr s))))).
          rewrite E2, lookup_insert_eq. split; [reflexivity|]. simpl. auto.
        + intros q (d & Hd & Fd). destruct (decide (q = p)) as [->|Hne].
          * exists (set_geom c0 (mkgeom (sx (scr s)) (sy (scr s)) (Z.max 1 (sw (scr s)))
                                   (Z.max 1 (sh (scr s))))).
            rewrite E2, lookup_insert_eq. split; [reflexivity|]. simpl. auto.
          * exists d. rewrite E2, lookup_insert_ne by auto. auto. }
    clear H2. destruct F2 as (S2 & L2 & P2 & Q2).
    assert (A2 : area_is_screen s2) by (unfold area_is_screen; rewrite S2; exact A).
    rewrite <- S2 in Hw, Hh.
    destruct (IH s2 a s' A2 Hw Hh H) as (S3 & L3 & P3 & Q3).
    rewrite S2 in P3, Q3.
    split; [congruence|]. split; [congruence|]. split.
    + intros q Hq. apply elem_of_cons in Hq as [->|Hq]; auto.
    + intros q Hq. auto.
Qed.

(** Neither the screen nor the layout changes. *)
Definition scr_lay (s s' : wm) : Prop :=
  s'.(scr) = s.(scr) /\ s'.(do_arrange) = s.(do_arrange).

#[global] Instance scr_lay_refl : Reflexive scr_lay.
Proof. intros s. split; reflexivity. Qed.

#[global] Instance scr_lay_trans : Transitive scr_lay.
Proof. intros s1 s2 s3 [A B] [C D]. split; congruence. Qed.

Lemma kept_sl_modify (f : wm -> wm) :
  (forall s, scr_lay s (f s)) -> kept scr_lay (modify f).
Proof. intros Hf s a s' H. injection H as <- <-. apply Hf. Qed.

Lemma kept_sl_emit r : kept scr_lay (emit r).
Proof. apply kept_sl_modify. intros s. split; reflexivity. Qed.

Lemma kept_sl_configure wn m prm : kept scr_lay (configure wn m prm).
Proof. apply kept_sl_emit. Qed.

Lemma kept_sl_configure_event c : kept scr_lay (configure_event c).
Proof. apply kept_sl_emit. Qed.

Lemma kept_sl_set_focus wn : kept scr_lay (set_focus wn).
Proof. apply kept_sl_emit. Qed.

Lemma kept_sl_setclientstate c st : kept scr_lay (setclientstate c st).
Proof. apply kept_sl_emit. Qed.

Lemma kept_sl_store p c : kept scr_lay (store p c).
Proof.
  intros s a s' H. unfold store in H. destruct (heap s !! p); [|discriminate].
  injection H as <- <-. split; reflexivity.
Qed.

Lemma kept_sl_xcb_set_wm_hints wn hs : kept scr_lay (xcb_set_wm_hints wn hs).
Proof.
  apply kept_bind; [exact _|apply kept_sl_emit|]. intros _.
  apply kept_sl_modify. intros s. split; reflexivity.
Qed.

Lemma kept_sl_detachstack p : kept scr_lay (detachstack p).
Proof.
  intros s a s' H. unfold detachstack in H. destruct (unlink p (stack s)); [|discriminate].
  injection H as <- <-. split; reflexivity.
Qed.

Lemma kept_sl_attachstack p : kept scr_lay (attachstack p).
Proof. apply kept_sl_modify. intros s. split; reflexivity. Qed.

Lemma kept_sl_set_sel o : kept scr_lay (modify (set_sel o)).
Proof. apply kept_sl_modify. intros s. split; reflexivity. Qed.

Lemma kept_sl_resize p nx ny nw nh : kept scr_lay (resize p nx ny nw nh).
Proof. intros s a s' H. apply resize_spec in H as (A & B & _). split; auto. Qed.

Create HintDb sl_db.
#[global] Hint Resolve kept_ret kept_gets kept_deref kept_ub kept_sl_emit
  kept_sl_configure kept_sl_configure_event kept_sl_set_focus kept_sl_setclientstate
  kept_sl_store kept_sl_xcb_set_wm_hints kept_sl_detachstack kept_sl_attachstack
  kept_sl_set_sel kept_sl_resize : sl_db.
#[global] Hint Extern 1 (Reflexive _) => exact _ : sl_db.

Ltac sl_tac :=
  repeat match goal with
  | |- kept _ (bind _ _) => apply kept_bind; [exact _ | | intro]
  | |- kept _ (match ?e with _ => _ end) => destruct e
  | |- kept _ _ => solve [eauto with sl_db]
  end.

Lemma kept_sl_showhide l : kept scr_lay (showhide l).
Proof. induction l; simpl; sl_tac. Qed.

Lemma kept_sl_clearurgent p : kept scr_lay (clearurgent p).
Proof. unfold clearurgent. sl_tac. Qed.
#[global] Hint Resolve kept_sl_clearurgent : sl_db.

Lemma kept_sl_focus oc : kept scr_lay (focus oc).
Proof. unfold focus. cbv zeta. sl_tac. Qed.

(** [restack] only sends requests. *)
Lemma restack_heap s a s' : restack s = Some (a, s') -> s'.(heap) = s.(heap).
Proof.
  assert (L : forall l sib s a s', restack_loop l sib s = Some (a, s') -> s'.(heap) = s.(heap)).
  { induction l as [|p l IH]; intros sib s0 a0 s1 H; simpl in H.
    - injection H as <- <-. reflexivity.
    - apply bind_some in H as (c & s2 & H2 & H). unfold deref in H2.
      destruct (heap s0 !! p) as [c0|]; [|discriminate]. injection H2 as <- <-.
      destruct (isfloating c0); [eapply IH; eauto|].
      apply bind_some in H as (u & s3 & H3 & H). injection H3 as <- <-.
      apply IH in H. exact H. }
  intros H. unfold restack in H.
  apply bind_some in H as (o & s1 & H1 & H). injection H1 as <- <-.
  destruct (sel s) as [p|]; [|injection H as <- <-; reflexivity].
  apply bind_some in H as (c & s2 & H2 & H). unfold deref in H2.
  destruct (heap s !! p) as [c0|]; [|discriminate]. injection H2 as <- <-.
  apply bind_some in H as (u & s3 & H3 & H).
  assert (E3 : heap s3 = heap s) by (destruct (isfloating c0); injection H3 as <- <-; reflexivity).
  apply bind_some in H as (l & s4 & H4 & H). injection H4 as <- <-.
  apply L in H. congruence.
Qed.

(** X7.  With the [monocle] layout and the window area equal to the screen
    (of non-negative size), [arrange] gives every tiled client the whole
    screen: its record gets the screen's origin and size (at least 1). *)
Theorem monocle_fills_screen (s s' : wm) :
  s.(do_arrange) = Monocle -> area_is_screen s -> 0 <= s.(scr).(sw) -> 0 <= s.(scr).(sh) ->
  arrange s = Some (tt, s') ->
  forall q, q ∈ s'.(clients) ->
    exists c, s'.(heap) !! q = Some c
      /\ (c.(isfloating) = false ->
          c.(x) = s.(scr).(sx) /\ c.(y) = s.(scr).(sy)
          /\ c.(w) = Z.max 1 s.(scr).(sw) /\ c.(h) = Z.max 1 s.(scr).(sh)).
Proof.
  intros L A Hw Hh H q Hq. unfold arrange in H.
  apply bind_some in H as (l & s0 & H0 & H). injection H0 as <- <-.
  apply bind_some in H as (u1 & s1 & H1 & H).
  pose proof (kept_sl_showhide _ _ _ _ H1) as [S1 L1].
  apply kept_showhide in H1 as (C1 & _).
  apply bind_some in H as (u2 & s2 & H2 & H).
  pose proof (kept_sl_focus _ _ _ _ H2) as [S2 L2].
  apply kept_focus in H2 as (C2 & _).
  apply bind_some in H as (u3 & s3 & H3 & H).
  pose proof (restack_heap _ _ _ H) as E4. apply kept_restack in H as (C4 & _).
  unfold run_layout in H3.
  apply bind_some in H3 as (lay & s5 & H5 & H3). injection H5 as <- <-.
  rewrite L2, L1, L in H3.
  apply bind_some in H3 as (cl & s6 & H6 & H3). injection H6 as <- <-.
  assert (A2 : area_is_screen s2) by (unfold area_is_screen; rewrite S2, S1; exact A).
  rewrite <- S1, <- S2 in Hw, Hh.
  destruct (monocle_loop_spec _ _ _ _ A2 Hw Hh H3) as (S3 & _ & P3 & _).
  rewrite C4 in Hq.
  assert (Hq' : q ∈ clients s2).
  { destruct (kept_monocle_loop _ _ _ _ H3) as (C3 & _). rewrite C3 in Hq. exact Hq. }
  destruct (P3 q Hq') as (c & Hc & Fc). exists c. rewrite E4. split; [exact Hc|].
  rewrite S2, S1 in Fc. exact Fc.
Qed.

Lemma kept_sl_detach p : kept scr_lay (detach p).
Proof.
  intros s a s' H. unfold detach in H. destruct (unlink p (clients s)); [|discriminate].
  injection H as <- <-. split; reflexivity.
Qed.

Lemma kept_sl_alloc p c : kept scr_lay (alloc p c).
Proof.
  intros s a s' H. unfold alloc in H. destruct (heap s !! p); [discriminate|].
  injection H as <- <-. split; reflexivity.
Qed.

Lemma kept_sl_free p : kept scr_lay (free p).
Proof. apply kept_sl_modify. intros s. split; reflexivity. Qed.

Lemma kept_sl_attach p : kept scr_lay (attach p).
Proof. apply kept_sl_modify. intros s. split; reflexivity. Qed.

Lemma kept_sl_set_srv f : kept scr_lay (modify (fun s => set_srv (f s) s)).
Proof. apply kept_sl_modify. intros s. split; reflexivity. Qed.

#[global] Hint Resolve kept_sl_showhide kept_sl_focus kept_sl_detach kept_sl_alloc
  kept_sl_free kept_sl_attach kept_sl_set_srv : sl_db.

Lemma kept_sl_monocle_loop l : kept scr_lay (monocle_loop l).
Proof. induction l; simpl; sl_tac. Qed.

Lemma kept_sl_restack_loop l sib : kept scr_lay (restack_loop l sib).
Proof. revert sib; induction l; intros; simpl; sl_tac. Qed.

Lemma kept_sl_getclient_loop l wn : kept scr_lay (getclient_loop l wn).
Proof. induction l; simpl; sl_tac. Qed.

#[global] Hint Resolve kept_sl_monocle_loop kept_sl_restack_loop kept_sl_getclient_loop
  : sl_db.

Lemma kept_sl_arrange : kept scr_lay arrange.
Proof. unfold arrange, run_layout, restack. sl_tac. Qed.

Lemma kept_sl_getclient wn : kept scr_lay (getclient wn).
Proof. unfold getclient. sl_tac. Qed.

Lemma kept_sl_updatesizehints p : kept scr_lay (updatesizehints p).
Proof. unfold updatesizehints. sl_tac. Qed.

#[global] Hint Resolve kept_sl_arrange kept_sl_getclient kept_sl_updatesizehints : sl_db.

Lemma kept_sl_unmanage p : kept scr_lay (unmanage p).
Proof. unfold unmanage. sl_tac. Qed.

Lemma kept_sl_manage p wn : kept scr_lay (manage p wn).
Proof. unfold manage. cbv zeta. sl_tac. Qed.

Lemma kept_sl_updatewmhints p b : kept scr_lay (updatewmhints p b).
Proof. unfold updatewmhints. sl_tac. Qed.

Lemma kept_sl_check_refloat p : kept scr_lay (check_refloat p).
Proof. unfold check_refloat. cbv zeta. sl_tac. Qed.

Lemma kept_sl_configurerequest e : kept scr_lay (configurerequest e).
Proof. unfold configurerequest. cbv zeta. sl_tac. Qed.

#[global] Hint Resolve kept_sl_unmanage kept_sl_manage kept_sl_updatewmhints
  kept_sl_check_refloat kept_sl_configurerequest : sl_db.

Lemma area_scr_lay s s' : scr_lay s s' -> area_is_screen s -> area_is_screen s'.
Proof. intros [E _]. unfold area_is_screen. rewrite E. auto. Qed.

Lemma configurenotify_area wn wd ht :
  hoare area_is_screen (configurenotify wn wd ht) area_is_screen.
Proof.
  unfold configurenotify.
  apply (hoare_bind _ area_is_screen);
    [refine (hoare_kept scr_lay _ _ _ area_scr_lay); sl_tac|intros r].
  apply (hoare_bind _ area_is_screen);
    [refine (hoare_kept scr_lay _ _ _ area_scr_lay); sl_tac|intros t].
  destruct (_ && _); [|apply hoare_ret; auto].
  apply (hoare_bind _ (fun _ => True)); [intros ? ? ? ? ?; exact Logic.I|intros _].
  apply (hoare_bind _ area_is_screen).
  - intros s0 a s1 _ H. injection H as <- <-. unfold area_is_screen. simpl. auto.
  - intros _. refine (hoare_kept scr_lay _ _ _ area_scr_lay). sl_tac.
Qed.

Lemma handle_area ev p b : hoare area_is_screen (handle ev p b) area_is_screen.
Proof.
  destruct ev; simpl; try apply configurenotify_area;
    refine (hoare_kept scr_lay _ _ _ area_scr_lay);
    unfold destroynotify, unmapnotify, enternotify, focusin, maprequest, propertynotify;
    sl_tac.
Qed.

Lemma cleanup_step_area : hoare area_is_screen cleanup_step area_is_screen.
Proof.
  unfold cleanup_step. apply (hoare_bind _ area_is_screen).
  - intros s a s' A H. injection H as <- <-. exact A.
  - intros _. refine (hoare_kept scr_lay _ _ _ area_scr_lay). sl_tac.
Qed.

Lemma reachable_area s : reachable s -> area_is_screen s.
Proof.
  induction 1 as [r width height f|s s' _ IH St].
  - unfold area_is_screen. simpl. auto.
  - destruct St as [ev p b s s' H|p wn s s' H|s s' H|f s].
    + eapply handle_area; eauto.
    + eapply area_scr_lay; [|exact IH]. eapply kept_sl_manage; eauto.
    + eapply cleanup_step_area; eauto.
    + exact IH.
Qed.

Lemma monocle_fills_screen_witness :
  ex_s1.(do_arrange) = Monocle /\ area_is_screen ex_s1 /\ 0 <= ex_s1.(scr).(sw)
  /\ 0 <= ex_s1.(scr).(sh) /\ arrange ex_s1 = Some (tt, ex_s1_arranged)
  /\ forall q, q ∈ ex_s1_arranged.(clients) ->
    exists c, ex_s1_arranged.(heap) !! q = Some c
      /\ (c.(isfloating) = false ->
          c.(x) = ex_s1.(scr).(sx) /\ c.(y) = ex_s1.(scr).(sy)
          /\ c.(w) = Z.max 1 ex_s1.(scr).(sw) /\ c.(h) = Z.max 1 ex_s1.(scr).(sh)).
Proof.
  assert (L : ex_s1.(do_arrange) = Monocle) by (vm_compute; reflexivity).
  assert (A : area_is_screen ex_s1) by (vm_compute; auto).
  assert (Hw : 0 <= ex_s1.(scr).(sw)) by (vm_compute; discriminate).
  assert (Hh : 0 <= ex_s1.(scr).(sh)) by (vm_compute; discriminate).
  assert (E : arrange ex_s1 = Some (tt, ex_s1_arranged)) by (vm_compute; reflexivity).
  split; [exact L|]. split; [exact A|]. split; [exact Hw|]. split; [exact Hh|].
  split; [exact E|]. exact (monocle_fills_screen ex_s1 ex_s1_arranged L A Hw Hh E).
Defined.

(** X8.  In every reachable state the window area [wx, wy, ww, wh] is the
    whole screen [sx, sy, sw, sh]: [setup] and [updategeom] set it so, and
    nothing else changes the screen. *)
Theorem window_area_is_screen (s : wm) :
  reachable s ->
  s.(scr).(wx) = s.(scr).(sx) /\ s.(scr).(wy) = s.(scr).(sy)
  /\ s.(scr).(ww) = s.(scr).(sw) /\ s.(scr).(wh) = s.(scr).(sh).
Proof. intros R. exact (reachable_area s R). Qed.

Lemma window_area_is_screen_witness :
  reachable ex_s1
  /\ (ex_s1.(scr).(wx) = ex_s1.(scr).(sx) /\ ex_s1.(scr).(wy) = ex_s1.(scr).(sy)
      /\ ex_s1.(scr).(ww) = ex_s1.(scr).(sw) /\ ex_s1.(scr).(wh) = ex_s1.(scr).(sh)).
Proof. split; [exact ex_s1_reachable|]. exact (window_area_is_screen ex_s1 ex_s1_reachable). Defined.

(** X9.  The initial geometry [manage] records: the size, the border width
    and the window are the ones read from the server; a window of exactly
    the screen's size is put at the screen's origin; otherwise it is moved
    so that its left and top edges are on the screen, and so that its right
    (bottom) edge is on the screen too whenever its width (height) fits. *)
Theorem initial_client_on_screen (t : screen_t) (c : client_t) (gx0 gy0 gw0 gh0 gbw : Z) :
  let c' := initial_client t c (gx0, gy0, gw0, gh0, gbw) in
  c'.(w) = gw0 /\ c'.(h) = gh0 /\ c'.(oldbw) = gbw /\ c'.(win) = c.(win)
  /\ (gw0 = t.(sw) -> gh0 = t.(sh) -> c'.(x) = t.(sx) /\ c'.(y) = t.(sy))
  /\ t.(sx) <= c'.(x) /\ t.(sy) <= c'.(y)
  /\ (gw0 <= t.(sw) -> c'.(x) + gw0 <= t.(sx) + t.(sw))
  /\ (gh0 <= t.(sh) -> c'.(y) + gh0 <= t.(sy) + t.(sh)).
Proof.
  cbv zeta. unfold initial_client.
  destruct (Z.eqb_spec gw0 (sw t)), (Z.eqb_spec gh0 (sh t)); simpl.
  - repeat split; try reflexivity; lia.
  - repeat split; try reflexivity; try (intros; lia);
      destruct (Z.gtb_spec (gx0 + gw0) (sx t + sw t)), (Z.gtb_spec (gy0 + gh0) (sy t + sh t));
      lia.
  - repeat split; try reflexivity; try (intros; lia);
      destruct (Z.gtb_spec (gx0 + gw0) (sx t + sw t)), (Z.gtb_spec (gy0 + gh0) (sy t + sh t));
      lia.
  - repeat split; try reflexivity; try (intros; lia);
      destruct (Z.gtb_spec (gx0 + gw0) (sx t + sw t)), (Z.gtb_spec (gy0 + gh0) (sy t + sh t));
      lia.
Qed.

Lemma pack_list_bits (n : nat) (mask : Z) (src : list (option Z)) (k : nat) :
  pack_list n mask src
  = map snd (List.filter (fun iv => Z.testbit mask (Z.of_nat (fst iv) - Z.of_nat k))
                         (combine (seq k n) src)).
Proof.
  revert mask src k. induction n as [|n IH]; intros mask src k; [reflexivity|].
  destruct src as [|v src]; [simpl; destruct (seq (S k) n); reflexivity|].
  simpl. rewrite (IH (Z.shiftr mask 1) src (S k)).
  rewrite Z.sub_diag, Z.bit0_odd.
  assert (E : List.filter (fun iv => Z.testbit (Z.shiftr mask 1) (Z.of_nat (fst iv) - Z.of_nat (S k)))
                (combine (seq (S k) n) src)
              = List.filter (fun iv => Z.testbit mask (Z.of_nat (fst iv) - Z.of_nat k))
                (combine (seq (S k) n) src)).
  { apply filter_ext_in. intros [i v'] Hi. simpl.
    apply in_combine_l, in_seq in Hi.
    rewrite Z.shiftr_spec by lia. f_equal. lia. }
  rewrite E. destruct (Z.odd mask); reflexivity.
Qed.

(** X10.  The value list [configure] sends (built by [pack_list]) holds,
    in order, exactly the parameters whose bit is set among the seven low
    bits of the mask: x, y, width, height, border width, sibling, stack
    mode. *)
Theorem pack_cfg_selects_masked (mask : Z) (p : cfg_params) :
  pack_cfg mask p
  = map snd (List.filter (fun iv => Z.testbit mask (Z.of_nat (fst iv)))
                         (combine (seq 0 7) (cfg_fields p))).
Proof.
  unfold pack_cfg. rewrite (pack_list_bits 7 mask (cfg_fields p) 0).
  f_equal; try (apply filter_ext; intros [i v]; simpl; rewrite Z.sub_0_r; reflexivity).
Qed.

Lemma getclient_loop_first l wn s :
  allocd l s ->
  exists o, getclient_loop l wn s = Some (o, s)
    /\ match o with
       | None => forall q c, q ∈ l -> s.(heap) !! q = Some c -> c.(win) <> wn
       | Some p => exists l1 l2 c, l = l1 ++ p :: l2 /\ s.(heap) !! p = Some c
                   /\ c.(win) = wn
                   /\ forall q c', q ∈ l1 -> s.(heap) !! q = Some c' -> c'.(win) <> wn
       end.
Proof.
  induction l as [|q l IH]; intros A.
  - exists None. split; [reflexivity|]. intros q c Hq. apply not_elem_of_nil in Hq. contradiction.
  - assert (Hq : q ∈ dom (heap s)) by (apply A, list_elem_of_here).
    apply elem_of_dom in Hq as [c Hc]. simpl. unfold bind at 1, deref. rewrite Hc.
    destruct (Z.eqb_spec (win c) wn) as [Ew|Ew].
    + exists (Some q). split; [reflexivity|]. exists [], l, c. repeat split; auto.
      intros q' c' Hq'. apply not_elem_of_nil in Hq'. contradiction.
    + destruct IH as (o & Eo & Ho).
      { intros q' Hq'. apply A, list_elem_of_further, Hq'. }
      exists o. split; [exact Eo|]. destruct o as [p|].
      * destruct Ho as (l1 & l2 & c' & El & Hp & Wp & Hl1).
        exists (q :: l1), l2, c'. rewrite El. repeat split; auto.
        intros q' c'' Hq' Hc''. apply elem_of_cons in Hq' as [->|Hq'].
        -- rewrite Hc in Hc''. injection Hc'' as <-. exact Ew.
        -- eauto.
      * intros q' c' Hq' Hc'. apply elem_of_cons in Hq' as [->|Hq'].
        -- rewrite Hc in Hc'. injection Hc' as <-. exact Ew.
        -- eauto.
Qed.

(** X11.  [getclient] changes nothing and finds the first client on
    [clients] whose record holds the window, or none when no client's
    does. *)
Theorem getclient_first_match (s : wm) (wn : Z) :
  reg_inv s ->
  exists o, getclient wn s = Some (o, s)
    /\ match o with
       | None => forall q c, q ∈ s.(clients) -> s.(heap) !! q = Some c -> c.(win) <> wn
       | Some p => exists l1 l2 c, s.(clients) = l1 ++ p :: l2 /\ s.(heap) !! p = Some c
                   /\ c.(win) = wn
                   /\ forall q c', q ∈ l1 -> s.(heap) !! q = Some c' -> c'.(win) <> wn
       end.
Proof.
  intros I. unfold getclient, bind at 1, gets.
  exact (getclient_loop_first (clients s) wn s (reg_allocd_clients s I)).
Qed.

(** X12.  [focus(c)] for a client on [stack] runs without undefined
    behaviour: it moves [c] to the front of [stack] (the others keep
    their order), makes it Selected, clears its urgency flag, and its last
    request gives the input focus to [c]'s window. *)
Theorem focus_selects_client (s : wm) (p : ptr) :
  reg_inv s -> p ∈ s.(stack) ->
  exists s', focus (Some p) s = Some (tt, s')
    /\ s'.(stack) = p :: filter (fun q => q <> p) s.(stack)
    /\ s'.(clients) = s.(clients) /\ s'.(sel) = Some p
    /\ exists c, s'.(heap) !! p = Some c /\ c.(isurgent) = false
       /\ last s'.(out) = Some (RSetInputFocus c.(win)).
Proof.
  intros I Hp.
  destruct (runs_focus (Some p) s (conj (reg_allocd_stack s I) Hp)) as ([] & s' & E).
  exists s'. split; [exact E|].
  unfold focus in E.
  apply bind_some in E as (st & s0 & E0 & E). injection E0 as <- <-.
  apply bind_some in E as (u & s1 & E1 & E2). unfold modify in E2. injection E2 as <-.
  simpl in E1.
  apply bind_some in E1 as (c & s2 & Hc & E1). unfold deref in Hc.
  destruct (heap s !! p) as [c0|] eqn:Hc0; [|discriminate]. injection Hc as <- <-.
  apply bind_some in E1 as (u1 & s3 & Hu & E1).
  assert (F3 : frame s s3 /\ exists c3, heap s3 !! p = Some c3 /\ isurgent c3 = false
                                       /\ win c3 = win c0).
  { destruct (isurgent c0) eqn:Eu.
    - split; [eapply kept_clearurgent; eauto|].
      unfold clearurgent in Hu.
      apply bind_some in Hu as (c1 & s4 & H4 & Hu). unfold deref in H4. rewrite Hc0 in H4.
      injection H4 as <- <-.
      apply bind_some in Hu as (u5 & s5 & H5 & Hu). unfold store in H5. rewrite Hc0 in H5.
      injection H5 as <- <-.
      apply bind_some in Hu as (f & s6 & H6 & Hu). injection H6 as <- <-.
      assert (Eh : heap s3 = <[p := set_urgent c0 false]> (heap s)).
      { destruct (xw_wm_hints _); [|injection Hu as <- <-; reflexivity].
        unfold xcb_set_wm_hints in Hu. apply bind_some in Hu as (u7 & s7 & H7 & Hu).
        injection H7 as <- <-. injection Hu as <- <-. reflexivity. }
      exists (set_urgent c0 false). rewrite Eh, lookup_insert_eq. auto.
    - injection Hu as <- <-. split; [reflexivity|]. exists c0. auto. }
  clear Hu. destruct F3 as ((Fc & Fs & _) & c3 & H3 & U3 & W3).
  apply bind_some in E1 as (u2 & s4 & Hd & E1). unfold detachstack in Hd.
  destruct (unlink p (stack s3)) as [l|] eqn:Eu; [|discriminate]. injection Hd as <- <-.
  apply bind_some in E1 as (u3 & s5 & Ha & E1). injection Ha as <- <-.
  injection E1 as <- <-. simpl. rewrite Fs in Eu.
  apply unlink_filter in Eu; [|exact (inv_nodup_stack s I)].
  split; [rewrite Eu; reflexivity|]. split; [exact Fc|]. split; [reflexivity|].
  exists c3. split; [exact H3|]. split; [exact U3|]. rewrite last_app, W3. reflexivity.
Qed.

(** X13.  When a window's WM_NORMAL_HINTS cannot be read, [updatesizehints]
    records no constraint: the client is not fixed-size, and
    [applysizehints] then keeps any requested size (at least 1), floating
    or not. *)
Theorem updatesizehints_without_hints (s : wm) (p : ptr) (c : client_t) :
  s.(heap) !! p = Some c -> (s.(srv) c.(win)).(xw_normal_hints) = None ->
  exists s', updatesizehints p s = Some (tt, s')
    /\ exists c', s'.(heap) !! p = Some c' /\ c'.(win) = c.(win)
       /\ c'.(isfloating) = c.(isfloating) /\ c'.(isfixed) = false
       /\ forall t px py pw ph,
            (fst (applysizehints t c' px py pw ph)).(gw) = Z.max 1 pw
            /\ (fst (applysizehints t c' px py pw ph)).(gh) = Z.max 1 ph.
Proof.
  intros Hc Hn. unfold updatesizehints, bind at 1, deref. rewrite Hc.
  unfold bind, gets, store. rewrite Hc, Hn. eexists. split; [reflexivity|].
  eexists. simpl. rewrite lookup_insert_eq. split; [reflexivity|].
  split; [reflexivity|]. split; [reflexivity|]. split; [reflexivity|].
  intros t px py pw ph. unfold applysizehints. simpl.
  destruct (isfloating c); simpl; [|split; reflexivity].
  unfold icccm_constrain. simpl. split; lia.
Qed.

(** X14.  A floating client's width, as [applysizehints] computes it, is
    at least its minimum width whenever the maximum is unset or not below
    the minimum, and at most its maximum when one is set; so a fixed-size
    floating client ([minw = maxw <> 0]) always gets exactly its size.
    Likewise for heights. *)
Theorem applysizehints_floating_bounds (t : screen_t) (c : client_t) (px py pw ph : Z) :
  c.(isfloating) = true ->
  let g := fst (applysizehints t c px py pw ph) in
  ((c.(maxw) = 0 \/ c.(minw) <= c.(maxw)) -> c.(minw) <= g.(gw))
  /\ (c.(maxw) <> 0 -> g.(gw) <= c.(maxw))
  /\ ((c.(maxh) = 0 \/ c.(minh) <= c.(maxh)) -> c.(minh) <= g.(gh))
  /\ (c.(maxh) <> 0 -> g.(gh) <= c.(maxh))
  /\ (c.(minw) = c.(maxw) -> c.(maxw) <> 0 -> g.(gw) = c.(maxw))
  /\ (c.(minh) = c.(maxh) -> c.(maxh) <> 0 -> g.(gh) = c.(maxh)).
Proof.
  intros Hf. cbv zeta. unfold applysizehints. rewrite Hf. cbv zeta.
  unfold icccm_constrain. cbv zeta.
  destruct (if negb _ then _ else _) as [a1 b1].
  destruct (if flt _ _ && flt _ _ then _ else _) as [a2 b2].
  destruct (if (basew c =? minw c) && (baseh c =? minh c) then _ else _) as [a3 b3].
  simpl.
  destruct (Z.eqb_spec (maxw c) 0), (Z.eqb_spec (maxh c) 0); simpl;
    repeat split; intros; lia.
Qed.

(** X15.  [scan] manages exactly the viewable, non-override-redirect
    children of the root whose WM_HINTS can be read and do not ask for the
    iconic state: first those without WM_TRANSIENT_FOR, then those with
    it, each group in the order the X server lists the children. *)
Theorem scan_order_spec (children : list Z) (info : Z -> scan_reply) :
  let eligible := fun wn =>
    match (info wn).(sr_attributes) with
    | Some (false, map_state) =>
        Z.eqb map_state XCB_MAP_STATE_VIEWABLE
        && match (info wn).(sr_initial_state) with
           | Some st => negb (Z.eqb st XCB_WM_STATE_ICONIC)
           | None => false
           end
    | _ => false
    end in
  scan_order children info
  = List.filter (fun wn => eligible wn && match (info wn).(sr_transient_for) with Some _ => false | None => true end) children
    ++ List.filter (fun wn => eligible wn && match (info wn).(sr_transient_for) with Some _ => true | None => false end) children.
Proof.
  cbv zeta. unfold scan_order.
  enough (E : forall l, scan_loop l info =
    (List.filter (fun wn => match (info wn).(sr_attributes) with
        | Some (false, map_state) => Z.eqb map_state XCB_MAP_STATE_VIEWABLE
            && match (info wn).(sr_initial_state) with
               | Some st => negb (Z.eqb st XCB_WM_STATE_ICONIC) | None => false end
        | _ => false end && match (info wn).(sr_transient_for) with Some _ => false | None => true end) l,
     List.filter (fun wn => match (info wn).(sr_attributes) with
        | Some (false, map_state) => Z.eqb map_state XCB_MAP_STATE_VIEWABLE
            && match (info wn).(sr_initial_state) with
               | Some st => negb (Z.eqb st XCB_WM_STATE_ICONIC) | None => false end
        | _ => false end && match (info wn).(sr_transient_for) with Some _ => true | None => false end) l)).
  { rewrite E. reflexivity. }
  induction l as [|wn l IH]; [reflexivity|].
  simpl. rewrite IH.
  destruct (sr_attributes (info wn)) as [[[] ms]|]; simpl; try reflexivity.
  destruct (Z.eqb ms XCB_MAP_STATE_VIEWABLE); simpl; try reflexivity.
  destruct (sr_initial_state (info wn)) as [st|]; simpl; try reflexivity.
  destruct (Z.eqb st XCB_WM_STATE_ICONIC); simpl; try reflexivity.
  destruct (sr_transient_for (info wn)); reflexivity.
Qed.

(** X16.  [check_refloat] on a managed client runs without undefined
    behaviour and keeps the client's window; if the window has no readable
    WM_TRANSIENT_FOR it changes nothing, otherwise the client ends up
    floating exactly when some managed client has the window it is
    transient for. *)
Theorem check_refloat_follows_transient (s : wm) (p : ptr) (c : client_t) :
  reg_inv s -> p ∈ s.(clients) -> s.(heap) !! p = Some c ->
  exists s', check_refloat p s = Some (tt, s')
    /\ match (s.(srv) c.(win)).(xw_transient_for) with
       | None => s' = s
       | Some tr => exists c', s'.(heap) !! p = Some c' /\ c'.(win) = c.(win)
           /\ (c'.(isfloating) = true
               <-> exists q d, q ∈ s.(clients) /\ s.(heap) !! q = Some d /\ d.(win) = tr)
       end.
Proof.
  intros I Hp Hc.
  destruct (runs_check_refloat p s (conj I Hp)) as ([] & s' & E).
  exists s'. split; [exact E|].
  unfold check_refloat in E. cbv zeta in E.
  apply bind_some in E as (c0 & s1 & E1 & E). unfold deref in E1. rewrite Hc in E1.
  injection E1 as <- <-.
  apply bind_some in E as (f & s2 & E2 & E). injection E2 as <- <-.
  destruct (xw_transient_for (srv s (win c))) as [tr|].
  2: { injection E as <-. reflexivity. }
  apply bind_some in E as (o & s3 & E3 & E).
  destruct (getclient_loop_first (clients s) tr s (reg_allocd_clients s I)) as (o' & Eo & Ho).
  unfold getclient, bind at 1, gets in E3. simpl in E3. rewrite Eo in E3.
  injection E3 as <- <-.
  apply bind_some in E as (u & s4 & E4 & E). unfold store in E4. rewrite Hc in E4.
  injection E4 as <- <-.
  set (nf := match o' with Some _ => true | None => false end) in E.
  assert (R : recs (set_heap (<[p:=set_floating c nf]> (heap s)) s) s').
  { destruct (Bool.eqb nf (isfloating c)).
    - injection E as <-. reflexivity.
    - eapply kept_recs_arrange; eauto. }
  destruct (R p (set_floating c nf)) as (c' & H' & W' & F' & _).
  { simpl. apply lookup_insert_eq. }
  exists c'. split; [exact H'|]. split; [exact W'|].
  rewrite F'. simpl. unfold nf. destruct o' as [q|].
  - split; [intros _|reflexivity].
    destruct Ho as (l1 & l2 & d & El & Hd & Wd & _). exists q, d. split; [|auto].
    rewrite El. apply elem_of_app. right. apply list_elem_of_here.
  - split; [discriminate|]. intros (q & d & Hq & Hd & Wd). exfalso. exact (Ho q d Hq Hd Wd).
Qed.

(** X17.  A ConfigureRequest for a managed client's window that carries
    the border-width bit, or that is for a tiled client, changes no state
    of the manager: it only sends requests, namely a border width of 0 if
    a non-zero border width was asked for (nothing otherwise), and for a
    tiled client without the bit a synthetic ConfigureNotify with the
    geometry the client already has. *)
Theorem configurerequest_managed_unchanged (s : wm) (e : cfgreq) (p : ptr) (c : client_t) :
  getclient e.(cr_window) s = Some (Some p, s) -> s.(heap) !! p = Some c ->
  flag e.(cr_value_mask) XCB_CONFIG_WINDOW_BORDER_WIDTH = true \/ c.(isfloating) = false ->
  configurerequest e s
  = Some (tt, set_out (s.(out)
      ++ if flag e.(cr_value_mask) XCB_CONFIG_WINDOW_BORDER_WIDTH then
           if Z.eqb e.(cr_border_width) 0 then []
           else [RConfigureWindow c.(win) XCB_CONFIG_WINDOW_BORDER_WIDTH [Some 0]]
         else [RSendConfigureNotify c.(win) c.(x) c.(y) c.(w) c.(h)]) s).
Proof.
  intros Hg Hc Hm. unfold configurerequest. rewrite (bind_run _ _ _ _ _ Hg).
  unfold bind at 1, deref. rewrite Hc.
  destruct (flag (cr_value_mask e) XCB_CONFIG_WINDOW_BORDER_WIDTH).
  - destruct (Z.eqb (cr_border_width e) 0); simpl.
    + rewrite app_nil_r. destruct s; reflexivity.
    + reflexivity.
  - destruct Hm as [Hm|Hm]; [discriminate|]. rewrite Hm. reflexivity.
Qed.

(** X18.  [enternotify] runs without undefined behaviour from a state
    with the registry invariant.  A crossing that is not of mode Normal, or
    comes from an inferior window, is ignored unless it is on the root
    window.  Otherwise, if a managed client has the window, that client
    becomes Selected and the head of [stack]; if none has it, Selected
    becomes the head of [stack], which is left as it was. *)
Theorem enternotify_focuses_entered (s : wm) (mode detail ev : Z) :
  reg_inv s ->
  exists s', enternotify mode detail ev s = Some (tt, s')
    /\ ((mode <> XCB_NOTIFY_MODE_NORMAL \/ detail = XCB_NOTIFY_DETAIL_INFERIOR) ->
        ev <> s.(root) -> s' = s)
    /\ ((mode = XCB_NOTIFY_MODE_NORMAL /\ detail <> XCB_NOTIFY_DETAIL_INFERIOR)
        \/ ev = s.(root) ->
        exists o, getclient ev s = Some (o, s)
          /\ match o with
             | Some p => s'.(sel) = Some p /\ head s'.(stack) = Some p
             | None => s'.(sel) = head s.(stack) /\ s'.(stack) = s.(stack)
             end).
Proof.
  intros I. destruct (runs_enternotify mode detail ev s I) as ([] & s' & E).
  exists s'. split; [exact E|].
  unfold enternotify in E. unfold bind at 1, gets in E.
  destruct (Z.eqb_spec mode XCB_NOTIFY_MODE_NORMAL) as [Em|Em],
           (Z.eqb_spec detail XCB_NOTIFY_DETAIL_INFERIOR) as [Ed|Ed],
           (Z.eqb_spec ev (root s)) as [Er|Er]; simpl in E;
  try (injection E as <-; split; [reflexivity|]; intros [[? ?]|?]; contradiction).
  all: split; [intros [?|?] ?; contradiction|intros _].
  all: apply bind_some in E as (o & s1 & Eo & E);
       pose proof (getclient_found _ _ _ _ Eo) as [-> _];
       exists o; split; [exact Eo|];
       destruct (focus_spec o s tt s' E) as (_ & Hsel & Hst);
       pose proof (focus_sel_head o s tt s' E) as Hh; unfold sel_head in Hh;
       destruct o as [p|]; [split; [exact Hsel|rewrite <- Hh; exact Hsel]
                           |split; [exact Hsel|apply Hst; reflexivity]].
Qed.

(** X19.  [maprequest] never manages an override-redirect window, a
    window whose attributes cannot be read, or a window a client already
    has: for such a window it changes nothing. *)
Theorem maprequest_ignores (s : wm) (wn : Z) (p : ptr) :
  reg_inv s ->
  (s.(srv) wn).(xw_override_redirect) <> Some false
  \/ (exists q d, q ∈ s.(clients) /\ s.(heap) !! q = Some d /\ d.(win) = wn) ->
  maprequest wn p s = Some (tt, s).
Proof.
  intros I H. unfold maprequest, bind at 1, gets.
  destruct (xw_override_redirect (srv s wn)) as [[]|] eqn:Eo; try reflexivity.
  destruct H as [H|(q & d & Hq & Hd & Wd)]; [contradiction|].
  destruct (getclient_loop_first (clients s) wn s (reg_allocd_clients s I)) as (o & Eg & Ho).
  assert (Eg' : getclient wn s = Some (o, s)) by exact Eg.
  rewrite (bind_run _ _ _ _ _ Eg').
  destruct o as [r|]; [reflexivity|]. exfalso. exact (Ho q d Hq Hd Wd).
Qed.

(** ** Witnesses of the extra properties *)

Lemma ex_s2_reg : reg_inv ex_s2.
Proof.
  apply reachable_reg. apply (reach_step ex_s1); [exact ex_s1_reachable|].
  apply (step_event (MapRequest 11) 2 false). vm_compute. reflexivity.
Qed.

Lemma ex_s5_reg : reg_inv ex_s5.
Proof.
  apply reachable_reg. apply (reach_step ex_s3); [exact ex_s3_reachable|].
  apply step_server.
Qed.

Lemma getclient_first_match_witness :
  reg_inv ex_s2
  /\ exists o, getclient 11 ex_s2 = Some (o, ex_s2)
    /\ match o with
       | None => forall q c, q ∈ ex_s2.(clients) -> ex_s2.(heap) !! q = Some c -> c.(win) <> 11
       | Some p => exists l1 l2 c, ex_s2.(clients) = l1 ++ p :: l2
                   /\ ex_s2.(heap) !! p = Some c /\ c.(win) = 11
                   /\ forall q c', q ∈ l1 -> ex_s2.(heap) !! q = Some c' -> c'.(win) <> 11
       end.
Proof. split; [exact ex_s2_reg|]. exact (getclient_first_match ex_s2 11 ex_s2_reg). Defined.

Lemma focus_selects_client_witness :
  reg_inv ex_s2 /\ 1%positive ∈ ex_s2.(stack)
  /\ exists s', focus (Some 1%positive) ex_s2 = Some (tt, s')
    /\ s'.(stack) = 1%positive :: filter (fun q => q <> 1%positive) ex_s2.(stack)
    /\ s'.(clients) = ex_s2.(clients) /\ s'.(sel) = Some 1%positive
    /\ exists c, s'.(heap) !! 1%positive = Some c /\ c.(isurgent) = false
       /\ last s'.(out) = Some (RSetInputFocus c.(win)).
Proof.
  assert (Hp : 1%positive ∈ ex_s2.(stack))
    by (vm_compute; apply list_elem_of_further, list_elem_of_here).
  split; [exact ex_s2_reg|]. split; [exact Hp|].
  exact (focus_selects_client ex_s2 1 ex_s2_reg Hp).
Defined.

Lemma updatesizehints_without_hints_witness :
  ex_s1.(heap) !! 1%positive = Some ex_c1
  /\ (ex_s1.(srv) ex_c1.(win)).(xw_normal_hints) = None
  /\ exists s', updatesizehints 1 ex_s1 = Some (tt, s')
    /\ exists c', s'.(heap) !! 1%positive = Some c' /\ c'.(win) = ex_c1.(win)
       /\ c'.(isfloating) = ex_c1.(isfloating) /\ c'.(isfixed) = false
       /\ forall t px py pw ph,
            (fst (applysizehints t c' px py pw ph)).(gw) = Z.max 1 pw
            /\ (fst (applysizehints t c' px py pw ph)).(gh) = Z.max 1 ph.
Proof.
  assert (Hc : ex_s1.(heap) !! 1%positive = Some ex_c1) by (vm_compute; reflexivity).
  assert (Hn : (ex_s1.(srv) ex_c1.(win)).(xw_normal_hints) = None) by (vm_compute; reflexivity).
  split; [exact Hc|]. split; [exact Hn|].
  exact (updatesizehints_without_hints ex_s1 1 ex_c1 Hc Hn).
Defined.

Lemma applysizehints_floating_bounds_witness :
  ex_c3.(isfloating) = true
  /\ let g := fst (applysizehints ex_screen ex_c3 3 4 40 250) in
  ((ex_c3.(maxw) = 0 \/ ex_c3.(minw) <= ex_c3.(maxw)) -> ex_c3.(minw) <= g.(gw))
  /\ (ex_c3.(maxw) <> 0 -> g.(gw) <= ex_c3.(maxw))
  /\ ((ex_c3.(maxh) = 0 \/ ex_c3.(minh) <= ex_c3.(maxh)) -> ex_c3.(minh) <= g.(gh))
  /\ (ex_c3.(maxh) <> 0 -> g.(gh) <= ex_c3.(maxh))
  /\ (ex_c3.(minw) = ex_c3.(maxw) -> ex_c3.(maxw) <> 0 -> g.(gw) = ex_c3.(maxw))
  /\ (ex_c3.(minh) = ex_c3.(maxh) -> ex_c3.(maxh) <> 0 -> g.(gh) = ex_c3.(maxh)).
Proof.
  assert (Hf : ex_c3.(isfloating) = true) by (vm_compute; reflexivity).
  split; [exact Hf|]. exact (applysizehints_floating_bounds ex_screen ex_c3 3 4 40 250 Hf).
Defined.

Lemma check_refloat_follows_transient_witness :
  reg_inv ex_s5 /\ 1%positive ∈ ex_s5.(clients) /\ ex_s5.(heap) !! 1%positive = Some ex_c3
  /\ exists s', check_refloat 1 ex_s5 = Some (tt, s')
    /\ match (ex_s5.(srv) ex_c3.(win)).(xw_transient_for) with
       | None => s' = ex_s5
       | Some tr => exists c', s'.(heap) !! 1%positive = Some c' /\ c'.(win) = ex_c3.(win)
           /\ (c'.(isfloating) = true
               <-> exists q d, q ∈ ex_s5.(clients) /\ ex_s5.(heap) !! q = Some d /\ d.(win) = tr)
       end.
Proof.
  assert (Hp : 1%positive ∈ ex_s5.(clients)) by (vm_compute; apply list_elem_of_here).
  assert (Hc : ex_s5.(heap) !! 1%positive = Some ex_c3) by (vm_compute; reflexivity).
  split; [exact ex_s5_reg|]. split; [exact Hp|]. split; [exact Hc|].
  exact (check_refloat_follows_transient ex_s5 1 ex_c3 ex_s5_reg Hp Hc).
Defined.

Lemma configurerequest_managed_unchanged_witness :
  getclient ex_move_bw.(cr_window) ex_s3 = Some (Some 1%positive, ex_s3)
  /\ ex_s3.(heap) !! 1%positive = Some ex_c3
  /\ configurerequest ex_move_bw ex_s3
     = Some (tt, set_out (ex_s3.(out)
         ++ if flag ex_move_bw.(cr_value_mask) XCB_CONFIG_WINDOW_BORDER_WIDTH then
              if Z.eqb ex_move_bw.(cr_border_width) 0 then []
              else [RConfigureWindow ex_c3.(win) XCB_CONFIG_WINDOW_BORDER_WIDTH [Some 0]]
            else [RSendConfigureNotify ex_c3.(win) ex_c3.(x) ex_c3.(y) ex_c3.(w) ex_c3.(h)])
         ex_s3).
Proof.
  assert (Hg : getclient ex_move_bw.(cr_window) ex_s3 = Some (Some 1%positive, ex_s3))
    by (vm_compute; reflexivity).
  assert (Hc : ex_s3.(heap) !! 1%positive = Some ex_c3) by (vm_compute; reflexivity).
  assert (Hm : flag ex_move_bw.(cr_value_mask) XCB_CONFIG_WINDOW_BORDER_WIDTH = true
               \/ ex_c3.(isfloating) = false) by (left; vm_compute; reflexivity).
  split; [exact Hg|]. split; [exact Hc|].
  exact (configurerequest_managed_unchanged ex_s3 ex_move_bw 1 ex_c3 Hg Hc Hm).
Defined.

Lemma enternotify_focuses_entered_witness :
  reg_inv ex_s2
  /\ exists s', enternotify 0 0 10 ex_s2 = Some (tt, s')
    /\ ((0 <> XCB_NOTIFY_MODE_NORMAL \/ 0 = XCB_NOTIFY_DETAIL_INFERIOR) ->
        10 <> ex_s2.(root) -> s' = ex_s2)
    /\ ((0 = XCB_NOTIFY_MODE_NORMAL /\ 0 <> XCB_NOTIFY_DETAIL_INFERIOR)
        \/ 10 = ex_s2.(root) ->
        exists o, getclient 10 ex_s2 = Some (o, ex_s2)
          /\ match o with
             | Some p => s'.(sel) = Some p /\ head s'.(stack) = Some p
             | None => s'.(sel) = head ex_s2.(stack) /\ s'.(stack) = ex_s2.(stack)
             end).
Proof. split; [exact ex_s2_reg|]. exact (enternotify_focuses_entered ex_s2 0 0 10 ex_s2_reg). Defined.

Lemma maprequest_ignores_witness :
  reg_inv ex_s2
  /\ ((ex_s2.(srv) 10).(xw_override_redirect) <> Some false
      \/ (exists q d, q ∈ ex_s2.(clients) /\ ex_s2.(heap) !! q = Some d /\ d.(win) = 10))
  /\ maprequest 10 3 ex_s2 = Some (tt, ex_s2).
Proof.
  assert (H : (ex_s2.(srv) 10).(xw_override_redirect) <> Some false
              \/ (exists q d, q ∈ ex_s2.(clients) /\ ex_s2.(heap) !! q = Some d
                              /\ d.(win) = 10)).
  { right. exists 1%positive, ex_c1. split; [vm_compute; apply list_elem_of_further, list_elem_of_here|].
    split; vm_compute; reflexivity. }
  split; [exact ex_s2_reg|]. split; [exact H|].
  exact (maprequest_ignores ex_s2 10 3 ex_s2_reg H).
Defined.

(** X20.  [configurenotify] runs without undefined behaviour from a state
    with the registry invariant.  An event that is not for the root
    window, or that reports the screen's current size, changes nothing;
    one for the root window with a new size makes the screen that size,
    keeps its origin, and makes the window area the whole new screen. *)
Theorem configurenotify_resizes_screen (s : wm) (wn width height : Z) :
  reg_inv s ->
  exists s', configurenotify wn width height s = Some (tt, s')
    /\ (wn <> s.(root) \/ (width = s.(scr).(sw) /\ height = s.(scr).(sh)) -> s' = s)
    /\ (wn = s.(root) -> (width <> s.(scr).(sw) \/ height <> s.(scr).(sh)) ->
        s'.(scr) = mkscreen s.(scr).(sx) s.(scr).(sy) width height
                            s.(scr).(sx) s.(scr).(sy) width height).
Proof.
  intros I. destruct (runs_configurenotify wn width height s I) as ([] & s' & E).
  exists s'. split; [exact E|].
  unfold configurenotify, bind at 1, gets in E. unfold bind at 1, gets in E.
  destruct (Z.eqb_spec wn (root s)) as [Er|Er],
           (Z.eqb_spec width (sw (scr s))) as [Ew|Ew],
           (Z.eqb_spec height (sh (scr s))) as [Eh|Eh]; simpl in E;
  try (injection E as <-; split; [reflexivity|]; intros ? [?|?]; contradiction).
  all: split; [intros [?|[? ?]]; contradiction|intros _ _].
  all: apply bind_some in E as (u & s1 & E1 & E); injection E1 as <- <-;
       apply bind_some in E as (u' & s2 & E2 & E); injection E2 as <- <-;
       apply kept_sl_arrange in E as [Es _]; rewrite Es; reflexivity.
Qed.

(** X21.  [destroynotify] and [unmapnotify] run without undefined
    behaviour from a state with the registry invariant.  For a window no
    client has they change nothing; otherwise the first client with the
    window is unmanaged: it leaves [clients] and [stack] (the others keep
    their order), its block is freed, and Selected is the new head of
    [stack]. *)
Theorem unmap_destroy_unmanage (s : wm) (wn : Z) (h : Z -> M unit) :
  h = destroynotify \/ h = unmapnotify -> reg_inv s ->
  exists s', h wn s = Some (tt, s')
    /\ exists o, getclient wn s = Some (o, s)
    /\ match o with
       | None => s' = s
       | Some p => s'.(clients) = filter (fun q => q <> p) s.(clients)
           /\ s'.(stack) = filter (fun q => q <> p) s.(stack)
           /\ dom s'.(heap) = dom s.(heap) ∖ {[p]}
           /\ s'.(sel) = head s'.(stack)
       end.
Proof.
  intros Hh I.
  assert (Eh : h wn = (g <- getclient wn;; match g with Some p => unmanage p | None => ret tt end)).
  { destruct Hh as [->| ->]; reflexivity. }
  assert (R : runs reg_inv (h wn)).
  { destruct Hh as [->| ->]; [apply runs_destroynotify|apply runs_unmapnotify]. }
  destruct (R s I) as ([] & s' & E). exists s'. split; [exact E|].
  rewrite Eh in E. apply bind_some in E as (o & s1 & Eo & E).
  pose proof (getclient_found _ _ _ _ Eo) as [-> _].
  exists o. split; [exact Eo|]. destruct o as [p|].
  - exact (unmanage_spec p s tt s' I E).
  - injection E as <-. reflexivity.
Qed.

Lemma configurenotify_resizes_screen_witness :
  reg_inv ex_s1
  /\ exists s', configurenotify 1 800 600 ex_s1 = Some (tt, s')
    /\ (1 <> ex_s1.(root) \/ (800 = ex_s1.(scr).(sw) /\ 600 = ex_s1.(scr).(sh)) -> s' = ex_s1)
    /\ (1 = ex_s1.(root) -> (800 <> ex_s1.(scr).(sw) \/ 600 <> ex_s1.(scr).(sh)) ->
        s'.(scr) = mkscreen ex_s1.(scr).(sx) ex_s1.(scr).(sy) 800 600
                            ex_s1.(scr).(sx) ex_s1.(scr).(sy) 800 600).
Proof.
  assert (I : reg_inv ex_s1) by exact (reachable_reg ex_s1 ex_s1_reachable).
  split; [exact I|]. exact (configurenotify_resizes_screen ex_s1 1 800 600 I).
Defined.

Lemma unmap_destroy_unmanage_witness :
  reg_inv ex_s2
  /\ exists s', unmapnotify 10 ex_s2 = Some (tt, s')
    /\ exists o, getclient 10 ex_s2 = Some (o, ex_s2)
    /\ match o with
       | None => s' = ex_s2
       | Some p => s'.(clients) = filter (fun q => q <> p) ex_s2.(clients)
           /\ s'.(stack) = filter (fun q => q <> p) ex_s2.(stack)
           /\ dom s'.(heap) = dom ex_s2.(heap) ∖ {[p]}
           /\ s'.(sel) = head s'.(stack)
       end.
Proof.
  split; [exact ex_s2_reg|].
  exact (unmap_destroy_unmanage ex_s2 10 unmapnotify (or_intror eq_refl) ex_s2_reg).
Defined.

(** X22.  [updatewmhints] for the Selected client whose WM_HINTS can be
    read and carry the urgency flag writes the hints back to the window
    with the urgency bit cleared and every other flag bit and field kept;
    the manager's registry (lists, Selected, client records) is unchanged. *)
Theorem updatewmhints_selected_clears (s : wm) (p : ptr) (c : client_t) (hs : wm_hints)
    (indet : bool) :
  s.(sel) = Some p -> s.(heap) !! p = Some c ->
  (s.(srv) c.(win)).(xw_wm_hints) = Some hs ->
  flag hs.(wmh_flags) XCB_WM_HINT_X_URGENCY = true ->
  exists s' hs', updatewmhints p indet s = Some (tt, s')
    /\ s'.(heap) = s.(heap) /\ s'.(clients) = s.(clients) /\ s'.(stack) = s.(stack)
    /\ s'.(sel) = s.(sel)
    /\ (s'.(srv) c.(win)).(xw_wm_hints) = Some hs'
    /\ (forall v, v <> c.(win) -> s'.(srv) v = s.(srv) v)
    /\ last s'.(out) = Some (RSetWMHints c.(win) hs')
    /\ flag hs'.(wmh_flags) XCB_WM_HINT_X_URGENCY = false
    /\ hs'.(wmh_rest) = hs.(wmh_rest)
    /\ (forall n, n <> 8 -> Z.testbit hs'.(wmh_flags) n = Z.testbit hs.(wmh_flags) n).
Proof.
  intros Hs Hc Hh Hu. unfold updatewmhints, bind at 1, deref. rewrite Hc.
  unfold bind at 1, gets. rewrite Hh. unfold bind at 1, gets.
  rewrite (bool_decide_eq_true_2 (sel s = Some p) Hs), Hu. simpl.
  eexists _, (clear_urgency_bit hs). split; [reflexivity|]. simpl.
  do 4 (split; [reflexivity|]).
  split; [unfold srv_set_wm_hints; rewrite Z.eqb_refl; reflexivity|].
  split; [intros v Hv; apply Z.eqb_neq in Hv; unfold srv_set_wm_hints; rewrite Hv; reflexivity|].
  split; [rewrite last_app; reflexivity|].
  split; [|split; [reflexivity|]].
  - unfold flag, XCB_WM_HINT_X_URGENCY.
    rewrite <- Z.land_assoc, (Z.land_comm (Z.lnot 256)), Z.land_lnot_diag, Z.land_0_r.
    reflexivity.
  - intros n Hn. unfold XCB_WM_HINT_X_URGENCY. destruct (Z.neg_nonneg_cases n) as [Hneg|Hpos].
    + rewrite !Z.testbit_neg_r by exact Hneg. reflexivity.
    + rewrite Z.land_spec, Z.lnot_spec by exact Hpos.
      change 256 with (2 ^ 8). rewrite Z.pow2_bits_eqb by lia.
      destruct (Z.eqb_spec 8 n); [lia|]. rewrite andb_true_r. reflexivity.
Qed.

Lemma updatewmhints_selected_clears_witness :
  ex_s9.(sel) = Some 1%positive /\ ex_s9.(heap) !! 1%positive = Some ex_c9
  /\ (ex_s9.(srv) ex_c9.(win)).(xw_wm_hints) = Some urgent_hints
  /\ flag urgent_hints.(wmh_flags) XCB_WM_HINT_X_URGENCY = true
  /\ exists s' hs', updatewmhints 1 false ex_s9 = Some (tt, s')
    /\ s'.(heap) = ex_s9.(heap) /\ s'.(clients) = ex_s9.(clients)
    /\ s'.(stack) = ex_s9.(stack) /\ s'.(sel) = ex_s9.(sel)
    /\ (s'.(srv) ex_c9.(win)).(xw_wm_hints) = Some hs'
    /\ (forall v, v <> ex_c9.(win) -> s'.(srv) v = ex_s9.(srv) v)
    /\ last s'.(out) = Some (RSetWMHints ex_c9.(win) hs')
    /\ flag hs'.(wmh_flags) XCB_WM_HINT_X_URGENCY = false
    /\ hs'.(wmh_rest) = urgent_hints.(wmh_rest)
    /\ (forall n, n <> 8 -> Z.testbit hs'.(wmh_flags) n = Z.testbit urgent_hints.(wmh_flags) n).
Proof.
  assert (Hs : ex_s9.(sel) = Some 1%positive) by (vm_compute; reflexivity).
  assert (Hc : ex_s9.(heap) !! 1%positive = Some ex_c9) by (vm_compute; reflexivity).
  assert (Hh : (ex_s9.(srv) ex_c9.(win)).(xw_wm_hints) = Some urgent_hints)
    by (vm_compute; reflexivity).
  assert (Hu : flag urgent_hints.(wmh_flags) XCB_WM_HINT_X_URGENCY = true)
    by (vm_compute; reflexivity).
  split; [exact Hs|]. split; [exact Hc|]. split; [exact Hh|]. split; [exact Hu|].
  exact (updatewmhints_selected_clears ex_s9 1 ex_c9 urgent_hints false Hs Hc Hh Hu).
Defined.
